(** * The /api/vapi-assistant route handler

    A shallow embedding of the POST and GET handlers of the route
    (body parsing, shared-secret check, optional bearer-token verification,
    prompt construction, extraction of the model's text, strict and
    fallback parsing of the questions, and the insert into the
    interviews collection), together with the JavaScript built-ins the
    handler relies on: strings as sequences of UTF-16 code units,
    String.prototype.trim / split / replace / match with the regular
    expressions of the source, JSON.parse and JSON.stringify. What the
    handler writes to the console is not part of the model. *)

From Stdlib Require Import List NArith ZArith Arith Bool Ascii String Lia.
Import ListNotations.

Set Implicit Arguments.
Set Warnings "-register-all".

(** ** JavaScript strings *)

(** A JavaScript string is a sequence of UTF-16 code units. *)
Definition jstring := list N.

(** The string whose code units are the characters of an ASCII literal. *)
Definition js (s : string) : jstring :=
  map N_of_ascii (list_ascii_of_string s).
Arguments js s%_string.

(** Strict equality of two strings. *)
Fixpoint jstring_eqb (a b : jstring) : bool :=
  match a, b with
  | [], [] => true
  | x :: a', y :: b' => N.eqb x y && jstring_eqb a' b'
  | _, _ => false
  end.

Local Open Scope N_scope.

(** Code units the handler's text processing names. *)
Definition LF : N := 10.
Definition CR : N := 13.
Definition QUOTE : N := 34.       (* the double quote *)
Definition APOSTROPHE : N := 39.
Definition COMMA : N := 44.

(** WhiteSpace and LineTerminator of ECMAScript: what [trim] strips and
    what the class \s matches. *)
Definition is_space (c : N) : bool :=
  (c =? 9) || (c =? 10) || (c =? 11) || (c =? 12) || (c =? 13) || (c =? 32)
  || (c =? 160) || (c =? 5760) || ((8192 <=? c) && (c <=? 8202))
  || (c =? 8232) || (c =? 8233) || (c =? 8239) || (c =? 8287)
  || (c =? 12288) || (c =? 65279).

(** \d *)
Definition is_digit (c : N) : bool := (48 <=? c) && (c <=? 57).

(** The dot of a regular expression without the s flag: anything but a
    line terminator. *)
Definition is_dot (c : N) : bool :=
  negb ((c =? 10) || (c =? 13) || (c =? 8232) || (c =? 8233)).

Local Close Scope N_scope.

Fixpoint drop_while (p : N -> bool) (s : jstring) : jstring :=
  match s with
  | [] => []
  | c :: t => if p c then drop_while p t else s
  end.

(** String.prototype.trim *)
Definition trim (s : jstring) : jstring :=
  rev (drop_while is_space (rev (drop_while is_space s))).

(** Truthiness of a string: Boolean(s). *)
Definition nonempty (s : jstring) : bool :=
  match s with [] => false | _ => true end.

(** Array.from(new Set(xs)): the first occurrence of each string, in
    order of insertion. *)
Fixpoint set_insertion_order (seen : list jstring) (xs : list jstring)
  : list jstring :=
  match xs with
  | [] => []
  | x :: t =>
      if existsb (jstring_eqb x) seen then set_insertion_order seen t
      else x :: set_insertion_order (x :: seen) t
  end.

Definition unique (xs : list jstring) : list jstring :=
  set_insertion_order [] xs.

(** ** Regular expressions

    A backtracking matcher with the priorities of ECMAScript: the left
    alternative first, quantifiers greedy, an iteration of a starred
    expression that consumes nothing is rejected. Only the constructs the
    handler's expressions use are present. *)
Module Regex.

Inductive re : Type :=
| Eps                        (* the empty expression *)
| Chr (p : N -> bool)        (* a character class *)
| Seq (r1 r2 : re)
| Alt (r1 r2 : re)
| Star (r : re)              (* r*  *)
| Bol                        (* ^ , no m flag *)
| Eol                        (* $ , no m flag *)
| Group (r : re).            (* ( r ) *)

Definition Plus (r : re) : re := Seq r (Star r).
Definition Opt (r : re) : re := Alt r Eps.                 (* r? *)
Definition lit (c : N) : re := Chr (N.eqb c).

Fixpoint lits (s : jstring) (k : re) : re :=
  match s with
  | [] => k
  | c :: t => Seq (lit c) (lits t k)
  end.

(** A position in the subject: the index, what is left of the subject
    from there, and the captures made so far. *)
Record mstate : Type := MState {
  pos : nat;
  rest : jstring;
  caps : list jstring
}.

Section Matcher.
Variable A : Type.

Fixpoint star_loop (step : mstate -> (mstate -> option A) -> option A)
    (n : nat) (s : mstate) (k : mstate -> option A) : option A :=
  match n with
  | O => k s
  | S n' =>
      match step s (fun s' =>
                      if pos s <? pos s' then star_loop step n' s' k
                      else None) with
      | Some a => Some a
      | None => k s
      end
  end.

Fixpoint m (r : re) (s : mstate) (k : mstate -> option A) : option A :=
  match r with
  | Eps => k s
  | Chr p =>
      match rest s with
      | c :: t => if p c then k (MState (S (pos s)) t (caps s)) else None
      | [] => None
      end
  | Seq r1 r2 => m r1 s (fun s' => m r2 s' k)
  | Alt r1 r2 =>
      match m r1 s k with
      | Some a => Some a
      | None => m r2 s k
      end
  | Star r' => star_loop (m r') (S (List.length (rest s))) s k
  | Bol => if pos s =? 0 then k s else None
  | Eol => match rest s with [] => k s | _ => None end
  | Group r' =>
      m r' s (fun s' =>
                k (MState (pos s') (rest s')
                     (caps s' ++ [firstn (pos s' - pos s) (rest s)])))
  end.

End Matcher.

(** The match that starts exactly at position [p], where [t] is the
    subject from [p] on: the state at the end of the match. *)
Definition match_at (r : re) (p : nat) (t : jstring) : option mstate :=
  m r (MState p t []) (fun s => Some s).

(** RegExp.prototype.exec without the g and y flags: the leftmost match. *)
Fixpoint exec_from (r : re) (p : nat) (t : jstring)
  : option (nat * mstate) :=
  match match_at r p t with
  | Some e => Some (p, e)
  | None =>
      match t with
      | [] => None
      | _ :: t' => exec_from r (S p) t'
      end
  end.

(** String.prototype.match with a non-global expression: the captures
    (index 1 onwards) of the leftmost match, or None for null. *)
Definition String_match (s : jstring) (r : re) : option (list jstring) :=
  match exec_from r 0 s with
  | Some (_, e) => Some (caps e)
  | None => None
  end.

(** String.prototype.replace with a non-global expression and a literal
    replacement: the leftmost match is replaced. *)
Definition replace_first (s : jstring) (r : re) (by_ : jstring) : jstring :=
  match exec_from r 0 s with
  | Some (b, e) => firstn b s ++ by_ ++ rest e
  | None => s
  end.

(** String.prototype.replace with a global expression and a literal
    replacement. [skip] counts the code units still inside the previous
    match; an empty match is replaced and the scan moves on by one. *)
Fixpoint replace_loop (r : re) (by_ : jstring) (p : nat) (skip : nat)
    (t : jstring) : jstring :=
  match skip with
  | S skip' =>
      match t with
      | [] => []
      | _ :: t' => replace_loop r by_ (S p) skip' t'
      end
  | O =>
      match match_at r p t with
      | Some e =>
          match pos e - p, t with
          | S len, _ :: t' => by_ ++ replace_loop r by_ (S p) len t'
          | _, c :: t' => by_ ++ c :: replace_loop r by_ (S p) 0 t'
          | _, [] => by_
          end
      | None =>
          match t with
          | [] => []
          | c :: t' => c :: replace_loop r by_ (S p) 0 t'
          end
      end
  end.

Definition replace_all (s : jstring) (r : re) (by_ : jstring) : jstring :=
  replace_loop r by_ 0 0 s.

(** String.prototype.split with an expression without groups and no
    limit. [piece] holds, reversed, the code units since the end of the
    previous separator; no match is tried at the end of the subject, and
    a match that ends where the current piece starts only moves the scan
    on by one. *)
Fixpoint split_loop (r : re) (p : nat) (skip : nat) (piece : jstring)
    (t : jstring) : list jstring :=
  match t with
  | [] => [rev piece]
  | c :: t' =>
      match skip with
      | S skip' => split_loop r (S p) skip' piece t'
      | O =>
          match match_at r p t with
          | Some e =>
              match pos e - p with
              | S len => rev piece :: split_loop r (S p) len [] t'
              | O =>
                  match piece with
                  | [] => split_loop r (S p) 0 [c] t'
                  | _ => rev piece :: split_loop r (S p) 0 [c] t'
                  end
              end
          | None => split_loop r (S p) 0 (c :: piece) t'
          end
      end
  end.

Definition split (s : jstring) (r : re) : list jstring :=
  match s with
  | [] => match match_at r 0 [] with Some _ => [] | None => [[]] end
  | _ => split_loop r 0 0 [] s
  end.

End Regex.

(** ** JavaScript values

    The values the handler handles are plain data: what JSON.parse
    returns, what the body destructuring yields, and the response object
    of the text-generation call. An object lists its own properties in
    creation order, each key once. A number is held as its canonical
    decimal text, the result of Number.prototype.toString. *)
Inductive JValue : Type :=
| JUndefined
| JNull
| JBool (b : bool)
| JNum (text : jstring)
| JStr (s : jstring)
| JArr (items : list JValue)
| JObj (props : list (jstring * JValue)).

(** What a throw statement or a rejected promise carries. [Raised] is an
    error of a collaborator, known by its String() text only. *)
Inductive JError : Type :=
| TypeError (message : jstring)
| SyntaxError (message : jstring)
| PlainError (message : jstring)     (* new Error(message) *)
| Raised (text : jstring).

(** String(error) *)
Definition String_of_error (e : JError) : jstring :=
  match e with
  | TypeError msg => js "TypeError: " ++ msg
  | SyntaxError msg => js "SyntaxError: " ++ msg
  | PlainError msg => js "Error: " ++ msg
  | Raised text => text
  end.

(** The completion of an evaluation: a value, or a throw. *)
Inductive Completion (A : Type) : Type :=
| Normal (a : A)
| Throw (e : JError).
Arguments Normal {A} a.
Arguments Throw {A} e.

Definition bind {A B : Type} (c : Completion A) (f : A -> Completion B)
  : Completion B :=
  match c with
  | Normal a => f a
  | Throw e => Throw e
  end.

Notation "x <- c ;; k" := (bind c (fun x => k))
  (at level 61, c at next level, right associativity).

(** try { c } catch { h } *)
Definition try_catch {A : Type} (c : Completion A)
    (h : JError -> Completion A) : Completion A :=
  match c with
  | Normal a => Normal a
  | Throw e => h e
  end.

(** ToBoolean *)
Definition truthy (v : JValue) : bool :=
  match v with
  | JUndefined | JNull => false
  | JBool b => b
  | JNum t => negb (jstring_eqb t (js "0") || jstring_eqb t (js "NaN"))
  | JStr s => nonempty s
  | JArr _ | JObj _ => true
  end.

Fixpoint lookup (k : jstring) (props : list (jstring * JValue))
  : option JValue :=
  match props with
  | [] => None
  | (k', v) :: t => if jstring_eqb k k' then Some v else lookup k t
  end.

(** CreateDataProperty on an ordinary object: an existing key keeps its
    place and takes the new value. *)
Fixpoint set_prop (k : jstring) (v : JValue)
    (props : list (jstring * JValue)) : list (jstring * JValue) :=
  match props with
  | [] => [(k, v)]
  | (k', v') :: t =>
      if jstring_eqb k k' then (k', v) :: t else (k', v') :: set_prop k v t
  end.

(** [v.k] for a value that is neither null nor undefined and a key that no
    prototype defines (text, output, content, questions, uid and the body's
    field names): only an object's own property can answer. *)
Definition get (v : JValue) (k : jstring) : JValue :=
  match v with
  | JObj props => match lookup k props with Some x => x | None => JUndefined end
  | _ => JUndefined
  end.

(** [v?.k] *)
Definition get_opt (v : JValue) (k : jstring) : JValue :=
  match v with
  | JUndefined | JNull => JUndefined
  | _ => get v k
  end.

(** [k in v] for an object or array [v] and such a key. *)
Definition has_prop (k : jstring) (v : JValue) : bool :=
  match v with
  | JObj props => match lookup k props with Some _ => true | None => false end
  | _ => false
  end.

(** [a[0]] for an array [a]. *)
Definition first_item (a : list JValue) : JValue :=
  match a with
  | [] => JUndefined
  | x :: _ => x
  end.

(** ToString, as String(v) and a template literal apply it. An object
    that has a property named toString has shadowed the method with a value
    that cannot be called, and its valueOf, own or inherited, gives no
    primitive either: the conversion throws. *)
Fixpoint ToString (v : JValue) : Completion jstring :=
  match v with
  | JUndefined => Normal (js "undefined")
  | JNull => Normal (js "null")
  | JBool true => Normal (js "true")
  | JBool false => Normal (js "false")
  | JNum t => Normal t
  | JStr s => Normal s
  | JArr items =>
      (fix join (l : list JValue) (first : bool) : Completion jstring :=
         match l with
         | [] => Normal []
         | x :: t =>
             sx <- match x with
                   | JUndefined | JNull => Normal []
                   | _ => ToString x
                   end ;;
             st <- join t false ;;
             Normal ((if first then [] else [COMMA]) ++ sx ++ st)
         end) items true
  | JObj props =>
      match lookup (js "toString") props with
      | Some _ =>
          Throw (TypeError (js "Cannot convert object to primitive value"))
      | None => Normal (js "[object Object]")
      end
  end.

(** ** JSON.parse

    The text is read by a lexer that is a machine over code units, and
    the token sequence by a machine with a stack of open arrays and
    objects. Both are total: a text that is not JSON gives a SyntaxError. *)
Module JSON.

Local Open Scope N_scope.

Inductive token : Type :=
| TLBrace | TRBrace | TLBracket | TRBracket | TColon | TComma
| TString (s : jstring)
| TNumber (literal : jstring)
| TTrue | TFalse | TNull.

(** Where the lexer is inside a number: after the minus sign, after a
    leading zero, in the integer digits, after the point, in the fraction,
    after the exponent mark, after the exponent's sign, in the exponent. *)
Inductive numstate : Type :=
| NMinus | NZero | NInt | NDot | NFrac | NE | NESign | NExp.

(** Accumulated code units are kept reversed. *)
Inductive lexstate : Type :=
| LIdle
| LString (acc : jstring)
| LEscape (acc : jstring)
| LUnicode (acc : jstring) (read : nat) (value : N)
| LNumber (st : numstate) (acc : jstring)
| LWord (todo : jstring) (tok : token).

Definition hex_value (c : N) : option N :=
  if (48 <=? c) && (c <=? 57) then Some (c - 48)
  else if (65 <=? c) && (c <=? 70) then Some (c - 55)
  else if (97 <=? c) && (c <=? 102) then Some (c - 87)
  else None.

Definition is_json_space (c : N) : bool :=
  (c =? 9) || (c =? 10) || (c =? 13) || (c =? 32).

Definition lex_idle (c : N) : option (lexstate * list token) :=
  if is_json_space c then Some (LIdle, [])
  else if c =? 123 then Some (LIdle, [TLBrace])
  else if c =? 125 then Some (LIdle, [TRBrace])
  else if c =? 91 then Some (LIdle, [TLBracket])
  else if c =? 93 then Some (LIdle, [TRBracket])
  else if c =? 58 then Some (LIdle, [TColon])
  else if c =? 44 then Some (LIdle, [TComma])
  else if c =? 34 then Some (LString [], [])
  else if c =? 45 then Some (LNumber NMinus [c], [])
  else if c =? 48 then Some (LNumber NZero [c], [])
  else if is_digit c then Some (LNumber NInt [c], [])
  else if c =? 116 then Some (LWord (js "rue") TTrue, [])
  else if c =? 102 then Some (LWord (js "alse") TFalse, [])
  else if c =? 110 then Some (LWord (js "ull") TNull, [])
  else None.

Definition is_exp_mark (c : N) : bool := (c =? 101) || (c =? 69).

(** The number ends before [c]: allowed in the states where the literal
    read so far is complete. *)
Definition lex_number_end (acc : jstring) (c : N)
  : option (lexstate * list token) :=
  match lex_idle c with
  | Some (st, toks) => Some (st, TNumber (rev acc) :: toks)
  | None => None
  end.

Definition lex_number (st : numstate) (acc : jstring) (c : N)
  : option (lexstate * list token) :=
  match st with
  | NMinus =>
      if c =? 48 then Some (LNumber NZero (c :: acc), [])
      else if is_digit c then Some (LNumber NInt (c :: acc), [])
      else None
  | NZero =>
      if c =? 46 then Some (LNumber NDot (c :: acc), [])
      else if is_exp_mark c then Some (LNumber NE (c :: acc), [])
      else lex_number_end acc c
  | NInt =>
      if is_digit c then Some (LNumber NInt (c :: acc), [])
      else if c =? 46 then Some (LNumber NDot (c :: acc), [])
      else if is_exp_mark c then Some (LNumber NE (c :: acc), [])
      else lex_number_end acc c
  | NDot =>
      if is_digit c then Some (LNumber NFrac (c :: acc), []) else None
  | NFrac =>
      if is_digit c then Some (LNumber NFrac (c :: acc), [])
      else if is_exp_mark c then Some (LNumber NE (c :: acc), [])
      else lex_number_end acc c
  | NE =>
      if (c =? 43) || (c =? 45) then Some (LNumber NESign (c :: acc), [])
      else if is_digit c then Some (LNumber NExp (c :: acc), [])
      else None
  | NESign =>
      if is_digit c then Some (LNumber NExp (c :: acc), []) else None
  | NExp =>
      if is_digit c then Some (LNumber NExp (c :: acc), [])
      else lex_number_end acc c
  end.

Definition lex_escape (acc : jstring) (c : N)
  : option (lexstate * list token) :=
  if (c =? 34) || (c =? 92) || (c =? 47) then Some (LString (c :: acc), [])
  else if c =? 98 then Some (LString (8 :: acc), [])
  else if c =? 102 then Some (LString (12 :: acc), [])
  else if c =? 110 then Some (LString (10 :: acc), [])
  else if c =? 114 then Some (LString (13 :: acc), [])
  else if c =? 116 then Some (LString (9 :: acc), [])
  else if c =? 117 then Some (LUnicode acc 0 0, [])
  else None.

Definition lex_step (st : lexstate) (c : N)
  : option (lexstate * list token) :=
  match st with
  | LIdle => lex_idle c
  | LString acc =>
      if c =? 34 then Some (LIdle, [TString (rev acc)])
      else if c =? 92 then Some (LEscape acc, [])
      else if c <? 32 then None
      else Some (LString (c :: acc), [])
  | LEscape acc => lex_escape acc c
  | LUnicode acc read value =>
      match hex_value c with
      | Some d =>
          match read with
          | 3%nat => Some (LString ((value * 16 + d) :: acc), [])
          | _ => Some (LUnicode acc (S read) (value * 16 + d), [])
          end
      | None => None
      end
  | LNumber ns acc => lex_number ns acc c
  | LWord todo tok =>
      match todo with
      | x :: [] => if c =? x then Some (LIdle, [tok]) else None
      | x :: t => if c =? x then Some (LWord t tok, []) else None
      | [] => None
      end
  end.

(** At the end of the text only a complete number may be pending. *)
Definition lex_end (st : lexstate) : option (list token) :=
  match st with
  | LIdle => Some []
  | LNumber (NZero | NInt | NFrac | NExp) acc => Some [TNumber (rev acc)]
  | _ => None
  end.

Fixpoint lex (st : lexstate) (s : jstring) : option (list token) :=
  match s with
  | [] => lex_end st
  | c :: t =>
      match lex_step st c with
      | Some (st', toks) =>
          match lex st' t with
          | Some more => Some (toks ++ more)
          | None => None
          end
      | None => None
      end
  end.

(** An open array with its items so far (reversed), or an open object with
    its properties so far and the key that awaits its value. *)
Inductive frame : Type :=
| FArray (items : list JValue)
| FObject (props : list (jstring * JValue)) (key : option jstring).

Inductive expect : Type :=
| EValue            (* a value *)
| EValueOrEnd       (* just after [ *)
| EKeyOrEnd         (* just after { *)
| EKey              (* after a comma inside an object *)
| EColon
| ECommaOrEnd
| EDone (v : JValue).

Definition deliver (v : JValue) (stack : list frame)
  : option (list frame * expect) :=
  match stack with
  | [] => Some ([], EDone v)
  | FArray items :: up => Some (FArray (v :: items) :: up, ECommaOrEnd)
  | FObject props (Some k) :: up =>
      Some (FObject (set_prop k v props) None :: up, ECommaOrEnd)
  | FObject _ None :: _ => None
  end.

Section Parser.
(** StringToNumber followed by Number.prototype.toString: the canonical
    text of the number a JSON literal denotes. *)
Variable canonical_number : jstring -> jstring.

Definition parse_value (tok : token) (stack : list frame)
  : option (list frame * expect) :=
  match tok with
  | TString s => deliver (JStr s) stack
  | TNumber l => deliver (JNum (canonical_number l)) stack
  | TTrue => deliver (JBool true) stack
  | TFalse => deliver (JBool false) stack
  | TNull => deliver JNull stack
  | TLBracket => Some (FArray [] :: stack, EValueOrEnd)
  | TLBrace => Some (FObject [] None :: stack, EKeyOrEnd)
  | _ => None
  end.

Definition parse_key (tok : token) (stack : list frame)
  : option (list frame * expect) :=
  match tok, stack with
  | TString k, FObject props None :: up =>
      Some (FObject props (Some k) :: up, EColon)
  | _, _ => None
  end.

Definition parse_end (tok : token) (stack : list frame)
  : option (list frame * expect) :=
  match tok, stack with
  | TRBracket, FArray items :: up => deliver (JArr (rev items)) up
  | TRBrace, FObject props None :: up => deliver (JObj props) up
  | _, _ => None
  end.

Definition parse_step (stack : list frame) (e : expect) (tok : token)
  : option (list frame * expect) :=
  match e with
  | EValue => parse_value tok stack
  | EValueOrEnd =>
      match tok with
      | TRBracket => parse_end tok stack
      | _ => parse_value tok stack
      end
  | EKeyOrEnd =>
      match tok with
      | TRBrace => parse_end tok stack
      | _ => parse_key tok stack
      end
  | EKey => parse_key tok stack
  | EColon =>
      match tok with
      | TColon => Some (stack, EValue)
      | _ => None
      end
  | ECommaOrEnd =>
      match tok, stack with
      | TComma, FArray _ :: _ => Some (stack, EValue)
      | TComma, FObject _ _ :: _ => Some (stack, EKey)
      | _, _ => parse_end tok stack
      end
  | EDone _ => None
  end.

Fixpoint parse_tokens (stack : list frame) (e : expect) (toks : list token)
  : option JValue :=
  match toks with
  | [] => match e with EDone v => Some v | _ => None end
  | tok :: t =>
      match parse_step stack e tok with
      | Some (stack', e') => parse_tokens stack' e' t
      | None => None
      end
  end.

(** JSON.parse(text) *)
Definition parse (text : jstring) : Completion JValue :=
  match lex LIdle text with
  | Some toks =>
      match parse_tokens [] EValue toks with
      | Some v => Normal v
      | None => Throw (SyntaxError (js "Unexpected token in JSON"))
      end
  | None => Throw (SyntaxError (js "Unexpected token in JSON"))
  end.

End Parser.

(** *** JSON.stringify *)

Definition hex_digit (d : N) : N := if d <? 10 then 48 + d else 87 + d.

(** \uXXXX with lower-case digits *)
Definition unicode_escape (c : N) : jstring :=
  [92; 117; hex_digit (c / 4096 mod 16); hex_digit (c / 256 mod 16);
   hex_digit (c / 16 mod 16); hex_digit (c mod 16)].

Definition is_high_surrogate (c : N) : bool := (55296 <=? c) && (c <=? 56319).
Definition is_low_surrogate (c : N) : bool := (56320 <=? c) && (c <=? 57343).

Definition quote_unit (c : N) : jstring :=
  if c =? 8 then js "\b"
  else if c =? 9 then js "\t"
  else if c =? 10 then js "\n"
  else if c =? 12 then js "\f"
  else if c =? 13 then js "\r"
  else if c =? 34 then [92; 34]
  else if c =? 92 then [92; 92]
  else if (c <? 32) || is_high_surrogate c || is_low_surrogate c
       then unicode_escape c
  else [c].

(** The inside of QuoteJSONString: a surrogate pair stays as it is, a lone
    surrogate is escaped. *)
Fixpoint quote_units (s : jstring) : jstring :=
  match s with
  | [] => []
  | c :: t =>
      match t with
      | d :: t' =>
          if is_high_surrogate c && is_low_surrogate d
          then c :: d :: quote_units t'
          else quote_unit c ++ quote_units t
      | [] => quote_unit c
      end
  end.

Definition quote (s : jstring) : jstring := [34] ++ quote_units s ++ [34].

Definition is_finite_text (t : jstring) : bool :=
  negb (jstring_eqb t (js "NaN") || jstring_eqb t (js "Infinity")
        || jstring_eqb t (js "-Infinity")).

(** SerializeJSONProperty without indentation; None stands for undefined.
    The members of an array or object are joined with commas; an undefined
    item of an array is written null, an undefined property is left out. *)
Fixpoint serialize (v : JValue) : option jstring :=
  match v with
  | JUndefined => None
  | JNull => Some (js "null")
  | JBool true => Some (js "true")
  | JBool false => Some (js "false")
  | JNum t => Some (if is_finite_text t then t else js "null")
  | JStr s => Some (quote s)
  | JArr items =>
      Some ([91] ++
            (fix go (l : list JValue) (first : bool) : jstring :=
               match l with
               | [] => []
               | x :: t =>
                   (if first then [] else [44])
                   ++ match serialize x with
                      | Some sx => sx
                      | None => js "null"
                      end
                   ++ go t false
               end) items true
            ++ [93])
  | JObj props =>
      Some ([123] ++
            (fix go (l : list (jstring * JValue)) (first : bool) : jstring :=
               match l with
               | [] => []
               | (k, x) :: t =>
                   match serialize x with
                   | Some sx =>
                       (if first then [] else [44])
                       ++ quote k ++ [58] ++ sx ++ go t false
                   | None => go t first
                   end
               end) props true
            ++ [125])
  end.

(** JSON.stringify(v) *)
Definition stringify (v : JValue) : option jstring := serialize v.

End JSON.

(** ** The route's own text processing *)

Import Regex.

(** The literal with every apostrophe standing for a double quote. *)
Definition jsq (s : string) : jstring :=
  map (fun c => if N.eqb c APOSTROPHE then QUOTE else c) (js s).
Arguments jsq s%_string.

(** /^Bearer (.+)$/ *)
Definition bearer_re : re :=
  Seq Bol (lits (js "Bearer ") (Seq (Group (Plus (Chr is_dot))) Eol)).

(** The class of white space, both square brackets and the double quote. *)
Definition is_space_bracket_quote (c : N) : bool :=
  is_space c || N.eqb c 91 || N.eqb c 93 || N.eqb c QUOTE.

(** /^C+|C+$/g for that class C: what the fallback strips from both ends
    of the text. *)
Definition trim_brackets_re : re :=
  Alt (Seq Bol (Plus (Chr is_space_bracket_quote)))
      (Seq (Plus (Chr is_space_bracket_quote)) Eol).

Definition spaces : re := Star (Chr is_space).

(** The separator of the fallback split, an alternation of five, written
    here with Q for the double quote:
    /\r?\n|Q\s*,\s*Q|Q,\s*Q|Q\s*,\s*|\s*[,]\s*/ *)
Definition split_re : re :=
  Alt (Seq (Opt (lit CR)) (lit LF))
 (Alt (Seq (lit QUOTE) (Seq spaces (Seq (lit COMMA) (Seq spaces (lit QUOTE)))))
 (Alt (Seq (lit QUOTE) (Seq (lit COMMA) (Seq spaces (lit QUOTE))))
 (Alt (Seq (lit QUOTE) (Seq spaces (Seq (lit COMMA) spaces)))
      (Seq spaces (Seq (lit COMMA) spaces))))).

(** [\).\s-] *)
Definition is_numbering_mark (c : N) : bool :=
  N.eqb c 41 || N.eqb c 46 || is_space c || N.eqb c 45.

(** /^\d+[\).\s-]+/ *)
Definition numbering_re : re :=
  Seq Bol (Seq (Plus (Chr is_digit)) (Plus (Chr is_numbering_mark))).

(** The class of the double quote, the apostrophe and white space. *)
Definition is_quote_or_space (c : N) : bool :=
  N.eqb c QUOTE || N.eqb c APOSTROPHE || is_space c.

(** /^C+|C+$/g for that class C. *)
Definition trim_quotes_re : re :=
  Alt (Seq Bol (Plus (Chr is_quote_or_space)))
      (Seq (Plus (Chr is_quote_or_space)) Eol).

(** String.prototype.split with a one-unit string separator. *)
Fixpoint split_on (sep : N) (piece : jstring) (s : jstring) : list jstring :=
  match s with
  | [] => [rev piece]
  | c :: t =>
      if N.eqb c sep then rev piece :: split_on sep [] t
      else split_on sep (c :: piece) t
  end.

(** xs.map(f) for a callback that may throw: the first throw ends it. *)
Fixpoint map_throwing {A B : Type} (f : A -> Completion B) (xs : list A)
  : Completion (list B) :=
  match xs with
  | [] => Normal []
  | x :: t =>
      y <- f x ;;
      ys <- map_throwing f t ;;
      Normal (y :: ys)
  end.

(** (q) => String(q).trim() *)
Definition string_trim (q : JValue) : Completion jstring :=
  s <- ToString q ;;
  Normal (trim s).

Definition is_array (v : JValue) : bool :=
  match v with JArr _ => true | _ => false end.

Definition is_string (v : JValue) : bool :=
  match v with JStr _ => true | _ => false end.

Definition items_of (v : JValue) : list JValue :=
  match v with JArr items => items | _ => [] end.

(** Step 4: the text of the model's response, or undefined. *)
Definition extract_text (llm : JValue) : JValue :=
  match llm with
  | JObj _ | JArr _ =>
      if has_prop (js "text") llm && is_string (get llm (js "text"))
      then get llm (js "text")
      else
        let output := get llm (js "output") in
        if truthy output && is_array output
           && truthy (get_opt (first_item (items_of output)) (js "content"))
        then
          let content := get (first_item (items_of output)) (js "content") in
          if is_array content
             && truthy (get_opt (first_item (items_of content)) (js "text"))
          then get (first_item (items_of content)) (js "text")
          else JUndefined
        else
          match JSON.stringify llm with
          | Some s => JStr s
          | None => JUndefined
          end
  | JStr s => JStr s
  | _ => JUndefined
  end.

(** One piece of the fallback split: numbering and surrounding quotes
    removed, then trimmed. *)
Definition clean_piece (s : jstring) : jstring :=
  trim (replace_all (replace_first s numbering_re []) trim_quotes_re []).

(** The pieces the fallback splits a text into. *)
Definition fallback_pieces (text : jstring) : list jstring :=
  split (replace_all text trim_brackets_re []) split_re.

(** The catch block of step 5. A questionsText that is not a string has
    no replace method. *)
Definition fallback_parse (questionsText : JValue)
  : Completion (list jstring) :=
  match questionsText with
  | JStr text =>
      Normal (unique (filter nonempty (map clean_piece (fallback_pieces text))))
  | _ => Throw (TypeError (js "questionsText.replace is not a function"))
  end.

Section Parsing.
Variable canonical_number : jstring -> jstring.

(** The try block of step 5. *)
Definition strict_parse (questionsText : JValue)
  : Completion (list jstring) :=
  text <- ToString questionsText ;;
  parsed <- JSON.parse canonical_number text ;;
  if is_array parsed then
    strs <- map_throwing string_trim (items_of parsed) ;;
    Normal (filter nonempty strs)
  else if truthy parsed && truthy (get parsed (js "questions"))
          && is_array (get parsed (js "questions")) then
    strs <- map_throwing string_trim (items_of (get parsed (js "questions"))) ;;
    Normal (filter nonempty strs)
  else Throw (PlainError (js "Parsed JSON not an array")).

(** Step 5: the questions array. *)
Definition parse_questions (questionsText : JValue)
  : Completion (list jstring) :=
  if truthy questionsText then
    try_catch (strict_parse questionsText)
              (fun _ => fallback_parse questionsText)
  else Normal [].

End Parsing.

(** ** The request, the response and the collaborators *)

(** What the handler reads of the request: the text of the body and the
    two headers, None where a header is absent. *)
Record Request : Type := {
  body_text : jstring;
  x_vapi_secret : option jstring;
  authorization : option jstring
}.

(** Response.json(json, { status }) *)
Record Response : Type := {
  status : nat;
  json : JValue
}.

(** The fields of the body after destructuring. *)
Module Body.
Record t : Type := {
  type : JValue;
  role : JValue;
  level : JValue;
  techstack : JValue;
  amount : JValue;
  userid : JValue
}.
End Body.

(** The interview object of step 6. *)
Record Interview : Type := {
  role : JValue;
  type : JValue;
  level : JValue;
  techstack : list jstring;
  questions : list jstring;
  userId : JValue;
  finalized : bool;
  coverImage : jstring;
  createdAt : jstring
}.

(** The interviews collection: the documents added, oldest first. *)
Definition Store := list Interview.

(** What lies outside the handler: the environment variable, the token
    verifier, the text-generation call (as a function of the prompt), the
    cover picker and the clock (the value each returns in this request), the
    store's add (the error it rejects the document with, if any), and the
    engine's conversion of number literals. *)
Record Env : Type := {
  VAPI_SECRET : option jstring;
  verifyIdToken : jstring -> Completion JValue;
  generateText : jstring -> Completion JValue;
  getRandomInterviewCover : jstring;
  toISOString : jstring;
  add_error : Interview -> option JError;
  canonical_number : jstring -> jstring
}.

(** How a call of the handler ends: with a response, or with the
    rejection of the promise it returned. *)
Inductive Outcome : Type :=
| Responded (r : Response)
| Rejected (e : JError).

(** ** The POST handler *)

(** x || the empty string, for a header value or null *)
Definition or_empty (h : option jstring) : jstring :=
  match h with
  | Some s => s
  | None => []
  end.

(** request.json(): the body text parsed as JSON. *)
Definition request_json (env : Env) (req : Request) : Completion JValue :=
  JSON.parse (canonical_number env) (body_text req).

(** const { type, role, level, techstack, amount, userid } = body *)
Definition destructure (body : JValue) : Completion Body.t :=
  match body with
  | JUndefined | JNull =>
      Throw (TypeError (js "Cannot destructure property 'type' of 'body'"))
  | _ =>
      Normal {| Body.type := get body (js "type");
                Body.role := get body (js "role");
                Body.level := get body (js "level");
                Body.techstack := get body (js "techstack");
                Body.amount := get body (js "amount");
                Body.userid := get body (js "userid") |}
  end.

Definition error_body (message : jstring) : JValue :=
  JObj [(js "success", JBool false); (js "error", JStr message)].

Definition unauthorized : Response :=
  {| status := 401; json := error_body (js "Unauthorized VAPI request") |}.

Definition no_questions : Response :=
  {| status := 502; json := error_body (js "LLM did not return questions") |}.

Definition ok : Response :=
  {| status := 200; json := JObj [(js "success", JBool true)] |}.

Definition server_error (e : JError) : Response :=
  {| status := 500; json := error_body (String_of_error e) |}.

(** Step 1: does the shared-secret check turn the request down? *)
Definition secret_refused (env : Env) (req : Request) : bool :=
  let vapiSecretHeader := or_empty (x_vapi_secret req) in
  match VAPI_SECRET env with
  | Some secret =>
      if nonempty secret then
        negb (nonempty vapiSecretHeader)
        || negb (jstring_eqb vapiSecretHeader secret)
      else false
  | None => false
  end.

(** Step 2: the user id the record will carry. *)
Definition resolve_user (env : Env) (req : Request) (userid : JValue)
  : JValue :=
  let authHeader := or_empty (authorization req) in
  match String_match authHeader bearer_re with
  | Some match_ =>
      let idToken := nth 0 match_ [] in
      match verifyIdToken env idToken with
      | Normal decoded =>
          if truthy decoded && truthy (get decoded (js "uid"))
          then get decoded (js "uid")
          else userid
      | Throw _ => userid
      end
  | None => userid
  end.

(** Step 3: the prompt, a template literal over five of the fields. *)
Definition build_prompt (b : Body.t) : Completion jstring :=
  role <- ToString (Body.role b) ;;
  level <- ToString (Body.level b) ;;
  techstack <- ToString (Body.techstack b) ;;
  type <- ToString (Body.type b) ;;
  amount <- ToString (Body.amount b) ;;
  Normal (js "Prepare questions for a job interview." ++ [LF]
          ++ js "The job role is " ++ role ++ js "." ++ [LF]
          ++ js "The job experience level is " ++ level ++ js "." ++ [LF]
          ++ js "The tech stack used in the job is: " ++ techstack
          ++ js "." ++ [LF]
          ++ js "The focus between behavioural and technical questions should lean towards: "
          ++ type ++ js "." ++ [LF]
          ++ js "The amount of questions required is: " ++ amount
          ++ js "." ++ [LF]
          ++ js "Please return only the questions, without any additional text."
          ++ [LF]
          ++ jsq "The questions are going to be read by a voice assistant so do not use '/' or '*' or any other special characters which might break the voice assistant."
          ++ [LF]
          ++ js "Return the questions formatted like this:" ++ [LF]
          ++ jsq "['Question 1', 'Question 2', 'Question 3']").

(** The techstack field of the record. *)
Definition techstack_list (v : JValue) : Completion (list jstring) :=
  map_throwing string_trim
    (match v with
     | JStr s => map JStr (split_on COMMA [] s)
     | JArr items => items
     | _ => []
     end).

(** The handler up to the point where the model is called: a response
    returned early, or the prompt of the call and the resolved user id. *)
Definition before_model (env : Env) (req : Request) (b : Body.t)
  : Completion (Response + jstring * JValue) :=
  if secret_refused env req then Normal (inl unauthorized)
  else
    let resolvedUserId := resolve_user env req (Body.userid b) in
    prompt <- build_prompt b ;;
    Normal (inr (prompt, resolvedUserId)).

(** Steps 3 to 5 from the call on: the questions array. *)
Definition ask_model (env : Env) (prompt : jstring)
  : Completion (list jstring) :=
  llm <- generateText env prompt ;;
  parse_questions (canonical_number env) (extract_text llm).

(** The body of the try block. *)
Definition POST_try (env : Env) (req : Request) (b : Body.t) (db : Store)
  : Completion Response * Store :=
  match before_model env req b with
  | Throw e => (Throw e, db)
  | Normal (inl early) => (Normal early, db)
  | Normal (inr (prompt, resolvedUserId)) =>
      match ask_model env prompt with
      | Throw e => (Throw e, db)
      | Normal [] => (Normal no_questions, db)
      | Normal questionsArray =>
          match techstack_list (Body.techstack b) with
          | Throw e => (Throw e, db)
          | Normal stack =>
              let interview :=
                {| role := Body.role b;
                   type := Body.type b;
                   level := Body.level b;
                   techstack := stack;
                   questions := questionsArray;
                   userId := resolvedUserId;
                   finalized := true;
                   coverImage := getRandomInterviewCover env;
                   createdAt := toISOString env |} in
              match add_error env interview with
              | Some e => (Throw e, db)
              | None => (Normal ok, db ++ [interview])
              end
          end
      end
  end.

(** export async function POST(request). The body is read and
    destructured before the try block opens; what the block throws is
    answered with status 500. *)
Definition POST (env : Env) (req : Request) (db : Store) : Outcome * Store :=
  match try_catch (request_json env req) (fun _ => Normal (JObj [])) with
  | Throw e => (Rejected e, db)
  | Normal body =>
      match destructure body with
      | Throw e => (Rejected e, db)
      | Normal b =>
          match POST_try env req b db with
          | (Normal r, db') => (Responded r, db')
          | (Throw e, db') => (Responded (server_error e), db')
          end
      end
  end.

(** export async function GET() *)
Definition GET : Response :=
  {| status := 200;
     json := JObj [(js "success", JBool true);
                   (js "data", JStr (js "Thank you!"))] |}.

(** ** Sample collaborators

    An environment in which the verifier accepts exactly one token, the
    model answers every prompt with the same text, and the store accepts
    every document. *)
Definition good_token : jstring := js "good-token".
Definition token_uid : jstring := js "uid-from-token".

Definition sample_env (secret : option jstring) (model_text : jstring) : Env :=
  {| VAPI_SECRET := secret;
     verifyIdToken := fun idToken =>
       if jstring_eqb idToken good_token
       then Normal (JObj [(js "uid", JStr token_uid)])
       else Throw (Raised (js "Error: Decoding Firebase ID token failed"));
     generateText := fun _ => Normal (JObj [(js "text", JStr model_text)]);
     getRandomInterviewCover := js "/covers/adobe.png";
     toISOString := js "2025-01-01T00:00:00.000Z";
     add_error := fun _ => None;
     canonical_number := fun literal => literal |}.

Definition sample_request (body : jstring) (secret auth : option jstring)
  : Request :=
  {| body_text := body; x_vapi_secret := secret; authorization := auth |}.

Definition sample_body : jstring :=
  jsq "{'role':'Backend','level':'Senior','techstack':'Go,Rust','type':'technical','amount':2,'userid':'uid-from-body'}".

Definition sample_answer : jstring := jsq "['What is Go?','What is Rust?']".

(** The request as it would be without its Authorization header. *)
Definition without_authorization (req : Request) : Request :=
  {| body_text := body_text req;
     x_vapi_secret := x_vapi_secret req;
     authorization := None |}.

(** The body the handler destructures. *)
Definition body_of (env : Env) (req : Request) : JValue :=
  match request_json env req with
  | Normal v => v
  | Throw _ => JObj []
  end.

(** The string begins with a white-space code unit. *)
Definition starts_with_space (s : jstring) : bool :=
  match s with
  | [] => false
  | c :: _ => is_space c
  end.

(** A string is trimmed when it has no white space at either end: neither
    its first code unit nor its last one is white space. *)
Definition trimmed (s : jstring) : Prop :=
  starts_with_space s = false /\ starts_with_space (rev s) = false.

(** ** Vocabulary of the statements *)

(** A usable question: a non-empty trimmed string. *)
Definition usable (q : jstring) : Prop := q <> [] /\ trimmed q.

(** The document the handler builds from the fields, the questions and
    the collaborators' answers. *)
Definition interview_of (env : Env) (req : Request) (b : Body.t)
    (questionsArray stack : list jstring) : Interview :=
  {| role := Body.role b;
     type := Body.type b;
     level := Body.level b;
     techstack := stack;
     questions := questionsArray;
     userId := resolve_user env req (Body.userid b);
     finalized := true;
     coverImage := getRandomInterviewCover env;
     createdAt := toISOString env |}.

(** A header value has no line terminator in it. *)
Definition header_text (s : jstring) : Prop :=
  Forall (fun c => is_dot c = true) s.

(** [a] is what is left of [b] after some prefix. *)
Definition is_suffix (a b : jstring) : Prop := exists pre, b = pre ++ a.

(** The least number of code units a match of the expression consumes. *)
Fixpoint min_width (r : re) : nat :=
  match r with
  | Eps | Bol | Eol | Star _ => 0
  | Chr _ => 1
  | Seq r1 r2 => min_width r1 + min_width r2
  | Alt r1 r2 => Nat.min (min_width r1) (min_width r2)
  | Group r' => min_width r'
  end.


(** The continuation succeeds with [a] at some position not before [from]. *)
Definition reaches (A : Type) (k : mstate -> option A) (a : A) (from : nat)
  : Prop :=
  exists s', k s' = Some a /\ from <= pos s'.

(** A piece with no comma and no line feed in it. *)
Definition no_separator (piece : jstring) : Prop :=
  ~ In COMMA piece /\ ~ In LF piece.

(** Two numbered lines, each ended by a line feed. *)
Definition numbered_lines : jstring :=
  js "1. What is X" ++ [LF] ++ js "2. What is Y" ++ [LF].

(** ** More collaborators for the examples *)

(** The sample environment with a model that fails. *)
Definition failing_model_env : Env :=
  {| VAPI_SECRET := None;
     verifyIdToken := verifyIdToken (sample_env None sample_answer);
     generateText := fun _ => Throw (Raised (js "Error: quota exceeded"));
     getRandomInterviewCover := js "/covers/adobe.png";
     toISOString := js "2025-01-01T00:00:00.000Z";
     add_error := fun _ => None;
     canonical_number := fun literal => literal |}.

(** The sample environment with a store that rejects every document. *)
Definition failing_store_env : Env :=
  {| VAPI_SECRET := None;
     verifyIdToken := verifyIdToken (sample_env None sample_answer);
     generateText := generateText (sample_env None sample_answer);
     getRandomInterviewCover := js "/covers/adobe.png";
     toISOString := js "2025-01-01T00:00:00.000Z";
     add_error := fun _ => Some (Raised (js "Error: 14 UNAVAILABLE"));
     canonical_number := fun literal => literal |}.

(** The sample environment with a model that resolves with the given
    value. *)
Definition model_env (llm : JValue) : Env :=
  {| VAPI_SECRET := None;
     verifyIdToken := verifyIdToken (sample_env None sample_answer);
     generateText := fun _ => Normal llm;
     getRandomInterviewCover := js "/covers/adobe.png";
     toISOString := js "2025-01-01T00:00:00.000Z";
     add_error := fun _ => None;
     canonical_number := fun literal => literal |}.

(** A value with a number, a string that needs escapes (a quote, a line
    feed, a surrogate pair and a lone surrogate), and nested containers. *)
Definition sample_value : JValue :=
  JObj [(js "n", JNum (js "-1.5e+21"));
        (js "s", JStr (jsq "a'b" ++ [LF; 55357%N; 56832%N; 55357%N]));
        (js "l", JArr [JNull; JBool false; JObj []])].

(** ** More vocabulary of the statements *)

(** [x] is among the strings seen. *)
Definition seen_in (seen : list jstring) (x : jstring) : bool :=
  existsb (jstring_eqb x) seen.

(** The continuation succeeds with [a] at some position from [s] on. *)
Definition reaches_suffix (A : Type) (k : mstate -> option A) (a : A)
    (s : mstate) : Prop :=
  exists s', k s' = Some a /\ is_suffix (rest s') (rest s).

(** /^C+|C+$/g for a class C: the shape of the two stripping expressions
    of the fallback. *)
Definition strip_re (p : N -> bool) : re :=
  Alt (Seq Bol (Plus (Chr p))) (Seq (Plus (Chr p)) Eol).

(** The leading run of a class. *)
Fixpoint take_while (p : N -> bool) (s : jstring) : jstring :=
  match s with
  | [] => []
  | c :: t => if p c then c :: take_while p t else []
  end.

(** The string without its trailing run of the class. *)
Fixpoint strip_tail (p : N -> bool) (s : jstring) : jstring :=
  match s with
  | [] => []
  | c :: t => if forallb p s then [] else c :: strip_tail p t
  end.

(** The string without its leading and trailing runs of the class. *)
Definition strip_ends (p : N -> bool) (s : jstring) : jstring :=
  rev (drop_while p (rev (drop_while p s))).

(** The piece without its leading numbering: a run of digits followed by
    a run of numbering marks, when both are there. *)
Definition strip_numbering (s : jstring) : jstring :=
  let after := drop_while is_digit s in
  match take_while is_digit s, take_while is_numbering_mark after with
  | _ :: _, _ :: _ => drop_while is_numbering_mark after
  | _, _ => s
  end.

(** Array.prototype.join with a one-unit separator, for strings. *)
Fixpoint join (sep : N) (l : list jstring) : jstring :=
  match l with
  | [] => []
  | [x] => x
  | x :: t => x ++ sep :: join sep t
  end.

(** A string that white space alone makes up. *)
Definition blank (s : jstring) : bool := forallb is_space s.

(** A string of UTF-16 code units. *)
Definition utf16 (s : jstring) : Prop := Forall (fun c => (c < 65536)%N) s.

(** The tokens of the items of an array of strings. *)
Fixpoint string_tokens (qs : list jstring) (first : bool)
  : list JSON.token :=
  match qs with
  | [] => []
  | q :: t =>
      (if first then [] else [JSON.TComma])
      ++ JSON.TString q :: string_tokens t false
  end.

Local Open Scope N_scope.

(** The state of the number lexer after the first code unit of a literal. *)
Definition num_start (c : N) : option JSON.numstate :=
  if c =? 45 then Some JSON.NMinus
  else if c =? 48 then Some JSON.NZero
  else if is_digit c then Some JSON.NInt
  else None.

(** Its state after one more code unit of the literal. *)
Definition num_next (st : JSON.numstate) (c : N) : option JSON.numstate :=
  match st with
  | JSON.NMinus =>
      if c =? 48 then Some JSON.NZero
      else if is_digit c then Some JSON.NInt else None
  | JSON.NZero =>
      if c =? 46 then Some JSON.NDot
      else if JSON.is_exp_mark c then Some JSON.NE else None
  | JSON.NInt =>
      if is_digit c then Some JSON.NInt
      else if c =? 46 then Some JSON.NDot
      else if JSON.is_exp_mark c then Some JSON.NE else None
  | JSON.NDot => if is_digit c then Some JSON.NFrac else None
  | JSON.NFrac =>
      if is_digit c then Some JSON.NFrac
      else if JSON.is_exp_mark c then Some JSON.NE else None
  | JSON.NE =>
      if (c =? 43) || (c =? 45) then Some JSON.NESign
      else if is_digit c then Some JSON.NExp else None
  | JSON.NESign => if is_digit c then Some JSON.NExp else None
  | JSON.NExp => if is_digit c then Some JSON.NExp else None
  end.

Fixpoint num_run (st : JSON.numstate) (t : jstring) : option JSON.numstate :=
  match t with
  | [] => Some st
  | c :: t' =>
      match num_next st c with
      | Some st' => num_run st' t'
      | None => None
      end
  end.

Definition num_complete (st : JSON.numstate) : bool :=
  match st with
  | JSON.NZero | JSON.NInt | JSON.NFrac | JSON.NExp => true
  | _ => false
  end.

(** The text is a number literal of JSON. *)
Definition number_literal (t : jstring) : bool :=
  match t with
  | [] => false
  | c :: t' =>
      match num_start c with
      | Some st =>
          match num_run st t' with
          | Some st' => num_complete st'
          | None => false
          end
      | None => false
      end
  end.

(** What may follow a value inside a JSON text written without white
    space: a comma, a closing bracket or brace, or the end. *)
Definition delimited (more : jstring) : Prop :=
  match more with
  | [] => True
  | c :: _ => c = 44 \/ c = 93 \/ c = 125
  end.

Local Close Scope N_scope.

(** The tokens of the text JSON.stringify writes for a value. *)
Fixpoint tokens_of (v : JValue) : list JSON.token :=
  match v with
  | JUndefined => []
  | JNull => [JSON.TNull]
  | JBool true => [JSON.TTrue]
  | JBool false => [JSON.TFalse]
  | JNum t => [JSON.TNumber t]
  | JStr s => [JSON.TString s]
  | JArr items =>
      JSON.TLBracket
      :: (fix go (l : list JValue) (first : bool) : list JSON.token :=
            match l with
            | [] => []
            | x :: t =>
                (if first then [] else [JSON.TComma])
                ++ tokens_of x ++ go t false
            end) items true
      ++ [JSON.TRBracket]
  | JObj props =>
      JSON.TLBrace
      :: (fix go (l : list (jstring * JValue)) (first : bool)
            : list JSON.token :=
            match l with
            | [] => []
            | (k, x) :: t =>
                (if first then [] else [JSON.TComma])
                ++ JSON.TString k :: JSON.TColon :: tokens_of x ++ go t false
            end) props true
      ++ [JSON.TRBrace]
  end.

Section Plain.
Variable cn : jstring -> jstring.

(** A value JSON can carry: no undefined in it, numbers whose text is a
    literal that the engine's conversion leaves as it is, strings of
    UTF-16 code units, objects whose keys differ. *)
Fixpoint plain (v : JValue) : Prop :=
  match v with
  | JUndefined => False
  | JNull | JBool _ => True
  | JNum t => number_literal t = true /\ cn t = t
  | JStr s => utf16 s
  | JArr items =>
      (fix all (l : list JValue) : Prop :=
         match l with
         | [] => True
         | x :: t => plain x /\ all t
         end) items
  | JObj props =>
      NoDup (map fst props)
      /\ (fix all (l : list (jstring * JValue)) : Prop :=
            match l with
            | [] => True
            | (k, x) :: t => utf16 k /\ plain x /\ all t
            end) props
  end.

End Plain.

Section Induction.
Variable P : JValue -> Prop.
Hypothesis Hundefined : P JUndefined.
Hypothesis Hnull : P JNull.
Hypothesis Hbool : forall b, P (JBool b).
Hypothesis Hnum : forall t, P (JNum t).
Hypothesis Hstr : forall s, P (JStr s).
Hypothesis Harr : forall items, Forall P items -> P (JArr items).
Hypothesis Hobj :
  forall props, Forall (fun kv => P (snd kv)) props -> P (JObj props).

Fixpoint JValue_nested_ind (v : JValue) : P v :=
  match v with
  | JUndefined => Hundefined
  | JNull => Hnull
  | JBool b => Hbool b
  | JNum t => Hnum t
  | JStr s => Hstr s
  | JArr items =>
      Harr ((fix go (l : list JValue) : Forall P l :=
               match l with
               | [] => Forall_nil P
               | x :: t => Forall_cons x (JValue_nested_ind x) (go t)
               end) items)
  | JObj props =>
      Hobj ((fix go (l : list (jstring * JValue))
               : Forall (fun kv => P (snd kv)) l :=
               match l with
               | [] => Forall_nil _
               | kv :: t =>
                   Forall_cons kv (JValue_nested_ind (snd kv)) (go t)
               end) props)
  end.

End Induction.

(** The text between the brackets of an array. *)
Fixpoint array_text (l : list JValue) (first : bool) : jstring :=
  match l with
  | [] => []
  | x :: t =>
      (if first then [] else [44%N])
      ++ match JSON.serialize x with
         | Some sx => sx
         | None => js "null"
         end
      ++ array_text t false
  end.

(** The text between the braces of an object. *)
Fixpoint object_text (l : list (jstring * JValue)) (first : bool) : jstring :=
  match l with
  | [] => []
  | (k, x) :: t =>
      match JSON.serialize x with
      | Some sx =>
          (if first then [] else [44%N])
          ++ JSON.quote k ++ [58%N] ++ sx ++ object_text t false
      | None => object_text t first
      end
  end.

Fixpoint array_tokens (l : list JValue) (first : bool) : list JSON.token :=
  match l with
  | [] => []
  | x :: t =>
      (if first then [] else [JSON.TComma])
      ++ tokens_of x ++ array_tokens t false
  end.

Fixpoint object_tokens (l : list (jstring * JValue)) (first : bool)
  : list JSON.token :=
  match l with
  | [] => []
  | (k, x) :: t =>
      (if first then [] else [JSON.TComma])
      ++ JSON.TString k :: JSON.TColon :: tokens_of x ++ object_tokens t false
  end.

(** What the lexer makes of the text of a value, whatever follows. *)
Definition lexes_back (v : JValue) : Prop :=
  forall more,
    delimited more ->
    exists text,
      JSON.serialize v = Some text
      /\ JSON.lex JSON.LIdle (text ++ more)
         = match JSON.lex JSON.LIdle more with
           | Some toks => Some (tokens_of v ++ toks)
           | None => None
           end.

(** What the parser makes of the tokens of a value where a value may
    stand: the value is delivered to the enclosing frame. *)
Definition parses_back (cn : jstring -> jstring) (v : JValue) : Prop :=
  forall stack e rest,
    e = JSON.EValue \/ e = JSON.EValueOrEnd ->
    JSON.parse_tokens cn stack e (tokens_of v ++ rest)
    = match JSON.deliver v stack with
      | Some (stack', e') => JSON.parse_tokens cn stack' e' rest
      | None => None
      end.

(** ** JSON texts of arrays of strings *)

Local Open Scope N_scope.

(** A hexadecimal digit as it is written: its value and its case. *)
Definition hex_unit (d : N * bool) : N :=
  if fst d <? 10 then 48 + fst d
  else if snd d then 55 + fst d else 87 + fst d.

(** A character of a JSON string literal as it is written: a code unit
    standing for itself, a backslash with one of the eight letters, or
    backslash u with four hexadecimal digits. *)
Inductive written_char : Type :=
| WUnit (c : N)
| WEscape (c : N)
| WUnicode (d1 d2 d3 d4 : N * bool).

(** What the letter that follows a backslash stands for: the double
    quote, the backslash and the slash for themselves, b f n r t for the
    control characters. *)
Definition escape_value (c : N) : option N :=
  if (c =? 34) || (c =? 92) || (c =? 47) then Some c
  else if c =? 98 then Some 8
  else if c =? 102 then Some 12
  else if c =? 110 then Some 10
  else if c =? 114 then Some 13
  else if c =? 116 then Some 9
  else None.

(** The grammar's conditions: no control character, double quote or
    backslash stands for itself; the letter of an escape is one of the
    eight; a hexadecimal digit is below sixteen. *)
Definition well_written (w : written_char) : Prop :=
  match w with
  | WUnit c => 32 <= c /\ c <> 34 /\ c <> 92
  | WEscape c => escape_value c <> None
  | WUnicode d1 d2 d3 d4 =>
      fst d1 < 16 /\ fst d2 < 16 /\ fst d3 < 16 /\ fst d4 < 16
  end.

(** The code units that write the character. *)
Definition written_text (w : written_char) : jstring :=
  match w with
  | WUnit c => [c]
  | WEscape c => [92; c]
  | WUnicode d1 d2 d3 d4 =>
      [92; 117; hex_unit d1; hex_unit d2; hex_unit d3; hex_unit d4]
  end.

(** The code unit the written character denotes. *)
Definition written_value (w : written_char) : N :=
  match w with
  | WUnit c => c
  | WEscape c => match escape_value c with Some v => v | None => c end
  | WUnicode d1 d2 d3 d4 =>
      ((fst d1 * 16 + fst d2) * 16 + fst d3) * 16 + fst d4
  end.

(** A string literal: the written characters between double quotes. *)
Definition literal_text (ws : list written_char) : jstring :=
  [34] ++ List.concat (map written_text ws) ++ [34].

(** The string the literal denotes. *)
Definition literal_value (ws : list written_char) : jstring :=
  map written_value ws.

(** White space as JSON has it: tab, line feed, carriage return, space. *)
Definition json_space (w : jstring) : Prop :=
  Forall (fun c => JSON.is_json_space c = true) w.

(** An element of an array text: a string literal with the white space
    written before and after it. *)
Record array_element : Type :=
  { space_before : jstring;
    string_literal : list written_char;
    space_after : jstring }.

(** The element follows the grammar. *)
Definition well_formed_element (e : array_element) : Prop :=
  json_space (space_before e) /\ Forall well_written (string_literal e)
  /\ json_space (space_after e).

Fixpoint elements_text (es : list array_element) (first : bool) : jstring :=
  match es with
  | [] => []
  | e :: t =>
      (if first then [] else [44])
      ++ space_before e ++ literal_text (string_literal e) ++ space_after e
      ++ elements_text t false
  end.

(** The text of an array of strings: white space, the opening bracket,
    white space, the elements with commas between them, the closing
    bracket, white space. *)
Definition string_array_text (lead gap : jstring) (es : list array_element)
    (trail : jstring) : jstring :=
  lead ++ [91] ++ gap ++ elements_text es true ++ [93] ++ trail.

(** The prompt's own example of the format: three quoted strings with a
    space behind each comma; here with escapes, a line feed in front and
    padding inside the first string. *)
Definition prompt_format_elements : list array_element :=
  [ {| space_before := [];
       string_literal :=
         map WUnit (js " Tell me about ") ++ [WEscape 34]
         ++ map WUnit (js "Go") ++ [WEscape 34];
       space_after := [] |};
    {| space_before := js " ";
       string_literal := map WUnit (js "  ");
       space_after := [] |};
    {| space_before := js " ";
       string_literal :=
         map WUnit (js "Why ")
         ++ [WUnicode (4, false) (7, false) (6, false) (15, true); WUnit 63];
       space_after := js " " |} ].

Local Close Scope N_scope.

(** ** Responses of the third shape *)

(** What JSON.stringify keeps of a value: a property that is undefined is
    left out, an item of an array that is undefined and a number that is
    not finite are written null. *)
Fixpoint as_json (v : JValue) : JValue :=
  match v with
  | JNum t => if JSON.is_finite_text t then JNum t else JNull
  | JArr items =>
      JArr ((fix go (l : list JValue) : list JValue :=
               match l with
               | [] => []
               | x :: t =>
                   match x with
                   | JUndefined => JNull
                   | _ => as_json x
                   end :: go t
               end) items)
  | JObj props =>
      JObj ((fix go (l : list (jstring * JValue))
               : list (jstring * JValue) :=
               match l with
               | [] => []
               | (k, x) :: t =>
                   match x with
                   | JUndefined => go t
                   | _ => (k, as_json x) :: go t
                   end
               end) props)
  | _ => v
  end.

(** What it keeps of an item of an array. *)
Definition item_as_json (x : JValue) : JValue :=
  match x with
  | JUndefined => JNull
  | _ => as_json x
  end.

(** What it keeps of the properties of an object. *)
Fixpoint props_as_json (l : list (jstring * JValue))
  : list (jstring * JValue) :=
  match l with
  | [] => []
  | (k, x) :: t =>
      match x with
      | JUndefined => props_as_json t
      | _ => (k, as_json x) :: props_as_json t
      end
  end.

Section WellFormed.
Variable cn : jstring -> jstring.

(** A value as the engine holds it: a finite number carries its canonical
    text, a literal that the conversion leaves as it is; strings and keys
    are made of UTF-16 code units; the keys of an object differ. Undefined
    may stand anywhere. *)
Fixpoint well_formed (v : JValue) : Prop :=
  match v with
  | JNum t =>
      JSON.is_finite_text t = true -> number_literal t = true /\ cn t = t
  | JStr s => utf16 s
  | JArr items =>
      (fix all (l : list JValue) : Prop :=
         match l with
         | [] => True
         | x :: t => well_formed x /\ all t
         end) items
  | JObj props =>
      NoDup (map fst props)
      /\ (fix all (l : list (jstring * JValue)) : Prop :=
            match l with
            | [] => True
            | (k, x) :: t => utf16 k /\ well_formed x /\ all t
            end) props
  | _ => True
  end.

End WellFormed.

(** The third branch of step 4 is taken: no text that is a string, and no
    output array whose first item has a content. *)
Definition unrecognized (llm : JValue) : bool :=
  negb (has_prop (js "text") llm && is_string (get llm (js "text")))
  && negb (truthy (get llm (js "output")) && is_array (get llm (js "output"))
           && truthy (get_opt (first_item (items_of (get llm (js "output"))))
                        (js "content"))).

(** A response of the third shape that JSON cannot carry as it is: beside
    its questions it has an undefined property, a number that is not
    finite and an output that is no array. *)
Definition loose_response : JValue :=
  JObj [(js "usage", JUndefined);
        (js "questions", JArr [JStr (js " Why Go? "); JStr (js "Why Rust?")]);
        (js "score", JNum (js "NaN"));
        (js "output", JStr (js "none"));
        (js "steps", JArr [JUndefined; JBool true])].

(** ** The conversion of the body's fields to text *)

(** The conversion to a string meets no object that shadows toString: a
    JSON value is never callable, so such an object has no primitive
    value. *)
Fixpoint convertible (v : JValue) : bool :=
  match v with
  | JArr items =>
      (fix all (l : list JValue) : bool :=
         match l with
         | [] => true
         | x :: t => convertible x && all t
         end) items
  | JObj props =>
      match lookup (js "toString") props with
      | Some _ => false
      | None => true
      end
  | _ => true
  end.

(** Array.prototype.join with a comma, as ToString runs it on the items
    of an array. *)
Fixpoint join_items (l : list JValue) (first : bool) : Completion jstring :=
  match l with
  | [] => Normal []
  | x :: t =>
      sx <- match x with
            | JUndefined | JNull => Normal []
            | _ => ToString x
            end ;;
      st <- join_items t false ;;
      Normal ((if first then [] else [COMMA]) ++ sx ++ st)
  end.

(** A response of the second shape whose text is a number. *)
Definition nested_number_response : JValue :=
  JObj [(js "output",
         JArr [JObj [(js "content",
                      JArr [JObj [(js "text", JNum (js "5"))]])]])].

(** The fields the handler takes from the sample body. *)
Definition sample_fields : Body.t :=
  {| Body.type := JStr (js "technical");
     Body.role := JStr (js "Backend");
     Body.level := JStr (js "Senior");
     Body.techstack := JStr (js "Go,Rust");
     Body.amount := JNum (js "2");
     Body.userid := JStr (js "uid-from-body") |}.

(** A body whose role is an object with a toString property. *)
Definition shadowing_body : jstring :=
  jsq "{'role':{'toString':1},'userid':'u'}".

(** ** firebase/admin.ts *)
Module Admin.

(** The three variables of process.env the module reads; None where a
    variable is not set. *)
Record ProcessEnv : Type := {
  FIREBASE_PRIVATE_KEY : option jstring;
  FIREBASE_PROJECT_ID : option jstring;
  FIREBASE_CLIENT_EMAIL : option jstring
}.

(** The serviceAccount object: the snake_case fields and their camelCase
    aliases. *)
Record ServiceAccount : Type := {
  project_id : option jstring;
  client_email : option jstring;
  private_key : jstring;
  projectId : option jstring;
  clientEmail : option jstring;
  privateKey : jstring
}.

(** /\\n/g: a backslash followed by the letter n *)
Definition escaped_newline_re : re := Seq (lit 92) (lit 110).

(** rawPrivateKey.replace(/\\n/g, "\n"), for process.env.FIREBASE_PRIVATE_KEY
    or the empty string *)
Definition normalize_private_key (raw : option jstring) : jstring :=
  replace_all (match raw with Some k => k | None => [] end)
    escaped_newline_re [LF].

Definition service_account (env : ProcessEnv) : ServiceAccount :=
  let privateKey := normalize_private_key (FIREBASE_PRIVATE_KEY env) in
  {| project_id := FIREBASE_PROJECT_ID env;
     client_email := FIREBASE_CLIENT_EMAIL env;
     private_key := privateKey;
     projectId := FIREBASE_PROJECT_ID env;
     clientEmail := FIREBASE_CLIENT_EMAIL env;
     privateKey := privateKey |}.

Section Init.
(** The SDK: the credential cert makes of a service account (it may
    throw), and the registry of initialized apps, each known by its
    credential, that getApps reads and initializeApp extends. *)
Variable Credential : Type.
Variable cert : ServiceAccount -> Completion Credential.

(** initFirebaseAdmin(), as far as the registry goes: the apps after the
    call, and the throw of cert if there was one. *)
Definition initFirebaseAdmin (env : ProcessEnv) (apps : list Credential)
  : Completion unit * list Credential :=
  match apps with
  | [] =>
      match cert (service_account env) with
      | Normal credential => (Normal tt, [credential])
      | Throw e => (Throw e, [])
      end
  | _ => (Normal tt, apps)
  end.

End Init.

(** Every backslash-n pair turned into a line feed, left to right. *)
Fixpoint unescape (s : jstring) : jstring :=
  match s with
  | [] => []
  | c :: t =>
      match t with
      | d :: t' =>
          if N.eqb c 92 && N.eqb d 110 then LF :: unescape t'
          else c :: unescape t
      | [] => [c]
      end
  end.

(** A backslash directly followed by the letter n occurs in the string. *)
Fixpoint has_escaped_newline (s : jstring) : bool :=
  match s with
  | [] => false
  | c :: t =>
      match t with
      | d :: _ => (N.eqb c 92 && N.eqb d 110) || has_escaped_newline t
      | [] => false
      end
  end.

End Admin.

(** * Properties *)

(** ** Strings *)

Lemma jstring_eqb_eq (a b : jstring) : jstring_eqb a b = true <-> a = b.
Proof.
  revert b. induction a as [|x a IH]; intros [|y b]; simpl;
    try (split; congruence).
  rewrite andb_true_iff, N.eqb_eq, IH. split.
  - intros [-> ->]. reflexivity.
  - intros H. injection H as -> ->. split; reflexivity.
Qed.

Lemma jstring_eqb_refl (a : jstring) : jstring_eqb a a = true.
Proof. apply jstring_eqb_eq. reflexivity. Qed.

Lemma jstring_eqb_neq (a b : jstring) : a <> b -> jstring_eqb a b = false.
Proof.
  intros H. destruct (jstring_eqb a b) eqn:E; [|reflexivity].
  apply jstring_eqb_eq in E. contradiction.
Qed.

Lemma nonempty_true (s : jstring) : nonempty s = true <-> s <> [].
Proof. destruct s; simpl; split; congruence. Qed.

Section DropWhile.
Variable p : N -> bool.

Lemma drop_while_head (s : jstring) (c : N) (t : jstring) :
  drop_while p s = c :: t -> p c = false.
Proof.
  induction s as [|x s IH]; simpl; [discriminate|].
  destruct (p x) eqn:E; [exact IH|].
  intros H. injection H as -> _. exact E.
Qed.

Lemma drop_while_fixed (c : N) (t : jstring) :
  p c = false -> drop_while p (c :: t) = c :: t.
Proof. intros H. simpl. rewrite H. reflexivity. Qed.

Lemma drop_while_suffix (s : jstring) :
  exists pre, s = pre ++ drop_while p s.
Proof.
  induction s as [|x s [pre IH]]; simpl.
  - exists []. reflexivity.
  - destruct (p x).
    + exists (x :: pre). simpl. f_equal. exact IH.
    + exists []. reflexivity.
Qed.

End DropWhile.

(** trim strips all it can: a trimmed string stays as it is. *)
Lemma trim_idempotent (s : jstring) : trim (trim s) = trim s.
Proof.
  unfold trim.
  set (a := drop_while is_space s).
  set (b := drop_while is_space (rev a)).
  assert (Ha : drop_while is_space (rev b) = rev b).
  { destruct (rev b) as [|x r] eqn:Er; [reflexivity|].
    apply drop_while_fixed.
    destruct (drop_while_suffix is_space (rev a)) as [pre Hpre].
    fold b in Hpre.
    assert (Hrev : a = rev b ++ rev pre).
    { rewrite <- rev_app_distr, <- Hpre, rev_involutive. reflexivity. }
    rewrite Er in Hrev. simpl in Hrev.
    apply (drop_while_head is_space s (t := r ++ rev pre)).
    exact Hrev. }
  rewrite Ha, rev_involutive.
  assert (Hb : drop_while is_space b = b).
  { destruct b as [|x r] eqn:Eb; [reflexivity|].
    apply drop_while_fixed.
    apply (drop_while_head is_space (rev a) (t := r)). exact Eb. }
  rewrite Hb. reflexivity.
Qed.

(** What trim returns has no white space at either end. *)
Lemma trim_trimmed (s : jstring) : trimmed (trim s).
Proof.
  unfold trimmed, trim.
  set (a := drop_while is_space s).
  set (b := drop_while is_space (rev a)).
  rewrite rev_involutive. split.
  - destruct (rev b) as [|x r] eqn:Er; [reflexivity|]. simpl.
    destruct (drop_while_suffix is_space (rev a)) as [pre Hpre].
    fold b in Hpre.
    assert (Hrev : a = rev b ++ rev pre).
    { rewrite <- rev_app_distr, <- Hpre, rev_involutive. reflexivity. }
    rewrite Er in Hrev. simpl in Hrev.
    apply (drop_while_head is_space s (t := r ++ rev pre)).
    exact Hrev.
  - destruct b as [|x r] eqn:Eb; [reflexivity|]. simpl.
    apply (drop_while_head is_space (rev a) (t := r)). exact Eb.
Qed.

Lemma set_insertion_order_In (xs seen : list jstring) (x : jstring) :
  In x (set_insertion_order seen xs) -> In x xs.
Proof.
  revert seen. induction xs as [|y xs IH]; intros seen; simpl; [tauto|].
  destruct (existsb (jstring_eqb y) seen).
  - intros H. right. exact (IH _ H).
  - intros [H|H]; [left; exact H | right; exact (IH _ H)].
Qed.

Lemma unique_In (xs : list jstring) (x : jstring) :
  In x (unique xs) -> In x xs.
Proof. apply set_insertion_order_In. Qed.

(** ** The questions array *)

Lemma map_string_trim_trimmed (items : list JValue) (strs : list jstring) :
  map_throwing string_trim items = Normal strs -> Forall trimmed strs.
Proof.
  revert strs. induction items as [|x items IH]; simpl; intros strs H.
  - injection H as <-. constructor.
  - unfold string_trim at 1 in H.
    destruct (ToString x) as [sx|]; simpl in H; [|discriminate].
    destruct (map_throwing string_trim items) as [ys|]; simpl in H;
      [|discriminate].
    injection H as <-. constructor.
    + apply trim_trimmed.
    + apply IH. reflexivity.
Qed.

Lemma filter_nonempty_usable (strs : list jstring) :
  Forall trimmed strs -> Forall usable (filter nonempty strs).
Proof.
  intros H. apply Forall_forall. intros q Hq.
  apply filter_In in Hq. destruct Hq as [Hin Hne]. split.
  - apply nonempty_true. exact Hne.
  - rewrite Forall_forall in H. apply H. exact Hin.
Qed.

Lemma strict_parse_usable (cn : jstring -> jstring) (qt : JValue)
    (qs : list jstring) :
  strict_parse cn qt = Normal qs -> Forall usable qs.
Proof.
  unfold strict_parse. intros H.
  destruct (ToString qt) as [text|]; simpl in H; [|discriminate].
  destruct (JSON.parse cn text) as [parsed|]; simpl in H; [|discriminate].
  destruct (is_array parsed).
  - destruct (map_throwing string_trim (items_of parsed)) as [strs|] eqn:E;
      simpl in H; [|discriminate].
    injection H as <-. apply filter_nonempty_usable.
    exact (map_string_trim_trimmed _ E).
  - destruct (truthy parsed && truthy (get parsed (js "questions"))
              && is_array (get parsed (js "questions"))); [|discriminate].
    destruct (map_throwing string_trim
                (items_of (get parsed (js "questions")))) as [strs|] eqn:E;
      simpl in H; [|discriminate].
    injection H as <-. apply filter_nonempty_usable.
    exact (map_string_trim_trimmed _ E).
Qed.

Lemma fallback_parse_usable (qt : JValue) (qs : list jstring) :
  fallback_parse qt = Normal qs -> Forall usable qs.
Proof.
  unfold fallback_parse. destruct qt; try discriminate.
  intros H. injection H as <-.
  apply Forall_forall. intros q Hq.
  apply unique_In, filter_In in Hq. destruct Hq as [Hin Hne]. split.
  - apply nonempty_true. exact Hne.
  - apply in_map_iff in Hin. destruct Hin as [piece [<- _]].
    unfold clean_piece. apply trim_trimmed.
Qed.

(** Whatever the text, every question that comes out of step 5 is a
    non-empty trimmed string. *)
Lemma parse_questions_usable (cn : jstring -> jstring) (qt : JValue)
    (qs : list jstring) :
  parse_questions cn qt = Normal qs -> Forall usable qs.
Proof.
  unfold parse_questions. destruct (truthy qt).
  - destruct (strict_parse cn qt) as [qs'|e] eqn:E; simpl; intros H.
    + injection H as <-. exact (strict_parse_usable _ _ E).
    + exact (fallback_parse_usable _ H).
  - intros H. injection H as <-. constructor.
Qed.

(** ** The shape of a call of POST *)

Lemma request_body_normal (env : Env) (req : Request) :
  try_catch (request_json env req) (fun _ => Normal (JObj []))
  = Normal (body_of env req).
Proof.
  unfold body_of. destruct (request_json env req); reflexivity.
Qed.

Lemma app_one_neq {A : Type} (l : list A) (x : A) : l ++ [x] <> l.
Proof.
  intros H. apply (f_equal (@List.length A)) in H.
  rewrite length_app in H. simpl in H. lia.
Qed.

(** A call either leaves the collection as it was, or it went through
    every step and added the one document built from them. *)
Lemma POST_store (env : Env) (req : Request) (db : Store) :
  snd (POST env req db) = db
  \/ exists b prompt q qs stack,
       destructure (body_of env req) = Normal b
       /\ secret_refused env req = false
       /\ build_prompt b = Normal prompt
       /\ ask_model env prompt = Normal (q :: qs)
       /\ techstack_list (Body.techstack b) = Normal stack
       /\ POST env req db
          = (Responded ok, db ++ [interview_of env req b (q :: qs) stack]).
Proof.
  unfold POST. rewrite request_body_normal.
  destruct (destructure (body_of env req)) as [b|e] eqn:Eb; [|left; reflexivity].
  unfold POST_try, before_model.
  destruct (secret_refused env req) eqn:Es; [left; reflexivity|].
  destruct (build_prompt b) as [prompt|] eqn:Ep; simpl; [|left; reflexivity].
  destruct (ask_model env prompt) as [[|q qs]|] eqn:Ea;
    try (left; reflexivity).
  destruct (techstack_list (Body.techstack b)) as [stack|] eqn:Et;
    [|left; reflexivity].
  fold (interview_of env req b (q :: qs) stack).
  destruct (add_error env _); [left; reflexivity|].
  right. exists b, prompt, q, qs, stack. repeat split; assumption || reflexivity.
Qed.

Lemma POST_inserted (env : Env) (req : Request) (db : Store) (r : Interview) :
  snd (POST env req db) = db ++ [r] ->
  exists b prompt q qs stack,
    destructure (body_of env req) = Normal b
    /\ secret_refused env req = false
    /\ build_prompt b = Normal prompt
    /\ ask_model env prompt = Normal (q :: qs)
    /\ r = interview_of env req b (q :: qs) stack.
Proof.
  intros H. destruct (POST_store env req db) as [Hsame|Hadd].
  - rewrite Hsame in H. symmetry in H. exfalso. exact (@app_one_neq _ _ _ H).
  - destruct Hadd as (b & prompt & q & qs & stack & Hb & Hs & Hp & Ha & _ & HP).
    rewrite HP in H. simpl in H. apply app_inv_head in H.
    injection H as H. exists b, prompt, q, qs, stack.
    repeat split; try assumption. symmetry. exact H.
Qed.

(** ** The error paths *)

(** Once the body has been destructured, a refused secret ends the call
    with the 401 response and nothing is stored. *)
Lemma POST_unauthorized (env : Env) (req : Request) (db : Store) (b : Body.t) :
  destructure (body_of env req) = Normal b ->
  secret_refused env req = true ->
  POST env req db = (Responded unauthorized, db).
Proof.
  intros Hb Hs. unfold POST. rewrite request_body_normal, Hb.
  unfold POST_try, before_model. rewrite Hs. reflexivity.
Qed.

(** A configured secret refuses every request whose header is absent or
    different. *)
Lemma secret_refused_mismatch (env : Env) (req : Request) (secret : jstring) :
  VAPI_SECRET env = Some secret ->
  secret <> [] ->
  x_vapi_secret req <> Some secret ->
  secret_refused env req = true.
Proof.
  intros Hs Hne Hh. unfold secret_refused. rewrite Hs.
  destruct secret as [|c secret]; [contradiction|]. simpl.
  destruct (x_vapi_secret req) as [h|]; simpl; [|reflexivity].
  rewrite jstring_eqb_neq; [apply orb_true_r|]. congruence.
Qed.

(** C1. When the request has reached the model (the body destructured,
    the secret check passed, the prompt built, the call answered) and step 5
    ends with an empty questions array, the handler responds with status
    502 and the body success false, error LLM did not return questions,
    and the collection is left as it was. *)
Theorem POST_no_questions_502 (env : Env) (req : Request) (db : Store)
    (b : Body.t) (prompt : jstring) (llm : JValue) :
  destructure (body_of env req) = Normal b ->
  secret_refused env req = false ->
  build_prompt b = Normal prompt ->
  generateText env prompt = Normal llm ->
  parse_questions (canonical_number env) (extract_text llm) = Normal [] ->
  POST env req db
  = (Responded
       {| status := 502;
          json := JObj [(js "success", JBool false);
                        (js "error",
                         JStr (js "LLM did not return questions"))] |},
     db).
Proof.
  intros Hb Hs Hp Hg Hq. unfold POST. rewrite request_body_normal, Hb.
  unfold POST_try, before_model. rewrite Hs, Hp. simpl.
  unfold ask_model. rewrite Hg. simpl. rewrite Hq. reflexivity.
Qed.

Lemma POST_no_questions_502_witness :
  POST (sample_env None (js "[]")) (sample_request sample_body None None) []
  = (Responded no_questions, []).
Proof.
  eapply (@POST_no_questions_502 (sample_env None (js "[]"))
            (sample_request sample_body None None) []); reflexivity.
Defined.

(** C8. A call of POST leaves the collection as it was or adds exactly
    one document, and the document added has finalized true and a
    questions list that is not empty and holds only non-empty trimmed
    strings. *)
Theorem POST_inserts_only_valid_records (env : Env) (req : Request)
    (db : Store) :
  snd (POST env req db) = db
  \/ exists r,
       snd (POST env req db) = db ++ [r]
       /\ finalized r = true
       /\ questions r <> []
       /\ Forall usable (questions r).
Proof.
  destruct (POST_store env req db) as [H|H]; [left; exact H|right].
  destruct H as (b & prompt & q & qs & stack & _ & _ & _ & Ha & _ & HP).
  exists (interview_of env req b (q :: qs) stack). rewrite HP. simpl.
  repeat split; try discriminate.
  unfold ask_model in Ha.
  destruct (generateText env prompt) as [llm|]; simpl in Ha; [|discriminate].
  exact (parse_questions_usable _ _ Ha).
Qed.

(** The second case does occur. *)
Example POST_inserts_sample :
  exists r,
    POST (sample_env None sample_answer)
      (sample_request sample_body None None) []
    = (Responded ok, [r])
    /\ questions r = [js "What is Go?"; js "What is Rust?"]
    /\ techstack r = [js "Go"; js "Rust"].
Proof. eexists. repeat split. Qed.

(** C10. With VAPI_SECRET set to the empty string the secret check
    refuses nothing, whatever the x-vapi-secret header, and no response of
    the handler has status 401. *)
Theorem POST_empty_secret_never_401 (env : Env) (req : Request) (db : Store) :
  VAPI_SECRET env = Some [] ->
  secret_refused env req = false
  /\ forall r, fst (POST env req db) = Responded r -> status r <> 401.
Proof.
  intros Hs.
  assert (Hr : secret_refused env req = false).
  { unfold secret_refused. rewrite Hs. reflexivity. }
  split; [exact Hr|]. intros r. unfold POST. rewrite request_body_normal.
  destruct (destructure (body_of env req)) as [b|]; [|discriminate].
  unfold POST_try, before_model. rewrite Hr.
  destruct (build_prompt b) as [prompt|]; simpl;
    [|intros H; injection H as <-; discriminate].
  destruct (ask_model env prompt) as [[|q qs]|];
    try (intros H; injection H as <-; discriminate).
  destruct (techstack_list (Body.techstack b));
    [|intros H; injection H as <-; discriminate].
  destruct (add_error env _); intros H; injection H as <-; discriminate.
Qed.

Lemma POST_empty_secret_never_401_witness :
  secret_refused (sample_env (Some []) sample_answer)
    (sample_request sample_body (Some (js "anything")) None) = false
  /\ status ok <> 401.
Proof.
  destruct (@POST_empty_secret_never_401 (sample_env (Some []) sample_answer)
              (sample_request sample_body (Some (js "anything")) None) []
              eq_refl) as [Hr H].
  split; [exact Hr|]. apply H. reflexivity.
Defined.

(** ** The body that is the JSON text null

    request.json() resolves with null, the catch that supplies the empty
    object does not run, and the destructuring, which stands before the try
    block, throws. *)

(** C9 (the failing input). Whatever the environment and the headers, a
    request whose body is the text null makes the handler throw a
    TypeError while it destructures the body, before the secret check, the
    token verification and the model call; the promise is rejected. *)
Theorem POST_null_body_throws (env : Env) (secret auth : option jstring)
    (db : Store) :
  destructure (body_of env (sample_request (js "null") secret auth))
  = Throw (TypeError (js "Cannot destructure property 'type' of 'body'"))
  /\ POST env (sample_request (js "null") secret auth) db
     = (Rejected (TypeError (js "Cannot destructure property 'type' of 'body'")),
        db).
Proof. split; reflexivity. Qed.

(** C4 (the failing input). With VAPI_SECRET configured and no
    x-vapi-secret header, the request whose body is the text null is not
    answered with status 401: the handler throws before the check. *)
Theorem POST_null_body_no_401 :
  secret_refused (sample_env (Some (js "s3cret")) sample_answer)
    (sample_request (js "null") None None) = true
  /\ POST (sample_env (Some (js "s3cret")) sample_answer)
       (sample_request (js "null") None None) []
     = (Rejected (TypeError (js "Cannot destructure property 'type' of 'body'")),
        []).
Proof. split; reflexivity. Qed.

(** Every other body, one that is not JSON at all included, is
    destructured without a throw. *)
Lemma destructure_normal (body : JValue) :
  body <> JNull -> body <> JUndefined ->
  exists b, destructure body = Normal b.
Proof.
  intros H1 H2. destruct body; try contradiction; eexists; reflexivity.
Qed.

Lemma body_of_malformed (env : Env) (req : Request) (e : JError) :
  request_json env req = Throw e -> body_of env req = JObj [].
Proof. intros H. unfold body_of. rewrite H. reflexivity. Qed.

(** For a body that is not null, fields that are missing flow through as
    undefined and the handler gets as far as the model call or the 401
    response without a throw. *)
Lemma before_model_missing_fields (env : Env) (req : Request) (b : Body.t) :
  destructure (body_of env req) = Normal b ->
  get (body_of env req) (js "role") = JUndefined ->
  get (body_of env req) (js "level") = JUndefined ->
  get (body_of env req) (js "techstack") = JUndefined ->
  get (body_of env req) (js "type") = JUndefined ->
  get (body_of env req) (js "amount") = JUndefined ->
  exists out, before_model env req b = Normal out.
Proof.
  intros Hb Hr Hl Ht Hy Ha. unfold before_model.
  destruct (secret_refused env req); [eexists; reflexivity|].
  assert (Hp : exists p, build_prompt b = Normal p).
  { unfold destructure in Hb.
    destruct (body_of env req); try discriminate;
      injection Hb as <-; unfold build_prompt; simpl;
      try (eexists; reflexivity);
      simpl in Hr, Hl, Ht, Hy, Ha; rewrite Hr, Hl, Ht, Hy, Ha; simpl;
      eexists; reflexivity. }
  destruct Hp as [p Hp]. rewrite Hp. eexists. reflexivity.
Qed.

(** ** The Authorization header *)

(** A starred class runs to the end of a subject made of the class. *)
Lemma star_loop_all (A : Type) (p : N -> bool) (k : mstate -> option A)
    (cs : list jstring) (a : A) (t : jstring) :
  Forall (fun c => p c = true) t ->
  forall n i,
    List.length t < n ->
    k (MState (i + List.length t) [] cs) = Some a ->
    star_loop (m (A:=A) (Chr p)) n (MState i t cs) k = Some a.
Proof.
  induction 1 as [|c t Hc Ht IH]; intros n i Hn Hk.
  - simpl in Hk. rewrite Nat.add_0_r in Hk.
    destruct n; simpl; exact Hk.
  - destruct n as [|n]; [simpl in Hn; lia|].
    simpl. rewrite Hc.
    assert (Hlt : (i <? S i) = true) by (apply Nat.ltb_lt; lia).
    rewrite Hlt. rewrite IH; [reflexivity| simpl in Hn; lia |].
    simpl in Hk. rewrite Nat.add_succ_r in Hk. exact Hk.
Qed.

(** The header Bearer, a space and a non-empty token matches, and the
    group captures the token. *)
Lemma bearer_match (tok : jstring) :
  tok <> [] ->
  header_text tok ->
  String_match (js "Bearer " ++ tok) bearer_re = Some [tok].
Proof.
  intros Hne Hdot. destruct tok as [|c tok]; [contradiction|].
  inversion Hdot as [|? ? Hc Ht]; subst.
  unfold String_match.
  replace (js "Bearer " ++ c :: tok)
    with (66 :: 101 :: 97 :: 114 :: 101 :: 114 :: 32 :: c :: tok)%N
    by reflexivity.
  unfold exec_from, match_at, bearer_re.
  cbn -[star_loop firstn Nat.sub].
  rewrite Hc.
  match goal with
  | |- context [star_loop ?f ?n ?s ?k] =>
      assert (E : star_loop f n s k
                  = Some (MState (8 + List.length tok) [] [c :: tok]))
  end.
  { apply (@star_loop_all mstate is_dot); [exact Ht | lia |].
    cbn -[firstn Nat.sub].
    do 3 f_equal.
    assert (Hn : forall n, S (S (S (S (S (S (S (S n))))))) - 7 = S n)
      by (intros; lia).
    rewrite Hn. exact (firstn_all (c :: tok)). }
  rewrite E. reflexivity.
Qed.

Lemma resolve_user_verified (env : Env) (req : Request) (userid : JValue)
    (tok uid : jstring) (decoded : JValue) :
  authorization req = Some (js "Bearer " ++ tok) ->
  tok <> [] ->
  header_text tok ->
  verifyIdToken env tok = Normal decoded ->
  get decoded (js "uid") = JStr uid ->
  uid <> [] ->
  resolve_user env req userid = JStr uid.
Proof.
  intros Ha Hne Hd Hv Hu Hn. unfold resolve_user. rewrite Ha. cbv beta iota delta [or_empty].
  rewrite (bearer_match Hne Hd). simpl nth. rewrite Hv, Hu.
  assert (Ht : truthy decoded = true).
  { destruct decoded; simpl in Hu; try discriminate. reflexivity. }
  rewrite Ht. destruct uid; [contradiction|]. reflexivity.
Qed.

Lemma resolve_user_rejected (env : Env) (req : Request) (userid : JValue)
    (tok : jstring) (e : JError) :
  authorization req = Some (js "Bearer " ++ tok) ->
  tok <> [] ->
  header_text tok ->
  verifyIdToken env tok = Throw e ->
  resolve_user env req userid = userid.
Proof.
  intros Ha Hne Hd Hv. unfold resolve_user. rewrite Ha. cbv beta iota delta [or_empty].
  rewrite (bearer_match Hne Hd). simpl nth. rewrite Hv. reflexivity.
Qed.

(** The guard of step 2: a decoded token without a usable uid leaves the
    body's userid in place. *)
Lemma resolve_user_no_uid (env : Env) (req : Request) (userid : JValue)
    (tok : jstring) (decoded : JValue) :
  authorization req = Some (js "Bearer " ++ tok) ->
  tok <> [] ->
  header_text tok ->
  verifyIdToken env tok = Normal decoded ->
  truthy (get decoded (js "uid")) = false ->
  resolve_user env req userid = userid.
Proof.
  intros Ha Hne Hd Hv Hu. unfold resolve_user. rewrite Ha.
  cbv beta iota delta [or_empty].
  rewrite (bearer_match Hne Hd). simpl nth. rewrite Hv, Hu.
  rewrite andb_false_r. reflexivity.
Qed.

Lemma resolve_user_no_header (env : Env) (req : Request) (userid : JValue) :
  authorization req = None -> resolve_user env req userid = userid.
Proof. intros Ha. unfold resolve_user. rewrite Ha. reflexivity. Qed.

Lemma destructure_userid (body : JValue) (b : Body.t) :
  destructure body = Normal b -> Body.userid b = get body (js "userid").
Proof.
  unfold destructure.
  destruct body; try discriminate; intros H; injection H as <-; reflexivity.
Qed.

(** C2. When the Authorization header is Bearer and a token, the verifier
    resolves for that token and the decoded token carries a subject
    identifier (a non-empty uid), the document the call adds has that uid
    as its userId, whatever userid the body supplies. *)
Theorem POST_persists_verified_uid (env : Env) (req : Request) (db : Store)
    (tok uid : jstring) (decoded : JValue) (r : Interview) :
  authorization req = Some (js "Bearer " ++ tok) ->
  tok <> [] ->
  header_text tok ->
  verifyIdToken env tok = Normal decoded ->
  get decoded (js "uid") = JStr uid ->
  uid <> [] ->
  snd (POST env req db) = db ++ [r] ->
  userId r = JStr uid.
Proof.
  intros Ha Hne Hd Hv Hu Hn H.
  destruct (@POST_inserted _ _ _ _ H)
    as (b & prompt & q & qs & stack & _ & _ & _ & _ & ->).
  simpl. eapply resolve_user_verified; eassumption.
Qed.

Lemma POST_persists_verified_uid_witness :
  get (body_of (sample_env None sample_answer)
         (sample_request sample_body None (Some (js "Bearer good-token"))))
      (js "userid") = JStr (js "uid-from-body")
  /\ option_map userId
       (hd_error
          (snd (POST (sample_env None sample_answer)
                  (sample_request sample_body None
                     (Some (js "Bearer good-token"))) [])))
     = Some (JStr (js "uid-from-token")).
Proof.
  split; [reflexivity|].
  assert (H : exists r,
             snd (POST (sample_env None sample_answer)
                    (sample_request sample_body None
                       (Some (js "Bearer good-token"))) []) = [] ++ [r])
    by (eexists; reflexivity).
  destruct H as [r Hr].
  assert (Hu := @POST_persists_verified_uid (sample_env None sample_answer)
                  (sample_request sample_body None
                     (Some (js "Bearer good-token"))) []
                  good_token token_uid
                  (JObj [(js "uid", JStr token_uid)]) r eq_refl).
  rewrite Hr. simpl. f_equal.
  apply Hu;
    [discriminate | repeat constructor | reflexivity | reflexivity
    | discriminate | exact Hr].
Defined.

(** C3. When the Authorization header is Bearer and a token and the
    verifier rejects the token, the call ends exactly as the same request
    without the header does (same response, same collection), and the
    document it adds, if any, has the body's userid as its userId. *)
Theorem POST_rejected_token_falls_back (env : Env) (req : Request)
    (db : Store) (tok : jstring) (e : JError) :
  authorization req = Some (js "Bearer " ++ tok) ->
  tok <> [] ->
  header_text tok ->
  verifyIdToken env tok = Throw e ->
  POST env req db = POST env (without_authorization req) db
  /\ forall r, snd (POST env req db) = db ++ [r] ->
               userId r = get (body_of env req) (js "userid").
Proof.
  intros Ha Hne Hd Hv. split.
  - unfold POST, POST_try, before_model.
    change (request_json env (without_authorization req))
      with (request_json env req).
    change (secret_refused env (without_authorization req))
      with (secret_refused env req).
    destruct (try_catch (request_json env req) _) as [body|]; [|reflexivity].
    destruct (destructure body) as [b|]; [|reflexivity].
    rewrite (@resolve_user_rejected env req (Body.userid b) tok e Ha Hne Hd Hv).
    rewrite (@resolve_user_no_header env (without_authorization req));
      reflexivity.
  - intros r H.
    destruct (@POST_inserted _ _ _ _ H)
      as (b & prompt & q & qs & stack & Hb & _ & _ & _ & ->).
    simpl. rewrite (@resolve_user_rejected env req (Body.userid b) tok e Ha Hne Hd Hv).
    exact (@destructure_userid _ _ Hb).
Qed.

Lemma POST_rejected_token_falls_back_witness :
  POST (sample_env None sample_answer)
    (sample_request sample_body None (Some (js "Bearer stale-token"))) []
  = POST (sample_env None sample_answer)
      (sample_request sample_body None None) []
  /\ option_map userId
       (hd_error
          (snd (POST (sample_env None sample_answer)
                  (sample_request sample_body None
                     (Some (js "Bearer stale-token"))) [])))
     = Some (JStr (js "uid-from-body")).
Proof.
  destruct (@POST_rejected_token_falls_back (sample_env None sample_answer)
              (sample_request sample_body None
                 (Some (js "Bearer stale-token"))) []
              (js "stale-token")
              (Raised (js "Error: Decoding Firebase ID token failed"))
              eq_refl) as [Hsame Hrec];
    [discriminate | repeat constructor | reflexivity |].
  split; [exact Hsame|].
  assert (H : exists r,
             snd (POST (sample_env None sample_answer)
                    (sample_request sample_body None
                       (Some (js "Bearer stale-token"))) []) = [] ++ [r])
    by (eexists; reflexivity).
  destruct H as [r Hr]. rewrite Hr. simpl. f_equal.
  rewrite (Hrec r Hr). reflexivity.
Defined.

(** ** The matcher and the fallback split *)

Lemma is_suffix_refl (a : jstring) : is_suffix a a.
Proof. exists []. reflexivity. Qed.

Lemma is_suffix_trans (a b c : jstring) :
  is_suffix a b -> is_suffix b c -> is_suffix a c.
Proof.
  intros [p ->] [q ->]. exists (q ++ p). rewrite app_assoc. reflexivity.
Qed.

Lemma is_suffix_tail (c : N) (t : jstring) : is_suffix t (c :: t).
Proof. exists [c]. reflexivity. Qed.

Lemma is_suffix_In (a b : jstring) (c : N) :
  is_suffix a b -> In c a -> In c b.
Proof. intros [p ->] H. apply in_or_app. right. exact H. Qed.

Section MatcherFacts.
Variable A : Type.



Lemma star_loop_some (step : mstate -> (mstate -> option A) -> option A) :
  (forall s k a, step s k = Some a -> reaches k a (pos s)) ->
  forall n s k a, star_loop step n s k = Some a -> reaches k a (pos s).
Proof.
  intros Hstep. induction n as [|n IH]; intros s k a; simpl.
  - intros H. exists s. split; [exact H | lia].
  - destruct (step s _) as [a'|] eqn:E.
    + intros H. injection H as ->.
      apply Hstep in E. destruct E as (s' & Hs' & Hp).
      destruct (pos s <? pos s'); [|discriminate].
      apply IH in Hs'. destruct Hs' as (s'' & Hs'' & Hp').
      exists s''. split; [exact Hs'' | lia].
    + intros H. exists s. split; [exact H | lia].
Qed.

Lemma m_some (r : re) :
  forall s (k : mstate -> option A) a,
    m r s k = Some a -> reaches k a (pos s + min_width r).
Proof.
  induction r as [|p|r1 IH1 r2 IH2|r1 IH1 r2 IH2|r IH| | |r IH];
    intros s k a; cbn [m min_width].
  - intros H. exists s. split; [exact H | lia].
  - destruct (rest s) as [|c t]; [discriminate|].
    destruct (p c); [|discriminate].
    intros H. eexists. split; [exact H | simpl; lia].
  - intros H. apply IH1 in H. destruct H as (s' & H & Hp).
    apply IH2 in H. destruct H as (s'' & H & Hp').
    exists s''. split; [exact H | lia].
  - destruct (m r1 s k) as [a'|] eqn:E.
    + intros H. injection H as ->. apply IH1 in E.
      destruct E as (s' & H & Hp). exists s'. split; [exact H | lia].
    + intros H. apply IH2 in H.
      destruct H as (s' & H & Hp). exists s'. split; [exact H | lia].
  - intros H. apply star_loop_some in H.
    + destruct H as (s' & H & Hp). exists s'. split; [exact H | lia].
    + intros s0 k0 a0 H0. apply IH in H0.
      destruct H0 as (s' & H0 & Hp). exists s'. split; [exact H0 | lia].
  - destruct (pos s =? 0); [|discriminate].
    intros H. exists s. split; [exact H | lia].
  - destruct (rest s); [|discriminate].
    intros H. exists s. split; [exact H | lia].
  - intros H. apply IH in H. destruct H as (s' & H & Hp).
    eexists. split; [exact H | simpl; lia].
Qed.

Lemma star_loop_total (step : mstate -> (mstate -> option A) -> option A)
    (n : nat) (s : mstate) (k : mstate -> option A) :
  (forall s', k s' <> None) -> star_loop step n s k <> None.
Proof.
  intros Hk. destruct n; simpl; [apply Hk|].
  destruct (step s _); [discriminate | apply Hk].
Qed.

End MatcherFacts.

Lemma match_at_width (r : re) (p : nat) (t : jstring) (e : mstate) :
  match_at r p t = Some e -> p + min_width r <= pos e.
Proof.
  unfold match_at. intros H. apply m_some in H.
  destruct H as (s' & H & Hp). injection H as ->. exact Hp.
Qed.


Lemma alt_none (A : Type) (r1 r2 : re) (s : mstate) (k : mstate -> option A) :
  m r1 s k = None -> m (Alt r1 r2) s k = m r2 s k.
Proof. intros H. cbn [m]. rewrite H. reflexivity. Qed.



Lemma star_loop_stuck (A : Type)
    (step : mstate -> (mstate -> option A) -> option A)
    (n : nat) (s : mstate) (k : mstate -> option A) :
  (forall k', step s k' = None) -> star_loop step n s k = k s.
Proof. intros H. destruct n; simpl; [|rewrite H]; reflexivity. Qed.


(** It matches at every comma and at every line feed, and a match is
    never empty. *)
Lemma split_re_at_comma (p : nat) (t : jstring) :
  match_at split_re p (COMMA :: t) <> None.
Proof.
  unfold match_at, split_re.
  do 4 (rewrite alt_none; [|reflexivity]).
  change (star_loop (m (Chr is_space)) (S (List.length (COMMA :: t)))
            (MState p (COMMA :: t) [])
            (fun s' => m (Seq (lit COMMA) spaces) s' (fun s => Some s))
          <> None).
  rewrite star_loop_stuck by reflexivity.
  change (star_loop (m (Chr is_space)) (S (List.length t))
            (MState (S p) t []) (fun s => Some s) <> None).
  apply star_loop_total. discriminate.
Qed.

Lemma split_re_at_LF (p : nat) (t : jstring) :
  match_at split_re p (LF :: t) = Some (MState (S p) t []).
Proof. reflexivity. Qed.

Lemma split_re_consumes (p : nat) (t : jstring) (e : mstate) :
  match_at split_re p t = Some e -> exists len, pos e - p = S len.
Proof.
  intros H. apply match_at_width in H.
  change (min_width split_re) with 1 in H.
  exists (pos e - p - 1). lia.
Qed.

Lemma no_separator_rev (piece : jstring) :
  no_separator piece -> no_separator (rev piece).
Proof.
  unfold no_separator. intros [H1 H2].
  split; intros H; apply in_rev in H; contradiction.
Qed.

Lemma split_loop_no_separator (t : jstring) :
  forall p skip piece,
    no_separator piece ->
    Forall no_separator (split_loop split_re p skip piece t).
Proof.
  induction t as [|c t IH]; intros p skip piece Hp; simpl.
  - constructor; [apply no_separator_rev; exact Hp | constructor].
  - destruct skip as [|skip]; [|apply IH; exact Hp].
    destruct (match_at split_re p (c :: t)) as [e|] eqn:E.
    + destruct (split_re_consumes _ _ E) as [len ->].
      constructor; [apply no_separator_rev; exact Hp|].
      apply IH. split; intros [].
    + apply IH. destruct Hp as [H1 H2]. split; intros [->|H]; try contradiction.
      * exact (split_re_at_comma p t E).
      * rewrite split_re_at_LF in E. discriminate.
Qed.


Lemma split_no_separator (s : jstring) :
  Forall no_separator (split s split_re).
Proof.
  unfold split. destruct s as [|c s].
  - simpl. repeat constructor; intros [].
  - apply split_loop_no_separator. split; intros [].
Qed.


Lemma replace_loop_In (r : re) (c : N) (t : jstring) :
  forall p skip, In c (replace_loop r [] p skip t) -> In c t.
Proof.
  induction t as [|x t IH]; intros p skip.
  - destruct skip; simpl; [|tauto].
    destruct (match_at r p []) as [e|]; [destruct (pos e - p)|]; simpl; tauto.
  - destruct skip as [|skip]; simpl.
    + destruct (match_at r p (x :: t)) as [e|].
      * destruct (pos e - p); simpl.
        -- intros [H|H]; [left; exact H | right; exact (IH _ _ H)].
        -- intros H. right. exact (IH _ _ H).
      * simpl. intros [H|H]; [left; exact H | right; exact (IH _ _ H)].
    + intros H. right. exact (IH _ _ H).
Qed.

Lemma replace_all_In (s : jstring) (r : re) (c : N) :
  In c (replace_all s r []) -> In c s.
Proof. apply replace_loop_In. Qed.

(** ** The two parse paths on given texts *)

(** C5. On the text of the array Q1, Q2, Q2, Q3 (each a quoted string)
    JSON.parse succeeds, the try block of step 5 completes without a throw,
    so the catch block with the fallback does not run, and the questions
    are Q1, Q2, Q2, Q3: the duplicate is kept. *)
Theorem strict_path_keeps_duplicates (cn : jstring -> jstring) :
  JSON.parse cn (jsq "['Q1','Q2','Q2','Q3']")
  = Normal (JArr [JStr (js "Q1"); JStr (js "Q2"); JStr (js "Q2");
                  JStr (js "Q3")])
  /\ strict_parse cn (JStr (jsq "['Q1','Q2','Q2','Q3']"))
     = Normal [js "Q1"; js "Q2"; js "Q2"; js "Q3"]
  /\ parse_questions cn (JStr (jsq "['Q1','Q2','Q2','Q3']"))
     = Normal [js "Q1"; js "Q2"; js "Q2"; js "Q3"].
Proof. repeat split. Qed.

(** C6. The text 1. What is X, line feed, 2. What is Y, line feed is not
    JSON: the strict parse throws, and the fallback produces exactly
    What is X and What is Y. *)
Theorem fallback_path_numbered_lines (cn : jstring -> jstring) :
  (exists e, strict_parse cn (JStr numbered_lines) = Throw e)
  /\ fallback_parse (JStr numbered_lines)
     = Normal [js "What is X"; js "What is Y"]
  /\ parse_questions cn (JStr numbered_lines)
     = Normal [js "What is X"; js "What is Y"].
Proof. split; [eexists; reflexivity | split; reflexivity]. Qed.




(** * Further properties of the code *)

(** ** What JSON.parse can return *)

Lemma deliver_defined (v : JValue) (stack stack' : list JSON.frame)
    (w : JValue) :
  v <> JUndefined ->
  JSON.deliver v stack = Some (stack', JSON.EDone w) -> w <> JUndefined.
Proof.
  intros Hv. unfold JSON.deliver.
  destruct stack as [|[items|props [k|]] up]; try discriminate.
  intros H. injection H as _ <-. exact Hv.
Qed.

Lemma parse_step_defined (cn : jstring -> jstring) (stack stack' : list JSON.frame)
    (e : JSON.expect) (tok : JSON.token) (w : JValue) :
  JSON.parse_step cn stack e tok = Some (stack', JSON.EDone w) ->
  w <> JUndefined.
Proof.
  assert (Hv : forall st st', JSON.parse_value cn tok st = Some (st', JSON.EDone w) ->
                        w <> JUndefined).
  { intros st st'. unfold JSON.parse_value.
    destruct tok; try discriminate;
      try (apply deliver_defined; discriminate). }
  assert (He : forall st st', JSON.parse_end tok st = Some (st', JSON.EDone w) ->
                        w <> JUndefined).
  { intros st st'. unfold JSON.parse_end.
    destruct tok; try discriminate;
      destruct st as [|[items|props [k|]] up]; try discriminate;
      apply deliver_defined; discriminate. }
  assert (Hk : forall st st', JSON.parse_key tok st = Some (st', JSON.EDone w) ->
                        w <> JUndefined).
  { intros st st'. unfold JSON.parse_key.
    destruct tok; try discriminate.
    destruct st as [|[items|props [k|]] up]; discriminate. }
  unfold JSON.parse_step. destruct e.
  - apply Hv.
  - destruct tok; try apply Hv. apply He.
  - destruct tok; try apply Hk. apply He.
  - apply Hk.
  - destruct tok; discriminate.
  - destruct tok; try apply He;
      destruct stack as [|[items|props k] up]; try apply He; discriminate.
  - discriminate.
Qed.

Lemma parse_tokens_defined (cn : jstring -> jstring) (toks : list JSON.token) :
  forall stack e v,
    (forall w, e = JSON.EDone w -> w <> JUndefined) ->
    JSON.parse_tokens cn stack e toks = Some v -> v <> JUndefined.
Proof.
  induction toks as [|tok toks IH]; intros stack e v He; simpl.
  - destruct e; try discriminate. intros H. injection H as <-.
    apply He. reflexivity.
  - destruct (JSON.parse_step cn stack e tok) as [[stack' e']|] eqn:E;
      [|discriminate].
    apply IH. intros w ->. exact (parse_step_defined _ _ _ _ E).
Qed.

(** JSON.parse never yields undefined. *)
Lemma parse_defined (cn : jstring -> jstring) (text : jstring) (v : JValue) :
  JSON.parse cn text = Normal v -> v <> JUndefined.
Proof.
  unfold JSON.parse. destruct (JSON.lex JSON.LIdle text) as [toks|];
    [|discriminate].
  destruct (JSON.parse_tokens cn [] JSON.EValue toks) as [w|] eqn:E;
    [|discriminate].
  intros H. injection H as <-.
  eapply parse_tokens_defined; [|exact E]. discriminate.
Qed.

(** ** The body and the secret, conversely *)

Lemma body_of_defined (env : Env) (req : Request) :
  body_of env req <> JUndefined.
Proof.
  unfold body_of, request_json.
  destruct (JSON.parse (canonical_number env) (body_text req)) as [v|] eqn:E.
  - eapply parse_defined. exact E.
  - discriminate.
Qed.

Lemma destructure_throws_iff (body : JValue) :
  body <> JUndefined ->
  ((exists e, destructure body = Throw e) <-> body = JNull).
Proof.
  intros Hd. split.
  - intros [e H]. destruct body; try discriminate; [contradiction|reflexivity].
  - intros ->. eexists. reflexivity.
Qed.

(** The handler's promise is rejected exactly when the body is the JSON
    text null (with or without white space around it). *)
Lemma POST_rejected_iff (env : Env) (req : Request) (db : Store) :
  (exists e, fst (POST env req db) = Rejected e)
  <-> request_json env req = Normal JNull.
Proof.
  unfold POST. rewrite request_body_normal.
  pose proof (body_of_defined env req) as Hd.
  destruct (destructure (body_of env req)) as [b|e0] eqn:Eb.
  - split.
    + intros [e H]. destruct (POST_try env req b db) as [[r|e1] db'];
        discriminate.
    + intros Hn. unfold body_of in Eb. rewrite Hn in Eb. discriminate.
  - split.
    + intros _.
      assert (Hn : body_of env req = JNull).
      { apply destructure_throws_iff; [exact Hd | eexists; exact Eb]. }
      unfold body_of in Hn.
      destruct (request_json env req) as [v|]; [subst; reflexivity|discriminate].
    + intros _. eexists. reflexivity.
Qed.

(** X2. The promise POST returns is rejected if and only if the body is
    the JSON text null; in that case the error is the TypeError of the
    destructuring and the collection is left as it was. Every other body,
    one that is no JSON at all included, gets a response. *)
Theorem POST_rejects_iff_null_body (env : Env) (req : Request) (db : Store) :
  ((exists e, fst (POST env req db) = Rejected e)
   <-> request_json env req = Normal JNull)
  /\ (forall e, fst (POST env req db) = Rejected e ->
                e = TypeError (js "Cannot destructure property 'type' of 'body'")
                /\ snd (POST env req db) = db).
Proof.
  split; [apply POST_rejected_iff|].
  intros e. unfold POST. rewrite request_body_normal.
  destruct (destructure (body_of env req)) as [b|e0] eqn:Eb.
  - destruct (POST_try env req b db) as [[r|e1] db']; discriminate.
  - simpl. intros H. injection H as <-. split; [|reflexivity].
    unfold destructure in Eb.
    destruct (body_of env req); try discriminate; injection Eb as <-;
      reflexivity.
Qed.

Lemma POST_rejects_iff_null_body_witness :
  fst (POST (sample_env None sample_answer)
         (sample_request (js " null ") None None) [])
  = Rejected (TypeError (js "Cannot destructure property 'type' of 'body'")).
Proof.
  destruct (POST_rejects_iff_null_body (sample_env None sample_answer)
              (sample_request (js " null ") None None) []) as [[_ H] H'].
  destruct (H eq_refl) as [e He]. rewrite He.
  destruct (H' e He) as [-> _]. reflexivity.
Defined.

Lemma secret_refused_iff (env : Env) (req : Request) :
  secret_refused env req = true
  <-> exists secret, VAPI_SECRET env = Some secret
                     /\ secret <> []
                     /\ x_vapi_secret req <> Some secret.
Proof.
  split.
  - unfold secret_refused. destruct (VAPI_SECRET env) as [secret|];
      [|discriminate].
    destruct (nonempty secret) eqn:En; [|discriminate].
    apply nonempty_true in En. intros H. exists secret.
    split; [reflexivity|]. split; [exact En|].
    intros Hh. rewrite Hh in H. simpl in H.
    rewrite jstring_eqb_refl in H.
    destruct secret; [contradiction|]. discriminate.
  - intros (secret & Hs & Hne & Hh).
    eapply secret_refused_mismatch; eassumption.
Qed.

(** X3. POST answers with status 401 if and only if the body is not the
    JSON text null and VAPI_SECRET is set to a non-empty value that the
    x-vapi-secret header does not equal (an absent header included). *)
Theorem POST_401_iff (env : Env) (req : Request) (db : Store) :
  (exists r, fst (POST env req db) = Responded r /\ status r = 401)
  <-> (request_json env req <> Normal JNull
       /\ exists secret, VAPI_SECRET env = Some secret
                          /\ secret <> []
                          /\ x_vapi_secret req <> Some secret).
Proof.
  rewrite <- secret_refused_iff.
  pose proof (POST_rejected_iff env req db) as Hrej.
  split.
  - intros (r & Hr & Hs). split.
    + intros Hn. apply Hrej in Hn. destruct Hn as [e He].
      rewrite He in Hr. discriminate.
    + revert Hr. unfold POST. rewrite request_body_normal.
      destruct (destructure (body_of env req)) as [b|]; [|discriminate].
      unfold POST_try, before_model.
      destruct (secret_refused env req); [reflexivity|].
      destruct (build_prompt b) as [prompt|]; simpl;
        [|intros H; injection H as <-; discriminate].
      destruct (ask_model env prompt) as [[|q qs]|];
        try (intros H; injection H as <-; discriminate).
      destruct (techstack_list (Body.techstack b));
        [|intros H; injection H as <-; discriminate].
      destruct (add_error env _); intros H; injection H as <-; discriminate.
  - intros [Hn Hs].
    destruct (destructure (body_of env req)) as [b|e] eqn:Eb.
    + exists unauthorized. split; [|reflexivity].
      erewrite POST_unauthorized; [reflexivity | exact Eb | exact Hs].
    + exfalso. apply Hn.
      assert (Hb : body_of env req = JNull).
      { apply destructure_throws_iff;
          [apply body_of_defined | eexists; exact Eb]. }
      unfold body_of in Hb.
      destruct (request_json env req) as [v|]; [subst; reflexivity|discriminate].
Qed.

Lemma POST_401_iff_witness :
  exists r,
    fst (POST (sample_env (Some (js "s3cret")) sample_answer)
           (sample_request (js "{}") (Some (js "wrong")) None) [])
    = Responded r
    /\ status r = 401.
Proof.
  apply (POST_401_iff (sample_env (Some (js "s3cret")) sample_answer)
           (sample_request (js "{}") (Some (js "wrong")) None) []).
  split.
  - intros H. vm_compute in H. discriminate.
  - exists (js "s3cret"). repeat split; discriminate.
Defined.

(** ** What a call of POST can end with *)

(** X1. A call of POST ends in one of three ways: the success response
    (status 200, success true) with exactly one document added; a response
    with status 401, 500 or 502 whose body says success false, with the
    collection as it was; or a rejection, with the collection as it was. *)
Theorem POST_outcomes (env : Env) (req : Request) (db : Store) :
  match POST env req db with
  | (Responded r, db') =>
      (r = ok /\ exists doc, db' = db ++ [doc])
      \/ ((status r = 401 \/ status r = 500 \/ status r = 502)
          /\ get (json r) (js "success") = JBool false
          /\ db' = db)
  | (Rejected _, db') => db' = db
  end.
Proof.
  unfold POST. rewrite request_body_normal.
  destruct (destructure (body_of env req)) as [b|]; [|reflexivity].
  unfold POST_try, before_model.
  destruct (secret_refused env req); [right; repeat split; auto|].
  destruct (build_prompt b) as [prompt|]; simpl;
    [|right; repeat split; auto].
  destruct (ask_model env prompt) as [[|q qs]|];
    try (right; repeat split; auto).
  destruct (techstack_list (Body.techstack b));
    [|right; repeat split; auto].
  destruct (add_error env _); [right; repeat split; auto|].
  left. split; [reflexivity|]. eexists. reflexivity.
Qed.

(** X4. When the text-generation call throws, the handler answers with
    status 500 and the body success false, error String(error), and
    nothing is stored. *)
Theorem POST_model_failure_500 (env : Env) (req : Request) (db : Store)
    (b : Body.t) (prompt : jstring) (e : JError) :
  destructure (body_of env req) = Normal b ->
  secret_refused env req = false ->
  build_prompt b = Normal prompt ->
  generateText env prompt = Throw e ->
  POST env req db
  = (Responded {| status := 500;
                  json := JObj [(js "success", JBool false);
                                (js "error", JStr (String_of_error e))] |},
     db).
Proof.
  intros Hb Hs Hp Hg. unfold POST. rewrite request_body_normal, Hb.
  unfold POST_try, before_model. rewrite Hs, Hp. simpl.
  unfold ask_model. rewrite Hg. reflexivity.
Qed.

Lemma POST_model_failure_500_witness :
  POST failing_model_env (sample_request sample_body None None) []
  = (Responded (server_error (Raised (js "Error: quota exceeded"))), []).
Proof.
  eapply (@POST_model_failure_500 failing_model_env
            (sample_request sample_body None None) []); reflexivity.
Defined.

(** X5. When the store rejects the document, the handler answers with
    status 500 carrying the store's error text, and the collection is left
    as it was. *)
Theorem POST_store_failure_500 (env : Env) (req : Request) (db : Store)
    (b : Body.t) (prompt : jstring) (q : jstring) (qs stack : list jstring)
    (e : JError) :
  destructure (body_of env req) = Normal b ->
  secret_refused env req = false ->
  build_prompt b = Normal prompt ->
  ask_model env prompt = Normal (q :: qs) ->
  techstack_list (Body.techstack b) = Normal stack ->
  add_error env (interview_of env req b (q :: qs) stack) = Some e ->
  POST env req db = (Responded (server_error e), db).
Proof.
  intros Hb Hs Hp Ha Ht He. unfold POST. rewrite request_body_normal, Hb.
  unfold POST_try, before_model. rewrite Hs, Hp. simpl. rewrite Ha, Ht.
  fold (interview_of env req b (q :: qs) stack). rewrite He. reflexivity.
Qed.

Lemma POST_store_failure_500_witness :
  POST failing_store_env (sample_request sample_body None None) []
  = (Responded (server_error (Raised (js "Error: 14 UNAVAILABLE"))), []).
Proof.
  eapply (@POST_store_failure_500 failing_store_env
            (sample_request sample_body None None) []); reflexivity.
Defined.

(** ** The Authorization header, conversely *)

Lemma bol_none (A : Type) (r : re) (s : mstate) (k : mstate -> option A) :
  pos s <> 0 -> m (Seq Bol r) s k = None.
Proof.
  intros H. cbn [m]. destruct (pos s =? 0) eqn:E; [|reflexivity].
  apply Nat.eqb_eq in E. contradiction.
Qed.

(** An expression that opens with ^ matches at position 0 or nowhere. *)
Lemma exec_from_bol_none (r : re) (t : jstring) :
  forall p, p <> 0 -> exec_from (Seq Bol r) p t = None.
Proof.
  induction t as [|c t IH]; intros p Hp; simpl; unfold match_at;
    rewrite bol_none by exact Hp; [reflexivity|].
  apply IH. discriminate.
Qed.

Lemma exec_from_bol (r : re) (s : jstring) :
  exec_from (Seq Bol r) 0 s
  = match match_at (Seq Bol r) 0 s with
    | Some e => Some (0, e)
    | None => None
    end.
Proof.
  destruct s as [|c t]; simpl;
    destruct (match_at (Seq Bol r) 0 _); try reflexivity.
  apply exec_from_bol_none. discriminate.
Qed.

Lemma lits_some (A : Type) (pre : jstring) (r : re) :
  forall (s : mstate) (k : mstate -> option A) (a : A),
    m (lits pre r) s k = Some a ->
    exists t, rest s = pre ++ t
              /\ m r (MState (pos s + List.length pre) t (caps s)) k = Some a.
Proof.
  induction pre as [|c pre IH]; intros s k a; simpl lits.
  - intros H. exists (rest s). split; [reflexivity|].
    rewrite Nat.add_0_r. destruct s. exact H.
  - cbn [m lit]. destruct (rest s) as [|x t]; [discriminate|].
    destruct (N.eqb_spec c x) as [<-|]; [|discriminate].
    intros H. apply IH in H. destruct H as (t' & Ht & H).
    simpl in Ht, H. exists t'. split; [rewrite Ht; reflexivity|].
    simpl List.length. rewrite Nat.add_succ_r. exact H.
Qed.

(** Where a starred class ends, it has consumed a run of the class. *)
Lemma star_loop_class_some (A : Type) (p : N -> bool)
    (step : mstate -> (mstate -> option A) -> option A)
    (k : mstate -> option A) (cs : list jstring) (a : A) :
  (forall s k', step s k' = m (Chr p) s k') ->
  forall n i t,
    star_loop step n (MState i t cs) k = Some a ->
    exists run post,
      t = run ++ post
      /\ Forall (fun c => p c = true) run
      /\ k (MState (i + List.length run) post cs) = Some a.
Proof.
  intros Hstep.
  assert (Hstop : forall i t, k (MState i t cs) = Some a ->
                    exists run post,
                      t = run ++ post
                      /\ Forall (fun c => p c = true) run
                      /\ k (MState (i + List.length run) post cs) = Some a).
  { intros i t H. exists [], t. rewrite Nat.add_0_r. repeat split; auto. }
  induction n as [|n IH]; intros i t; simpl; [apply Hstop|].
  rewrite Hstep. cbn [m rest pos caps].
  destruct t as [|c t]; [apply Hstop|].
  destruct (p c) eqn:Ec; [|apply Hstop].
  assert (Hlt : (i <? S i) = true) by (apply Nat.ltb_lt; lia).
  rewrite Hlt.
  destruct (star_loop step n (MState (S i) t cs) k) as [a'|] eqn:E;
    [|apply Hstop].
  intros H. injection H as ->.
  apply IH in E. destruct E as (run & post & -> & Hrun & Hk).
  exists (c :: run), post. repeat split.
  - constructor; assumption.
  - simpl List.length. rewrite Nat.add_succ_r. exact Hk.
Qed.

Lemma star_loop_chr_some (A : Type) (p : N -> bool)
    (k : mstate -> option A) (cs : list jstring) (a : A) (n i : nat)
    (t : jstring) :
  star_loop (m (A:=A) (Chr p)) n (MState i t cs) k = Some a ->
  exists run post,
    t = run ++ post
    /\ Forall (fun c => p c = true) run
    /\ k (MState (i + List.length run) post cs) = Some a.
Proof. apply star_loop_class_some. reflexivity. Qed.

Lemma bearer_match_inv (h : jstring) (l : list jstring) :
  String_match h bearer_re = Some l ->
  exists tok, h = js "Bearer " ++ tok
              /\ tok <> [] /\ header_text tok /\ l = [tok].
Proof.
  unfold String_match, bearer_re. rewrite exec_from_bol.
  destruct (match_at _ 0 h) as [e|] eqn:E; [|discriminate].
  intros H. injection H as <-.
  unfold match_at in E. cbn [m] in E. simpl (pos _ =? 0) in E. cbv iota in E.
  apply lits_some in E. destruct E as (tok & Hh & E).
  simpl in Hh. exists tok. split; [exact Hh|].
  cbn [m Plus] in E. simpl rest in E.
  destruct tok as [|c t]; [discriminate|].
  destruct (is_dot c) eqn:Ec; [|discriminate].
  apply star_loop_chr_some in E.
  destruct E as (run & post & -> & Hrun & E).
  simpl in E. destruct post as [|x post]; [|discriminate].
  injection E as <-. simpl.
  rewrite List.app_nil_r.
  repeat split; try discriminate.
  - constructor; assumption.
  - rewrite firstn_all. reflexivity.
Qed.

(** X6. The expression /^Bearer (.+)$/ matches a header exactly when
    the header is Bearer, one space and a non-empty token without line
    terminator, and the group captures that token: the prefix is
    case-sensitive and the verifier is never handed an empty token. *)
Theorem bearer_match_iff (h : jstring) (l : list jstring) :
  String_match h bearer_re = Some l
  <-> exists tok, h = js "Bearer " ++ tok
                  /\ tok <> [] /\ header_text tok /\ l = [tok].
Proof.
  split; [apply bearer_match_inv|].
  intros (tok & -> & Hne & Hd & ->). apply bearer_match; assumption.
Qed.

Lemma bearer_match_iff_witness :
  String_match (js "Bearer abc.def") bearer_re = Some [js "abc.def"]
  /\ String_match (js "bearer abc.def") bearer_re = None.
Proof.
  split.
  - apply bearer_match_iff. exists (js "abc.def").
    repeat split; try discriminate. repeat constructor.
  - destruct (String_match (js "bearer abc.def") bearer_re) as [l|] eqn:E;
      [|reflexivity].
    apply bearer_match_iff in E. destruct E as (tok & H & _). discriminate.
Defined.

Lemma resolve_user_other_header (env : Env) (req : Request)
    (userid : JValue) :
  (forall tok, authorization req <> Some (js "Bearer " ++ tok)) ->
  resolve_user env req userid = userid.
Proof.
  intros H. unfold resolve_user.
  destruct (String_match (or_empty (authorization req)) bearer_re)
    as [l|] eqn:E; [|reflexivity].
  apply bearer_match_inv in E. destruct E as (tok & Hh & _).
  exfalso. destruct (authorization req) as [h|] eqn:Ea; simpl in Hh.
  - apply (H tok). rewrite Hh. reflexivity.
  - discriminate.
Qed.

(** X7. A request whose Authorization header does not begin with Bearer
    and a space ends exactly as the same request without the header: the
    verifier is not consulted and the body's userid is used. *)
Theorem POST_ignores_other_authorization (env : Env) (req : Request)
    (db : Store) :
  (forall tok, authorization req <> Some (js "Bearer " ++ tok)) ->
  POST env req db = POST env (without_authorization req) db.
Proof.
  intros H. unfold POST, POST_try, before_model.
  change (request_json env (without_authorization req))
    with (request_json env req).
  change (secret_refused env (without_authorization req))
    with (secret_refused env req).
  destruct (try_catch (request_json env req) _) as [body|]; [|reflexivity].
  destruct (destructure body) as [b|]; [|reflexivity].
  rewrite (@resolve_user_other_header env req (Body.userid b) H).
  rewrite (@resolve_user_no_header env (without_authorization req));
    reflexivity.
Qed.

Lemma POST_ignores_other_authorization_witness :
  POST (sample_env None sample_answer)
    (sample_request sample_body None (Some (js "bearer good-token"))) []
  = POST (sample_env None sample_answer)
      (sample_request sample_body None None) [].
Proof.
  apply (@POST_ignores_other_authorization (sample_env None sample_answer)
           (sample_request sample_body None (Some (js "bearer good-token")))
           []).
  intros tok H. discriminate.
Defined.

(** ** The set of the fallback *)

Lemma seen_in_In (seen : list jstring) (x : jstring) :
  seen_in seen x = true <-> In x seen.
Proof.
  unfold seen_in. rewrite existsb_exists. split.
  - intros (y & Hy & E). apply jstring_eqb_eq in E. subst. exact Hy.
  - intros H. exists x. split; [exact H | apply jstring_eqb_refl].
Qed.

Lemma set_insertion_order_spec (xs : list jstring) :
  forall seen,
    NoDup (set_insertion_order seen xs)
    /\ forall x, In x (set_insertion_order seen xs)
                 <-> In x xs /\ ~ In x seen.
Proof.
  induction xs as [|y xs IH]; intros seen; simpl.
  - split; [constructor|]. intros x. tauto.
  - fold (seen_in seen y). destruct (seen_in seen y) eqn:E.
    + destruct (IH seen) as [Hn Hi]. split; [exact Hn|].
      intros x. rewrite Hi. apply seen_in_In in E. split.
      * intros [H1 H2]. split; [right; exact H1 | exact H2].
      * intros [[<-|H1] H2]; [contradiction|]. split; assumption.
    + assert (Hy : ~ In y seen).
      { intros H. apply seen_in_In in H. congruence. }
      destruct (IH (y :: seen)) as [Hn Hi]. split.
      * constructor; [|exact Hn]. rewrite Hi. intros [_ H]. apply H.
        left. reflexivity.
      * intros x. simpl. rewrite Hi. simpl. split.
        -- intros [<-|[H1 H2]]; [split; [left; reflexivity | exact Hy]|].
           split; [right; exact H1|]. intros H. apply H2. right. exact H.
        -- intros [[<-|H1] H2]; [left; reflexivity|].
           destruct (list_eq_dec N.eq_dec y x) as [->|Hne];
             [left; reflexivity|].
           right. split; [exact H1|]. intros [H|H]; contradiction.
Qed.

Lemma set_insertion_order_filter (xs : list jstring) :
  forall s1 s2,
    (forall y, In y s2 -> In y s1) ->
    set_insertion_order s1 xs
    = filter (fun y => negb (seen_in s1 y)) (set_insertion_order s2 xs).
Proof.
  induction xs as [|x xs IH]; intros s1 s2 Hsub; simpl; [reflexivity|].
  fold (seen_in s1 x). fold (seen_in s2 x).
  destruct (seen_in s2 x) eqn:E2.
  - assert (E1 : seen_in s1 x = true).
    { apply seen_in_In, Hsub, seen_in_In. exact E2. }
    rewrite E1. apply IH. exact Hsub.
  - simpl. destruct (seen_in s1 x) eqn:E1; simpl.
    + apply IH. intros y [<-|H]; [apply seen_in_In; exact E1 | auto].
    + f_equal.
      rewrite (IH (x :: s1) (x :: s2)).
      * apply filter_ext_in. intros y Hy.
        apply set_insertion_order_spec in Hy. destruct Hy as [_ Hy].
        unfold seen_in. simpl.
        destruct (jstring_eqb y x) eqn:Eyx; [|reflexivity].
        apply jstring_eqb_eq in Eyx. subst. exfalso. apply Hy. left.
        reflexivity.
      * intros y [<-|H]; [left; reflexivity | right; auto].
Qed.

(** X11. Array.from(new Set(xs)) keeps exactly one copy of every string
    of xs and no other string, in the order of the first occurrences: the
    head of xs comes first, followed by the result for the tail without
    the copies of the head. *)
Theorem unique_first_occurrences (xs : list jstring) :
  NoDup (unique xs)
  /\ (forall x, In x (unique xs) <-> In x xs)
  /\ (forall x t, xs = x :: t ->
        unique xs = x :: filter (fun y => negb (jstring_eqb y x)) (unique t)).
Proof.
  unfold unique. destruct (set_insertion_order_spec xs []) as [Hn Hi].
  split; [exact Hn|]. split.
  - intros x. rewrite Hi. simpl. tauto.
  - intros x t ->. simpl. f_equal.
    rewrite (set_insertion_order_filter t [x] []); [|intros y []].
    apply filter_ext. intros y. unfold seen_in. simpl.
    rewrite orb_false_r. reflexivity.
Qed.

Lemma unique_first_occurrences_witness :
  unique [js "b"; js "a"; js "b"; js "c"; js "a"] = [js "b"; js "a"; js "c"].
Proof.
  destruct (unique_first_occurrences
              [js "b"; js "a"; js "b"; js "c"; js "a"]) as (_ & _ & H).
  rewrite (H _ _ eq_refl). reflexivity.
Defined.

(** ** What a fallback question is made of *)

Lemma drop_while_In (p : N -> bool) (s : jstring) (c : N) :
  In c (drop_while p s) -> In c s.
Proof.
  induction s as [|x s IH]; simpl; [tauto|].
  destruct (p x); [intros H; right; exact (IH H) | tauto].
Qed.

Lemma trim_In (s : jstring) (c : N) : In c (trim s) -> In c s.
Proof.
  unfold trim. intros H. apply in_rev in H. apply drop_while_In in H.
  apply in_rev in H. apply drop_while_In in H. exact H.
Qed.

Section Suffix.
Variable A : Type.

Lemma star_loop_suffix (step : mstate -> (mstate -> option A) -> option A) :
  (forall s k a, step s k = Some a -> reaches_suffix k a s) ->
  forall n s k a, star_loop step n s k = Some a -> reaches_suffix k a s.
Proof.
  intros Hstep. induction n as [|n IH]; intros s k a; simpl.
  - intros H. exists s. split; [exact H | apply is_suffix_refl].
  - destruct (step s _) as [a'|] eqn:E.
    + intros H. injection H as ->.
      apply Hstep in E. destruct E as (s' & Hs' & Hp).
      destruct (pos s <? pos s'); [|discriminate].
      apply IH in Hs'. destruct Hs' as (s'' & Hs'' & Hp').
      exists s''. split; [exact Hs''|]. eapply is_suffix_trans; eassumption.
    + intros H. exists s. split; [exact H | apply is_suffix_refl].
Qed.

Lemma m_suffix (r : re) :
  forall s (k : mstate -> option A) a,
    m r s k = Some a -> reaches_suffix k a s.
Proof.
  induction r as [|p|r1 IH1 r2 IH2|r1 IH1 r2 IH2|r IH| | |r IH];
    intros s k a; cbn [m].
  - intros H. exists s. split; [exact H | apply is_suffix_refl].
  - destruct (rest s) as [|c t] eqn:E; [discriminate|].
    destruct (p c); [|discriminate].
    intros H. eexists. split; [exact H|]. simpl. rewrite E.
    apply is_suffix_tail.
  - intros H. apply IH1 in H. destruct H as (s' & H & Hp).
    apply IH2 in H. destruct H as (s'' & H & Hp').
    exists s''. split; [exact H|]. eapply is_suffix_trans; eassumption.
  - destruct (m r1 s k) as [a'|] eqn:E.
    + intros H. injection H as ->. apply IH1 in E. exact E.
    + intros H. apply IH2 in H. exact H.
  - intros H. apply star_loop_suffix in H; [exact H|]. exact IH.
  - destruct (pos s =? 0); [|discriminate].
    intros H. exists s. split; [exact H | apply is_suffix_refl].
  - destruct (rest s); [|discriminate].
    intros H. exists s. split; [exact H | apply is_suffix_refl].
  - intros H. apply IH in H. destruct H as (s' & H & Hp).
    eexists. split; [exact H | exact Hp].
Qed.

End Suffix.

Lemma match_at_suffix (r : re) (p : nat) (t : jstring) (e : mstate) :
  match_at r p t = Some e -> is_suffix (rest e) t.
Proof.
  unfold match_at. intros H. apply m_suffix in H.
  destruct H as (s' & H & Hs). injection H as ->. exact Hs.
Qed.

Lemma exec_from_suffix (r : re) (t : jstring) :
  forall p b e, exec_from r p t = Some (b, e) -> is_suffix (rest e) t.
Proof.
  induction t as [|c t IH]; intros p b e; simpl;
    destruct (match_at r p _) as [e'|] eqn:E.
  - intros H. injection H as _ <-. eapply match_at_suffix. exact E.
  - discriminate.
  - intros H. injection H as _ <-. eapply match_at_suffix. exact E.
  - intros H. apply IH in H. eapply is_suffix_trans; [exact H|].
    apply is_suffix_tail.
Qed.

Lemma replace_first_In (s : jstring) (r : re) (c : N) :
  In c (replace_first s r []) -> In c s.
Proof.
  unfold replace_first. destruct (exec_from r 0 s) as [[b e]|] eqn:E; [|tauto].
  intros H. apply in_app_or in H. destruct H as [H|H].
  - rewrite <- (firstn_skipn b s). apply in_or_app. left. exact H.
  - simpl in H. apply exec_from_suffix in E. eapply is_suffix_In; eassumption.
Qed.

Lemma clean_piece_In (s : jstring) (c : N) :
  In c (clean_piece s) -> In c s.
Proof.
  unfold clean_piece. intros H. apply trim_In in H.
  apply replace_all_In in H. apply replace_first_In in H. exact H.
Qed.

(** X12. The questions the fallback produces are pairwise distinct, and
    none of them contains a comma or a line feed. *)
Theorem fallback_questions_distinct (questionsText : JValue)
    (qs : list jstring) :
  fallback_parse questionsText = Normal qs ->
  NoDup qs /\ Forall no_separator qs.
Proof.
  unfold fallback_parse. destruct questionsText; try discriminate.
  intros H. injection H as <-. split.
  - apply set_insertion_order_spec.
  - apply Forall_forall. intros q Hq.
    apply unique_In, filter_In in Hq. destruct Hq as [Hq _].
    apply in_map_iff in Hq. destruct Hq as (piece & <- & Hp).
    pose proof (split_no_separator
                  (replace_all s trim_brackets_re [])) as Hall.
    fold (fallback_pieces s) in Hall.
    rewrite Forall_forall in Hall. destruct (Hall _ Hp) as [H1 H2].
    split; intros H; apply clean_piece_In in H; contradiction.
Qed.

Lemma fallback_questions_distinct_witness :
  fallback_parse (JStr (js "2) Why Go?, why Rust?, Why Go?"))
  = Normal [js "Why Go?"; js "why Rust?"]
  /\ NoDup [js "Why Go?"; js "why Rust?"].
Proof.
  split; [reflexivity|].
  apply (@fallback_questions_distinct
           (JStr (js "2) Why Go?, why Rust?, Why Go?"))
           [js "Why Go?"; js "why Rust?"]).
  reflexivity.
Defined.

Section Runs.
Variable p : N -> bool.

Lemma take_drop_while (s : jstring) : take_while p s ++ drop_while p s = s.
Proof.
  induction s as [|c t IH]; simpl; [reflexivity|].
  destruct (p c); simpl; [rewrite IH|]; reflexivity.
Qed.

Lemma take_while_all (s : jstring) :
  Forall (fun c => p c = true) (take_while p s).
Proof.
  induction s as [|c t IH]; simpl; [constructor|].
  destruct (p c) eqn:E; constructor; assumption.
Qed.

Lemma drop_while_stop (s : jstring) (c : N) (t : jstring) :
  drop_while p s = c :: t -> p c = false.
Proof. apply drop_while_head. Qed.

Lemma forallb_all (s : jstring) :
  forallb p s = true <-> Forall (fun c => p c = true) s.
Proof.
  rewrite forallb_forall, Forall_forall. tauto.
Qed.

(** A starred class followed by something that succeeds where the run of
    the class ends takes the whole run. *)
Lemma star_loop_run (A : Type) (k : mstate -> option A) (cs : list jstring)
    (a : A) (post : jstring) (run : jstring) :
  Forall (fun c => p c = true) run ->
  (forall c t, post = c :: t -> p c = false) ->
  forall n i,
    List.length run < n ->
    k (MState (i + List.length run) post cs) = Some a ->
    star_loop (m (A:=A) (Chr p)) n (MState i (run ++ post) cs) k = Some a.
Proof.
  intros Hrun Hpost. induction Hrun as [|c run Hc Hrun IH]; intros n i Hn Hk.
  - simpl in Hk. rewrite Nat.add_0_r in Hk. simpl.
    destruct n; simpl; [exact Hk|].
    destruct post as [|c t]; [exact Hk|].
    rewrite (Hpost c t eq_refl). exact Hk.
  - destruct n as [|n]; [simpl in Hn; lia|].
    simpl. rewrite Hc.
    assert (Hlt : (i <? S i) = true) by (apply Nat.ltb_lt; lia).
    rewrite Hlt. rewrite IH; [reflexivity| simpl in Hn; lia |].
    simpl in Hk. rewrite Nat.add_succ_r in Hk. exact Hk.
Qed.

Lemma seq_unfold (A : Type) (r1 r2 : re) (s : mstate)
    (k : mstate -> option A) :
  m (Seq r1 r2) s k = m r1 s (fun s' => m r2 s' k).
Proof. reflexivity. Qed.

Lemma bol_start (A : Type) (r : re) (t : jstring) (cs : list jstring)
    (k : mstate -> option A) :
  m (Seq Bol r) (MState 0 t cs) k = m r (MState 0 t cs) k.
Proof. reflexivity. Qed.

Lemma plus_unfold (A : Type) (s : mstate) (k : mstate -> option A) :
  m (Plus (Chr p)) s k
  = match rest s with
    | [] => None
    | c :: t =>
        if p c
        then star_loop (m (A:=A) (Chr p)) (S (List.length t))
               (MState (S (pos s)) t (caps s)) k
        else None
    end.
Proof. reflexivity. Qed.

Lemma plus_eol_all (i : nat) (t : jstring) :
  t <> [] -> forallb p t = true ->
  m (Seq (Plus (Chr p)) Eol) (MState i t []) (fun s => Some s)
  = Some (MState (i + List.length t) [] []).
Proof.
  intros Hne Hall. destruct t as [|c t]; [contradiction|].
  simpl in Hall. apply andb_true_iff in Hall. destruct Hall as [Hc Hall].
  rewrite seq_unfold, plus_unfold. cbn [rest pos caps]. rewrite Hc.
  apply star_loop_all.
  - apply forallb_all. exact Hall.
  - lia.
  - simpl. do 2 f_equal. lia.
Qed.

Lemma plus_eol_none (i : nat) (t : jstring) :
  forallb p t = false \/ t = [] ->
  m (Seq (Plus (Chr p)) Eol) (MState i t []) (fun s => Some s) = None.
Proof.
  intros H. rewrite seq_unfold, plus_unfold. cbn [rest pos caps].
  destruct t as [|c t]; [reflexivity|].
  destruct (p c) eqn:Ec; [|reflexivity].
  match goal with |- ?x = None => destruct x as [a|] eqn:E end;
    [|reflexivity].
  exfalso. apply star_loop_chr_some in E.
  destruct E as (run & post & -> & Hrun & E).
  simpl in E. destruct post; [|discriminate].
  destruct H as [H|H]; [|discriminate].
  simpl in H. rewrite Ec in H. simpl in H.
  rewrite List.app_nil_r in H.
  apply forallb_all in Hrun. congruence.
Qed.

Lemma strip_match_later (i : nat) (t : jstring) :
  i <> 0 ->
  match_at (strip_re p) i t
  = if forallb p t && nonempty t
    then Some (MState (i + List.length t) [] [])
    else None.
Proof.
  intros Hi. unfold match_at, strip_re.
  rewrite alt_none by (apply bol_none; exact Hi).
  destruct t as [|c t].
  - rewrite plus_eol_none by (right; reflexivity). reflexivity.
  - destruct (forallb p (c :: t)) eqn:Ea; cbn [andb nonempty].
    + apply plus_eol_all; [discriminate | exact Ea].
    + apply plus_eol_none. left. exact Ea.
Qed.

Lemma strip_match_start_other (t : jstring) :
  (forall c t', t = c :: t' -> p c = false) ->
  match_at (strip_re p) 0 t = None.
Proof.
  intros H. unfold match_at, strip_re.
  rewrite alt_none.
  - rewrite seq_unfold, plus_unfold. cbn [rest].
    destruct t as [|c t]; [reflexivity|].
    rewrite (H c t eq_refl). reflexivity.
  - rewrite bol_start, plus_unfold. cbn [rest].
    destruct t as [|c t]; [reflexivity|].
    rewrite (H c t eq_refl). reflexivity.
Qed.

Lemma strip_match_start_run (c : N) (t : jstring) :
  p c = true ->
  match_at (strip_re p) 0 (c :: t)
  = Some (MState (S (List.length (take_while p t))) (drop_while p t) []).
Proof.
  intros Hc. unfold match_at, strip_re.
  assert (E : m (Seq Bol (Plus (Chr p))) (MState 0 (c :: t) [])
                (fun s => Some s)
              = Some (MState (S (List.length (take_while p t)))
                        (drop_while p t) [])).
  2:{ cbn [m]. cbn [m] in E. rewrite E. reflexivity. }
  rewrite bol_start, plus_unfold. cbn [rest pos caps]. rewrite Hc.
  rewrite <- (take_drop_while t) at 1 2.
  rewrite star_loop_run with (a := MState (S (List.length (take_while p t)))
                                     (drop_while p t) []).
  - reflexivity.
  - apply take_while_all.
  - intros x t' Hx. eapply drop_while_stop. exact Hx.
  - rewrite take_drop_while.
    assert (Hl : List.length (take_while p t) <= List.length t).
    { rewrite <- (take_drop_while t) at 2. rewrite length_app. lia. }
    lia.
  - reflexivity.
Qed.

Lemma replace_loop_skip (r : re) (pre post : jstring) :
  forall i,
    replace_loop r [] i (List.length pre) (pre ++ post)
    = replace_loop r [] (i + List.length pre) 0 post.
Proof.
  induction pre as [|c pre IH]; intros i; simpl.
  - rewrite Nat.add_0_r. reflexivity.
  - rewrite IH. rewrite Nat.add_succ_r. reflexivity.
Qed.

Lemma strip_loop_later (t : jstring) :
  forall i, i <> 0 ->
    replace_loop (strip_re p) [] i 0 t = strip_tail p t.
Proof.
  induction t as [|c t IH]; intros i Hi.
  - simpl. rewrite strip_match_later by exact Hi. reflexivity.
  - cbn [replace_loop strip_tail]. rewrite strip_match_later by exact Hi.
    destruct (forallb p (c :: t)) eqn:Ea; cbn [andb nonempty].
    + cbn [pos].
      replace (i + List.length (c :: t) - i) with (S (List.length t))
        by (simpl; lia).
      cbn [app].
      rewrite <- (List.app_nil_r t) at 2.
      rewrite replace_loop_skip. cbn [replace_loop].
      rewrite strip_match_later by lia. rewrite andb_false_r. reflexivity.
    + simpl. f_equal. apply IH. discriminate.
Qed.

Lemma strip_loop_start (t : jstring) :
  replace_loop (strip_re p) [] 0 0 t = strip_tail p (drop_while p t).
Proof.
  destruct t as [|c t].
  - cbn [replace_loop drop_while strip_tail].
    rewrite strip_match_start_other; [reflexivity|]. discriminate.
  - cbn [replace_loop drop_while]. destruct (p c) eqn:Ec.
    + rewrite strip_match_start_run by exact Ec. cbn [pos].
      rewrite Nat.sub_0_r. cbn [app].
      rewrite <- (take_drop_while t) at 2.
      rewrite replace_loop_skip. apply strip_loop_later. discriminate.
    + rewrite strip_match_start_other.
      * cbn [app strip_tail forallb]. rewrite Ec. cbn [andb]. f_equal.
        apply strip_loop_later. discriminate.
      * intros x t' H. injection H as <- _. exact Ec.
Qed.

Lemma drop_while_app (a b : jstring) :
  drop_while p (a ++ b)
  = if forallb p a then drop_while p b else drop_while p a ++ b.
Proof.
  induction a as [|c a IH]; simpl; [reflexivity|].
  destruct (p c); simpl; [exact IH | reflexivity].
Qed.

Lemma forallb_rev (s : jstring) : forallb p (rev s) = forallb p s.
Proof.
  induction s as [|c s IH]; simpl; [reflexivity|].
  rewrite forallb_app, IH. simpl. rewrite andb_true_r. apply andb_comm.
Qed.

Lemma strip_tail_rev (s : jstring) :
  strip_tail p s = rev (drop_while p (rev s)).
Proof.
  induction s as [|c s IH]; [reflexivity|].
  cbn [strip_tail]. simpl rev. rewrite drop_while_app, forallb_rev.
  simpl forallb. destruct (p c) eqn:Ec; simpl.
  - destruct (forallb p s) eqn:Es.
    + simpl. rewrite Ec. reflexivity.
    + rewrite rev_app_distr. simpl. f_equal. exact IH.
  - destruct (forallb p s) eqn:Es.
    + simpl. rewrite Ec. simpl. f_equal. rewrite IH.
      assert (H : drop_while p (rev s) = []).
      { rewrite <- (List.app_nil_r (rev s)), drop_while_app, forallb_rev, Es.
        reflexivity. }
      rewrite H. reflexivity. 
    + rewrite rev_app_distr. simpl. f_equal. exact IH.
Qed.

(** Replacing /^C+|C+$/g by nothing strips the leading and the trailing
    run of the class and nothing else. *)
Lemma replace_all_strip_ends (s : jstring) :
  replace_all s (strip_re p) [] = strip_ends p s.
Proof.
  unfold replace_all, strip_ends. rewrite strip_loop_start.
  apply strip_tail_rev.
Qed.

End Runs.

(** X13. The two stripping replacements of the fallback do what their
    comments say and no more: the first removes from the text exactly its
    leading and its trailing run of white space, brackets and double
    quotes; the second removes from a piece exactly its leading and
    trailing run of quotes, apostrophes and white space. Nothing inside is
    touched. *)
Theorem strip_regexes (s : jstring) :
  replace_all s trim_brackets_re [] = strip_ends is_space_bracket_quote s
  /\ replace_all s trim_quotes_re [] = strip_ends is_quote_or_space s.
Proof.
  split.
  - change trim_brackets_re with (strip_re is_space_bracket_quote).
    apply replace_all_strip_ends.
  - change trim_quotes_re with (strip_re is_quote_or_space).
    apply replace_all_strip_ends.
Qed.

Lemma digit_not_mark (c : N) :
  is_digit c = true -> is_numbering_mark c = false.
Proof.
  unfold is_digit, is_numbering_mark, is_space.
  rewrite andb_true_iff, !N.leb_le. intros [H1 H2].
  repeat match goal with
         | |- context [N.eqb ?a ?b] =>
             destruct (N.eqb_spec a b); [lia|]
         | |- context [N.leb ?a ?b] =>
             destruct (N.leb_spec a b); [try lia|]
         end; try reflexivity; try lia.
Qed.

Lemma strip_ends_fixed (p q : N -> bool) (s : jstring) :
  (forall c, q c = true -> p c = true) ->
  strip_ends q (strip_ends p s) = strip_ends p s.
Proof.
  intros Hqp. unfold strip_ends.
  assert (Hstop : forall u c t, drop_while p u = c :: t -> q c = false).
  { intros u c t H. apply drop_while_head in H.
    destruct (q c) eqn:E; [|reflexivity]. apply Hqp in E. congruence. }
  set (a := drop_while p s).
  set (b := drop_while p (rev a)).
  assert (Ha : drop_while q (rev b) = rev b).
  { destruct (rev b) as [|x r] eqn:Er; [reflexivity|].
    apply drop_while_fixed.
    destruct (drop_while_suffix p (rev a)) as [pre Hpre].
    fold b in Hpre.
    assert (Hrev : a = rev b ++ rev pre).
    { rewrite <- rev_app_distr, <- Hpre, rev_involutive. reflexivity. }
    rewrite Er in Hrev. simpl in Hrev.
    apply (Hstop s x (r ++ rev pre)). exact Hrev. }
  rewrite Ha, rev_involutive.
  assert (Hb : drop_while q b = b).
  { destruct b as [|x r] eqn:Eb; [reflexivity|].
    apply drop_while_fixed. apply (Hstop (rev a) x r). exact Eb. }
  rewrite Hb. reflexivity.
Qed.

Lemma numbering_match (s : jstring) :
  match_at numbering_re 0 s
  = match take_while is_digit s,
          take_while is_numbering_mark (drop_while is_digit s) with
    | ds, ms =>
        if nonempty ds && nonempty ms
        then Some (MState (List.length ds + List.length ms)
                     (drop_while is_numbering_mark (drop_while is_digit s)) [])
        else None
    end.
Proof.
  unfold match_at, numbering_re. rewrite bol_start, seq_unfold, plus_unfold.
  cbn [rest pos caps].
  destruct s as [|c t]; [reflexivity|].
  cbn [take_while drop_while]. destruct (is_digit c) eqn:Ec; [|reflexivity].
  cbn [nonempty andb].
  set (run := take_while is_digit t). set (post := drop_while is_digit t).
  assert (Ht : t = run ++ post) by (symmetry; apply take_drop_while).
  assert (Hrun : Forall (fun c => is_digit c = true) run)
    by apply take_while_all.
  assert (Hpost : forall x u, post = x :: u -> is_digit x = false).
  { intros x u H. eapply drop_while_head. exact H. }
  assert (Hlen : List.length run < S (List.length t)).
  { rewrite Ht, length_app. lia. }
  destruct post as [|x post'] eqn:Epost.
  - (* nothing after the digits *)
    cbn [take_while nonempty].
    match goal with |- ?l = None => destruct l as [a|] eqn:E end;
      [|reflexivity].
    exfalso. apply star_loop_chr_some in E.
    destruct E as (run' & post'' & Ht' & Hrun' & E).
    rewrite plus_unfold in E. cbn [rest] in E.
    destruct post'' as [|y post'']; [discriminate|].
    destruct (is_numbering_mark y) eqn:Ey; [|discriminate].
    assert (Hd : drop_while is_digit t = drop_while is_digit (y :: post'')).
    { rewrite Ht', drop_while_app.
      apply forallb_all in Hrun'. rewrite Hrun'. reflexivity. }
    fold post in Hd. rewrite Epost in Hd. cbn [drop_while] in Hd.
    destruct (is_digit y) eqn:Edy.
    + apply digit_not_mark in Edy. congruence.
    + discriminate.
  - cbn [take_while]. destruct (is_numbering_mark x) eqn:Ex.
    + cbn [nonempty drop_while]. rewrite Ex.
      rewrite Ht at 1 2.
      rewrite star_loop_run
        with (a := MState (S (List.length run)
                           + S (List.length (take_while is_numbering_mark post')))
                     (drop_while is_numbering_mark post') []).
      * cbn [List.length]. reflexivity.
      * exact Hrun.
      * exact Hpost.
      * rewrite <- Ht. exact Hlen.
      * rewrite plus_unfold. cbn [rest pos caps]. rewrite Ex.
        rewrite <- (take_drop_while is_numbering_mark post') at 1 2.
        rewrite star_loop_run
          with (a := MState (S (List.length run)
                             + S (List.length
                                    (take_while is_numbering_mark post')))
                       (drop_while is_numbering_mark post') []).
        -- reflexivity.
        -- apply take_while_all.
        -- intros y u H. eapply drop_while_head. exact H.
        -- rewrite take_drop_while.
           assert (Hl : List.length (take_while is_numbering_mark post')
                        <= List.length post').
           { rewrite <- (take_drop_while is_numbering_mark post') at 2.
             rewrite length_app. lia. }
           lia.
        -- do 2 f_equal. lia.
    + cbn [nonempty].
      match goal with |- ?l = None => destruct l as [a|] eqn:E end;
        [|reflexivity].
      exfalso. apply star_loop_chr_some in E.
      destruct E as (run' & post'' & Ht' & Hrun' & E).
      rewrite plus_unfold in E. cbn [rest] in E.
      destruct post'' as [|y post'']; [discriminate|].
      destruct (is_numbering_mark y) eqn:Ey; [|discriminate].
      assert (Hd : drop_while is_digit t = drop_while is_digit (y :: post'')).
      { rewrite Ht', drop_while_app.
        apply forallb_all in Hrun'. rewrite Hrun'. reflexivity. }
      fold post in Hd. rewrite Epost in Hd. cbn [drop_while] in Hd.
      destruct (is_digit y) eqn:Edy.
      * apply digit_not_mark in Edy. congruence.
      * injection Hd as -> _. congruence.
Qed.

Lemma replace_first_strip_numbering (s : jstring) :
  replace_first s numbering_re [] = strip_numbering s.
Proof.
  unfold replace_first, strip_numbering.
  change numbering_re
    with (Seq Bol (Seq (Plus (Chr is_digit)) (Plus (Chr is_numbering_mark))))
    at 1.
  rewrite exec_from_bol.
  change (Seq Bol (Seq (Plus (Chr is_digit)) (Plus (Chr is_numbering_mark))))
    with numbering_re.
  rewrite numbering_match.
  destruct (take_while is_digit s) as [|d ds]; [reflexivity|].
  destruct (take_while is_numbering_mark (drop_while is_digit s)) as [|x ms];
    reflexivity.
Qed.

(** X14. The numbering removal takes away a leading run of digits
    together with the run of numbering marks (closing parenthesis, full
    stop, white space, hyphen) that follows it, when both are there, and
    otherwise leaves the piece as it is; in particular a piece that does
    not begin with a digit, and a number that no mark follows, are kept. *)
Theorem replace_first_numbering (s : jstring) :
  replace_first s numbering_re [] = strip_numbering s
  /\ (take_while is_digit s = [] -> replace_first s numbering_re [] = s)
  /\ (take_while is_numbering_mark (drop_while is_digit s) = [] ->
      replace_first s numbering_re [] = s).
Proof.
  rewrite replace_first_strip_numbering. unfold strip_numbering.
  split; [reflexivity|]. split; intros H; rewrite H.
  - reflexivity.
  - destruct (take_while is_digit s); reflexivity.
Qed.

Lemma replace_first_numbering_witness :
  replace_first (js "12) Why Go?") numbering_re [] = js "Why Go?"
  /\ replace_first (js "Why Go?") numbering_re [] = js "Why Go?"
  /\ replace_first (js "2024 was a good year") numbering_re []
     = js "was a good year"
  /\ replace_first (js "3D printing") numbering_re [] = js "3D printing".
Proof.
  split; [|split; [|split]].
  - rewrite (proj1 (replace_first_numbering (js "12) Why Go?"))).
    reflexivity.
  - apply (proj1 (proj2 (replace_first_numbering (js "Why Go?")))).
    reflexivity.
  - rewrite (proj1 (replace_first_numbering (js "2024 was a good year"))).
    reflexivity.
  - apply (proj2 (proj2 (replace_first_numbering (js "3D printing")))).
    reflexivity.
Defined.

(** X15. What the fallback does to one piece: the numbering removal, then
    the stripping of quotes, apostrophes and white space from both ends;
    the final trim changes nothing any more. *)
Theorem clean_piece_strips (s : jstring) :
  clean_piece s = strip_ends is_quote_or_space (strip_numbering s).
Proof.
  unfold clean_piece. rewrite replace_first_strip_numbering.
  change trim_quotes_re with (strip_re is_quote_or_space).
  rewrite replace_all_strip_ends.
  change trim with (strip_ends is_space).
  apply strip_ends_fixed.
  intros c H. unfold is_quote_or_space. rewrite H. apply orb_true_r.
Qed.

Lemma split_on_spec (sep : N) (s : jstring) :
  forall piece,
    ~ In sep piece ->
    join sep (split_on sep piece s) = rev piece ++ s
    /\ Forall (fun x => ~ In sep x) (split_on sep piece s)
    /\ List.length (split_on sep piece s) = S (count_occ N.eq_dec s sep).
Proof.
  induction s as [|c s IH]; intros piece Hp; simpl.
  - rewrite List.app_nil_r. repeat split.
    constructor; [|constructor]. intros H. apply in_rev in H. contradiction.
  - destruct (N.eqb_spec c sep) as [->|Hne].
    + destruct (IH [] (fun H => H)) as (Hj & Hf & Hl).
      destruct (N.eq_dec sep sep) as [_|]; [|contradiction].
      repeat split.
      * destruct (split_on sep [] s) as [|x l] eqn:E; [discriminate|].
        simpl in Hj. cbn [join]. rewrite Hj. reflexivity.
      * constructor; [|exact Hf]. intros H. apply in_rev in H. contradiction.
      * simpl. rewrite Hl. reflexivity.
    + destruct (IH (c :: piece)) as (Hj & Hf & Hl).
      { intros [H|H]; [congruence|contradiction]. }
      destruct (N.eq_dec c sep) as [|_]; [contradiction|].
      repeat split; try assumption.
      rewrite Hj. simpl. rewrite <- app_assoc. reflexivity.
Qed.

Lemma map_string_trim_strings (l : list jstring) :
  map_throwing string_trim (map JStr l) = Normal (map trim l).
Proof.
  induction l as [|x l IH]; simpl; [reflexivity|].
  rewrite IH. reflexivity.
Qed.

Lemma techstack_of_string (s : jstring) :
  techstack_list (JStr s) = Normal (map trim (split_on COMMA [] s)).
Proof. unfold techstack_list. apply map_string_trim_strings. Qed.

(** X9. A techstack given as a string never makes the handler throw: it
    is cut at its commas into one piece more than it has commas, the
    pieces joined by commas give the string back, and each piece is stored
    trimmed. *)
Theorem techstack_string_split (s : jstring) :
  exists pieces,
    techstack_list (JStr s) = Normal (map trim pieces)
    /\ join COMMA pieces = s
    /\ Forall (fun x => ~ In COMMA x) pieces
    /\ List.length pieces = S (count_occ N.eq_dec s COMMA).
Proof.
  exists (split_on COMMA [] s).
  destruct (@split_on_spec COMMA s [] (fun H => H)) as (Hj & Hf & Hl).
  split; [apply techstack_of_string|]. repeat split; assumption.
Qed.

(** X10. A techstack given as an array of strings is stored element by
    element, trimmed; one that is neither a string nor an array (missing,
    null, a number, a boolean, an object) is stored as the empty list. *)
Theorem techstack_other_shapes :
  (forall l, techstack_list (JArr (map JStr l)) = Normal (map trim l))
  /\ (forall v, is_string v = false -> is_array v = false ->
                techstack_list v = Normal []).
Proof.
  split.
  - intros l. unfold techstack_list. apply map_string_trim_strings.
  - intros v Hs Ha. destruct v; try discriminate; reflexivity.
Qed.

Lemma techstack_other_shapes_witness :
  techstack_list (JArr [JStr (js " Go "); JStr (js "Rust")])
  = Normal [js "Go"; js "Rust"]
  /\ techstack_list (JNum (js "3")) = Normal [].
Proof.
  destruct techstack_other_shapes as [Ha Ho]. split.
  - apply (Ha [js " Go "; js "Rust"]).
  - apply Ho; reflexivity.
Defined.

Lemma drop_while_nil_iff (p : N -> bool) (s : jstring) :
  drop_while p s = [] <-> forallb p s = true.
Proof.
  induction s as [|c s IH]; simpl; [tauto|].
  destruct (p c); simpl; [exact IH|]. split; discriminate.
Qed.

Lemma trim_nil_iff (s : jstring) :
  trim s = [] <-> forallb is_space s = true.
Proof.
  unfold trim. split.
  - intros H. apply (f_equal (@rev N)) in H. rewrite rev_involutive in H.
    simpl in H. apply drop_while_nil_iff in H. rewrite forallb_rev in H.
    destruct (drop_while is_space s) as [|c t] eqn:E.
    + apply drop_while_nil_iff. exact E.
    + apply drop_while_head in E. simpl in H. rewrite E in H. discriminate.
  - intros H. apply drop_while_nil_iff in H. rewrite H. reflexivity.
Qed.

(** X8. The document a call adds takes role, type and level from the
    body as they are, its techstack from the body's techstack field, its
    cover image from the cover picker and its creation time from the
    clock. *)
Theorem POST_record_fields (env : Env) (req : Request) (db : Store)
    (r : Interview) :
  snd (POST env req db) = db ++ [r] ->
  role r = get (body_of env req) (js "role")
  /\ type r = get (body_of env req) (js "type")
  /\ level r = get (body_of env req) (js "level")
  /\ techstack_list (get (body_of env req) (js "techstack"))
     = Normal (techstack r)
  /\ coverImage r = getRandomInterviewCover env
  /\ createdAt r = toISOString env.
Proof.
  intros H. destruct (POST_store env req db) as [Hsame|Hadd].
  - rewrite Hsame in H. symmetry in H. exfalso. exact (@app_one_neq _ _ _ H).
  - destruct Hadd as (b & prompt & q & qs & stack & Hb & _ & _ & _ & Ht & HP).
    rewrite HP in H. simpl in H. apply app_inv_head in H.
    injection H as <-. simpl.
    unfold destructure in Hb.
    destruct (body_of env req); try discriminate; injection Hb as <-;
      simpl in *; repeat split; assumption.
Qed.

Lemma POST_record_fields_witness :
  option_map (fun r => (role r, techstack r, createdAt r))
    (hd_error
       (snd (POST (sample_env None sample_answer)
               (sample_request sample_body None None) [])))
  = Some (JStr (js "Backend"), [js "Go"; js "Rust"],
          js "2025-01-01T00:00:00.000Z").
Proof.
  assert (H : exists r,
             snd (POST (sample_env None sample_answer)
                    (sample_request sample_body None None) []) = [] ++ [r])
    by (eexists; reflexivity).
  destruct H as [r Hr].
  destruct (@POST_record_fields (sample_env None sample_answer)
              (sample_request sample_body None None) [] r Hr)
    as (H1 & _ & _ & H4 & _ & H6).
  assert (E : techstack_list
                (get (body_of (sample_env None sample_answer)
                        (sample_request sample_body None None))
                   (js "techstack"))
              = Normal [js "Go"; js "Rust"]) by reflexivity.
  rewrite E in H4. injection H4 as H4.
  rewrite Hr. cbn [app hd_error option_map]. rewrite H1, <- H4, H6.
  reflexivity.
Defined.

(** ** JSON.stringify and JSON.parse on arrays of strings *)

Local Open Scope N_scope.

Lemma hex_digit_value (d : N) :
  d < 16 -> JSON.hex_value (JSON.hex_digit d) = Some d.
Proof.
  intros H. unfold JSON.hex_value, JSON.hex_digit.
  destruct (N.ltb_spec d 10).
  - replace ((48 <=? 48 + d) && (48 + d <=? 57)) with true.
    + f_equal. lia.
    + symmetry. apply andb_true_iff. split; apply N.leb_le; lia.
  - replace ((48 <=? 87 + d) && (87 + d <=? 57)) with false.
    + replace ((65 <=? 87 + d) && (87 + d <=? 70)) with false.
      * replace ((97 <=? 87 + d) && (87 + d <=? 102)) with true.
        -- f_equal. lia.
        -- symmetry. apply andb_true_iff. split; apply N.leb_le; lia.
      * symmetry. apply andb_false_iff. right. apply N.leb_gt. lia.
    + symmetry. apply andb_false_iff. right. apply N.leb_gt. lia.
Qed.

Lemma hex_digits_value (c : N) :
  c < 65536 ->
  (((0 * 16 + c / 4096 mod 16) * 16 + c / 256 mod 16) * 16 + c / 16 mod 16)
  * 16 + c mod 16 = c.
Proof.
  intros H. zify. Z.to_euclidean_division_equations. lia.
Qed.

Lemma lex_cons (st : JSON.lexstate) (c : N) (t : jstring) :
  JSON.lex st (c :: t)
  = match JSON.lex_step st c with
    | Some (st', toks) =>
        match JSON.lex st' t with
        | Some more => Some (toks ++ more)
        | None => None
        end
    | None => None
    end.
Proof. reflexivity. Qed.

Lemma lex_unicode_step (acc : jstring) (read : nat) (v d : N) :
  d < 16 ->
  JSON.lex_step (JSON.LUnicode acc read v) (JSON.hex_digit d)
  = Some (match read with
          | 3%nat => JSON.LString ((v * 16 + d) :: acc)
          | _ => JSON.LUnicode acc (S read) (v * 16 + d)
          end, []).
Proof.
  intros H. unfold JSON.lex_step. rewrite hex_digit_value by exact H.
  destruct read as [|[|[|[|read]]]]; reflexivity.
Qed.

Lemma lex_string_unit (acc : jstring) (c : N) (more : jstring) :
  c < 65536 ->
  JSON.lex (JSON.LString acc) (JSON.quote_unit c ++ more)
  = JSON.lex (JSON.LString (c :: acc)) more.
Proof.
  intros Hc. unfold JSON.quote_unit.
  assert (Hesc : JSON.lex (JSON.LString acc) (JSON.unicode_escape c ++ more)
                 = JSON.lex (JSON.LString (c :: acc)) more).
  { unfold JSON.unicode_escape. cbn [app].
    rewrite lex_cons.
    change (JSON.lex_step (JSON.LString acc) 92)
      with (Some (JSON.LEscape acc, @nil JSON.token)).
    cbv iota beta. rewrite lex_cons.
    change (JSON.lex_step (JSON.LEscape acc) 117)
      with (Some (JSON.LUnicode acc 0 0, @nil JSON.token)).
    cbv iota beta.
    do 4 (rewrite lex_cons, lex_unicode_step
            by (apply N.mod_upper_bound; discriminate); cbv iota beta).
    rewrite hex_digits_value by exact Hc.
    destruct (JSON.lex (JSON.LString (c :: acc)) more); reflexivity. }
  destruct (N.eqb_spec c 8) as [->|H8].
  { cbn. destruct (JSON.lex (JSON.LString (8 :: acc)) more); reflexivity. }
  destruct (N.eqb_spec c 9) as [->|H9].
  { cbn. destruct (JSON.lex (JSON.LString (9 :: acc)) more); reflexivity. }
  destruct (N.eqb_spec c 10) as [->|H10].
  { cbn. destruct (JSON.lex (JSON.LString (10 :: acc)) more); reflexivity. }
  destruct (N.eqb_spec c 12) as [->|H12].
  { cbn. destruct (JSON.lex (JSON.LString (12 :: acc)) more); reflexivity. }
  destruct (N.eqb_spec c 13) as [->|H13].
  { cbn. destruct (JSON.lex (JSON.LString (13 :: acc)) more); reflexivity. }
  destruct (N.eqb_spec c 34) as [->|H34].
  { cbn. destruct (JSON.lex (JSON.LString (34 :: acc)) more); reflexivity. }
  destruct (N.eqb_spec c 92) as [->|H92].
  { cbn. destruct (JSON.lex (JSON.LString (92 :: acc)) more); reflexivity. }
  destruct ((c <? 32) || JSON.is_high_surrogate c || JSON.is_low_surrogate c)
    eqn:E; [exact Hesc|].
  apply orb_false_iff in E. destruct E as [E _].
  apply orb_false_iff in E. destruct E as [E _].
  cbn [app JSON.lex JSON.lex_step].
  destruct (N.eqb_spec c 34); [contradiction|].
  destruct (N.eqb_spec c 92); [contradiction|].
  rewrite E.
  destruct (JSON.lex (JSON.LString (c :: acc)) more); reflexivity.
Qed.

Lemma lex_surrogate (acc : jstring) (c : N) (more : jstring) :
  55296 <= c ->
  JSON.lex (JSON.LString acc) (c :: more)
  = JSON.lex (JSON.LString (c :: acc)) more.
Proof.
  intros H. cbn [JSON.lex JSON.lex_step].
  destruct (N.eqb_spec c 34); [lia|].
  destruct (N.eqb_spec c 92); [lia|].
  destruct (N.ltb_spec c 32); [lia|].
  destruct (JSON.lex (JSON.LString (c :: acc)) more); reflexivity.
Qed.

(** The lexer reads back what QuoteJSONString wrote. *)
Lemma lex_quote_units (n : nat) :
  forall (s acc more : jstring),
    (List.length s <= n)%nat ->
    utf16 s ->
    JSON.lex (JSON.LString acc) (JSON.quote_units s ++ 34 :: more)
    = match JSON.lex JSON.LIdle more with
      | Some toks => Some (JSON.TString (rev acc ++ s) :: toks)
      | None => None
      end.
Proof.
  induction n as [|n IH]; intros s acc more Hn Hs.
  - destruct s; [|simpl in Hn; lia].
    cbn. rewrite List.app_nil_r. reflexivity.
  - destruct s as [|c t].
    { cbn. rewrite List.app_nil_r. reflexivity. }
    inversion Hs as [|? ? Hc Ht]; subst.
    assert (Hstep : JSON.lex (JSON.LString acc)
                      (JSON.quote_unit c ++ JSON.quote_units t ++ 34 :: more)
                    = match JSON.lex JSON.LIdle more with
                      | Some toks =>
                          Some (JSON.TString (rev acc ++ c :: t) :: toks)
                      | None => None
                      end).
    { rewrite lex_string_unit by exact Hc.
      rewrite IH; [|simpl in Hn; lia | exact Ht].
      simpl rev. rewrite <- app_assoc. reflexivity. }
    cbn [JSON.quote_units]. destruct t as [|d t'].
    { cbn [JSON.quote_units app] in Hstep. exact Hstep. }
    destruct (JSON.is_high_surrogate c && JSON.is_low_surrogate d) eqn:Ep.
    + apply andb_true_iff in Ep. destruct Ep as [Eh El].
      unfold JSON.is_high_surrogate in Eh. unfold JSON.is_low_surrogate in El.
      apply andb_true_iff in Eh. destruct Eh as [Eh _]. apply N.leb_le in Eh.
      apply andb_true_iff in El. destruct El as [El _]. apply N.leb_le in El.
      cbn [app]. rewrite lex_surrogate by exact Eh.
      rewrite lex_surrogate by lia.
      inversion Ht as [|? ? Hd Ht']; subst.
      rewrite IH; [|simpl in Hn; lia | exact Ht'].
      simpl rev. rewrite <- !app_assoc. reflexivity.
    + rewrite <- app_assoc. exact Hstep.
Qed.

Lemma hex_unit_value (d : N * bool) :
  fst d < 16 -> JSON.hex_value (hex_unit d) = Some (fst d).
Proof.
  destruct d as [d u]. cbn [fst snd]. intros H.
  unfold JSON.hex_value, hex_unit. cbn [fst snd].
  destruct (N.ltb_spec d 10).
  - replace ((48 <=? 48 + d) && (48 + d <=? 57)) with true.
    + f_equal. lia.
    + symmetry. apply andb_true_iff. split; apply N.leb_le; lia.
  - destruct u.
    + replace ((48 <=? 55 + d) && (55 + d <=? 57)) with false.
      * replace ((65 <=? 55 + d) && (55 + d <=? 70)) with true.
        -- f_equal. lia.
        -- symmetry. apply andb_true_iff. split; apply N.leb_le; lia.
      * symmetry. apply andb_false_iff. right. apply N.leb_gt. lia.
    + replace ((48 <=? 87 + d) && (87 + d <=? 57)) with false.
      * replace ((65 <=? 87 + d) && (87 + d <=? 70)) with false.
        -- replace ((97 <=? 87 + d) && (87 + d <=? 102)) with true.
           ++ f_equal. lia.
           ++ symmetry. apply andb_true_iff. split; apply N.leb_le; lia.
        -- symmetry. apply andb_false_iff. right. apply N.leb_gt. lia.
      * symmetry. apply andb_false_iff. right. apply N.leb_gt. lia.
Qed.

Lemma lex_hex_step (acc : jstring) (read : nat) (v : N) (d : N * bool) :
  fst d < 16 ->
  JSON.lex_step (JSON.LUnicode acc read v) (hex_unit d)
  = Some (match read with
          | 3%nat => JSON.LString ((v * 16 + fst d) :: acc)
          | _ => JSON.LUnicode acc (S read) (v * 16 + fst d)
          end, []).
Proof.
  intros H. unfold JSON.lex_step. rewrite hex_unit_value by exact H.
  destruct read as [|[|[|[|read]]]]; reflexivity.
Qed.

Lemma lex_escape_value (acc : jstring) (c v : N) :
  escape_value c = Some v ->
  JSON.lex_escape acc c = Some (JSON.LString (v :: acc), []).
Proof.
  unfold escape_value, JSON.lex_escape.
  destruct ((c =? 34) || (c =? 92) || (c =? 47)).
  { intros H. injection H as <-. reflexivity. }
  destruct (c =? 98); [intros H; injection H as <-; reflexivity|].
  destruct (c =? 102); [intros H; injection H as <-; reflexivity|].
  destruct (c =? 110); [intros H; injection H as <-; reflexivity|].
  destruct (c =? 114); [intros H; injection H as <-; reflexivity|].
  destruct (c =? 116); [intros H; injection H as <-; reflexivity|].
  discriminate.
Qed.

Lemma lex_nothing (st : JSON.lexstate) (t : jstring) :
  match JSON.lex st t with
  | Some more => Some ([] ++ more)
  | None => None
  end = JSON.lex st t.
Proof. destruct (JSON.lex st t); reflexivity. Qed.

(** The lexer reads a written character as the code unit it denotes. *)
Lemma lex_written (w : written_char) (acc more : jstring) :
  well_written w ->
  JSON.lex (JSON.LString acc) (written_text w ++ more)
  = JSON.lex (JSON.LString (written_value w :: acc)) more.
Proof.
  destruct w as [c|c|d1 d2 d3 d4]; cbn [well_written written_text
                                        written_value app].
  - intros (H1 & H2 & H3). rewrite lex_cons. cbn [JSON.lex_step].
    destruct (N.eqb_spec c 34); [contradiction|].
    destruct (N.eqb_spec c 92); [contradiction|].
    destruct (N.ltb_spec c 32); [lia|].
    apply lex_nothing.
  - intros H. destruct (escape_value c) as [v|] eqn:E; [|contradiction].
    rewrite lex_cons.
    change (JSON.lex_step (JSON.LString acc) 92)
      with (Some (JSON.LEscape acc, @nil JSON.token)).
    cbv iota beta. rewrite lex_cons.
    change (JSON.lex_step (JSON.LEscape acc) c) with (JSON.lex_escape acc c).
    rewrite (lex_escape_value acc c E). cbv iota beta.
    rewrite !lex_nothing. reflexivity.
  - intros (H1 & H2 & H3 & H4).
    rewrite lex_cons.
    change (JSON.lex_step (JSON.LString acc) 92)
      with (Some (JSON.LEscape acc, @nil JSON.token)).
    cbv iota beta. rewrite lex_cons.
    change (JSON.lex_step (JSON.LEscape acc) 117)
      with (Some (JSON.LUnicode acc 0 0, @nil JSON.token)).
    cbv iota beta.
    rewrite lex_cons, lex_hex_step by exact H1. cbv iota beta.
    rewrite lex_cons, lex_hex_step by exact H2. cbv iota beta.
    rewrite lex_cons, lex_hex_step by exact H3. cbv iota beta.
    rewrite lex_cons, lex_hex_step by exact H4. cbv iota beta.
    rewrite !lex_nothing. reflexivity.
Qed.

Lemma lex_written_units (ws : list written_char) :
  forall acc more,
    Forall well_written ws ->
    JSON.lex (JSON.LString acc) (List.concat (map written_text ws) ++ 34 :: more)
    = match JSON.lex JSON.LIdle more with
      | Some toks => Some (JSON.TString (rev acc ++ literal_value ws) :: toks)
      | None => None
      end.
Proof.
  induction ws as [|w ws IH]; intros acc more Hws.
  - cbn. rewrite List.app_nil_r. reflexivity.
  - inversion Hws as [|? ? Hw Hws']; subst.
    cbn [map List.concat]. rewrite <- app_assoc.
    rewrite lex_written by exact Hw.
    rewrite IH by exact Hws'.
    cbn [rev literal_value map]. rewrite <- app_assoc. reflexivity.
Qed.

Lemma lex_literal (ws : list written_char) (more : jstring) :
  Forall well_written ws ->
  JSON.lex JSON.LIdle (literal_text ws ++ more)
  = match JSON.lex JSON.LIdle more with
    | Some toks => Some (JSON.TString (literal_value ws) :: toks)
    | None => None
    end.
Proof.
  intros Hws. unfold literal_text. rewrite <- !app_assoc. cbn [app].
  rewrite lex_cons.
  change (JSON.lex_step JSON.LIdle 34)
    with (Some (JSON.LString [], @nil JSON.token)).
  cbv iota beta. rewrite lex_written_units by exact Hws.
  destruct (JSON.lex JSON.LIdle more); reflexivity.
Qed.

(** The lexer skips white space between the tokens. *)
Lemma lex_json_space (w more : jstring) :
  json_space w -> JSON.lex JSON.LIdle (w ++ more) = JSON.lex JSON.LIdle more.
Proof.
  induction w as [|c w IH]; intros Hw; [reflexivity|].
  inversion Hw as [|? ? Hc Hw']; subst.
  cbn [app]. rewrite lex_cons.
  change (JSON.lex_step JSON.LIdle c) with (JSON.lex_idle c).
  unfold JSON.lex_idle. rewrite Hc. cbv iota beta.
  rewrite lex_nothing. apply IH. exact Hw'.
Qed.

Lemma lex_elements (es : list array_element) :
  forall first more,
    Forall well_formed_element es ->
    JSON.lex JSON.LIdle (elements_text es first ++ more)
    = match JSON.lex JSON.LIdle more with
      | Some toks =>
          Some (string_tokens (map (fun e => literal_value (string_literal e)) es)
                  first ++ toks)
      | None => None
      end.
Proof.
  induction es as [|e es IH]; intros first more Hes.
  - simpl. destruct (JSON.lex JSON.LIdle more); reflexivity.
  - inversion Hes as [|? ? (Hb & Hl & Ha) Hes']; subst.
    cbn [elements_text map string_tokens].
    assert (Hbody :
             JSON.lex JSON.LIdle
               ((space_before e ++ literal_text (string_literal e) ++ space_after e
                 ++ elements_text es false) ++ more)
             = match JSON.lex JSON.LIdle more with
               | Some toks =>
                   Some (JSON.TString (literal_value (string_literal e))
                         :: string_tokens
                              (map (fun e => literal_value (string_literal e)) es)
                              false ++ toks)
               | None => None
               end).
    { rewrite <- !app_assoc.
      rewrite lex_json_space by exact Hb.
      rewrite lex_literal by exact Hl.
      rewrite lex_json_space by exact Ha.
      rewrite IH by exact Hes'.
      destruct (JSON.lex JSON.LIdle more); reflexivity. }
    destruct first; cbn [app].
    + exact Hbody.
    + rewrite lex_cons.
      change (JSON.lex_step JSON.LIdle 44)
        with (Some (JSON.LIdle, [JSON.TComma])).
      cbv iota beta. cbn [app] in Hbody. rewrite Hbody.
      destruct (JSON.lex JSON.LIdle more); reflexivity.
Qed.

Local Close Scope N_scope.

Lemma parse_string_tokens (cn : jstring -> jstring) (qs : list jstring) :
  forall acc,
    JSON.parse_tokens cn [JSON.FArray acc] JSON.ECommaOrEnd
      (string_tokens qs false ++ [JSON.TRBracket])
    = Some (JArr (rev acc ++ map JStr qs)).
Proof.
  induction qs as [|q qs IH]; intros acc.
  - cbn. rewrite List.app_nil_r. reflexivity.
  - cbn [string_tokens app JSON.parse_tokens JSON.parse_step
         JSON.parse_value JSON.deliver].
    rewrite IH. simpl rev. rewrite <- app_assoc. reflexivity.
Qed.

Lemma parse_string_array_tokens (cn : jstring -> jstring)
    (qs : list jstring) :
  JSON.parse_tokens cn [] JSON.EValue
    (JSON.TLBracket :: string_tokens qs true ++ [JSON.TRBracket])
  = Some (JArr (map JStr qs)).
Proof.
  destruct qs as [|q qs]; [reflexivity|].
  cbn [string_tokens app JSON.parse_tokens JSON.parse_step JSON.parse_value
       JSON.deliver].
  rewrite parse_string_tokens. reflexivity.
Qed.

(** JSON.parse on the text of an array of strings, however it is spaced
    and whichever escapes it uses. *)
Lemma parse_string_array_text (cn : jstring -> jstring)
    (lead gap trail : jstring) (es : list array_element) :
  json_space lead -> json_space gap -> json_space trail ->
  Forall well_formed_element es ->
  JSON.parse cn (string_array_text lead gap es trail)
  = Normal (JArr (map (fun e => JStr (literal_value (string_literal e))) es)).
Proof.
  intros Hl Hg Ht Hes. unfold JSON.parse, string_array_text.
  rewrite lex_json_space by exact Hl. cbn [app].
  rewrite lex_cons.
  change (JSON.lex_step JSON.LIdle 91%N)
    with (Some (JSON.LIdle, [JSON.TLBracket])).
  cbv iota beta.
  rewrite lex_json_space by exact Hg.
  rewrite lex_elements by exact Hes.
  rewrite lex_cons.
  change (JSON.lex_step JSON.LIdle 93%N)
    with (Some (JSON.LIdle, [JSON.TRBracket])).
  cbv iota beta.
  rewrite <- (List.app_nil_r trail), lex_json_space by exact Ht.
  cbn [JSON.lex JSON.lex_end app].
  rewrite parse_string_array_tokens, map_map. reflexivity.
Qed.

Lemma filter_nonempty_trim (qs : list jstring) :
  filter nonempty (map trim qs)
  = map trim (filter (fun q => negb (blank q)) qs).
Proof.
  induction qs as [|q qs IH]; simpl; [reflexivity|].
  unfold blank at 1. destruct (forallb is_space q) eqn:E; simpl.
  - apply trim_nil_iff in E. rewrite E. simpl. exact IH.
  - destruct (trim q) as [|c t] eqn:Et.
    + apply trim_nil_iff in Et. congruence.
    + simpl. rewrite IH. reflexivity.
Qed.

(** X17. When the model's text is a JSON text of an array of strings,
    with any white space around the brackets, the commas and the strings,
    and with the strings written with any of the escapes of JSON,
    JSON.parse yields the array, the strict path succeeds and the
    questions are those strings trimmed, in order, without the ones that
    white space alone makes up; duplicates are kept and the fallback does
    not run. *)
Theorem strict_path_string_array (cn : jstring -> jstring)
    (lead gap trail : jstring) (es : list array_element) :
  json_space lead -> json_space gap -> json_space trail ->
  Forall well_formed_element es ->
  let text := string_array_text lead gap es trail in
  let qs := map (fun e => literal_value (string_literal e)) es in
  JSON.parse cn text = Normal (JArr (map JStr qs))
  /\ strict_parse cn (JStr text)
     = Normal (map trim (filter (fun q => negb (blank q)) qs))
  /\ parse_questions cn (JStr text)
     = Normal (map trim (filter (fun q => negb (blank q)) qs)).
Proof.
  intros Hl Hg Ht Hes text qs.
  assert (Hp : JSON.parse cn text = Normal (JArr (map JStr qs))).
  { unfold text, qs. rewrite map_map.
    apply parse_string_array_text; assumption. }
  assert (Hs : strict_parse cn (JStr text)
               = Normal (map trim (filter (fun q => negb (blank q)) qs))).
  { unfold strict_parse. cbn [ToString bind].
    rewrite Hp. cbn [bind is_array items_of].
    rewrite map_string_trim_strings. cbn [bind].
    rewrite filter_nonempty_trim. reflexivity. }
  split; [exact Hp|]. split; [exact Hs|].
  unfold parse_questions. rewrite Hs.
  assert (Hne : truthy (JStr text) = true).
  { unfold text, string_array_text. destruct lead; reflexivity. }
  rewrite Hne. reflexivity.
Qed.

Lemma strict_path_string_array_witness :
  string_array_text [LF] [] prompt_format_elements []
  = [LF] ++ jsq "[' Tell me about \'Go\'', '  ', 'Why \u476F?' ]"
  /\ parse_questions (fun l => l)
       (JStr ([LF] ++ jsq "[' Tell me about \'Go\'', '  ', 'Why \u476F?' ]"))
     = Normal [jsq "Tell me about 'Go'"; js "Why " ++ [18287%N] ++ js "?"].
Proof.
  split; [reflexivity|].
  apply (@strict_path_string_array (fun l => l) [LF] [] []
           prompt_format_elements).
  - repeat constructor.
  - constructor.
  - constructor.
  - unfold prompt_format_elements, well_formed_element, json_space.
    repeat constructor; cbn; try lia; try discriminate.
Defined.

(** X19. When the text-generation call resolves with a value that is no
    object, no array and no string (undefined, null, a boolean, a number),
    no text is extracted and the handler answers 502 without storing
    anything. *)
Theorem POST_primitive_model_result (env : Env) (req : Request) (db : Store)
    (b : Body.t) (prompt : jstring) (llm : JValue) :
  destructure (body_of env req) = Normal b ->
  secret_refused env req = false ->
  build_prompt b = Normal prompt ->
  generateText env prompt = Normal llm ->
  is_string llm = false ->
  is_array llm = false ->
  (forall props, llm <> JObj props) ->
  POST env req db = (Responded no_questions, db).
Proof.
  intros Hb Hs Hp Hg H1 H2 H3. unfold POST. rewrite request_body_normal, Hb.
  unfold POST_try, before_model. rewrite Hs, Hp. simpl.
  unfold ask_model. rewrite Hg. simpl.
  destruct llm; try discriminate; try reflexivity.
  exfalso. eapply H3. reflexivity.
Qed.

Lemma POST_primitive_model_result_witness :
  POST (model_env JNull) (sample_request sample_body None None) []
  = (Responded no_questions, []).
Proof.
  eapply (@POST_primitive_model_result (model_env JNull)
            (sample_request sample_body None None) []);
    try reflexivity.
  intros props H. discriminate.
Defined.

(** ** Number literals *)

Local Open Scope N_scope.

Ltac decide_units :=
  repeat match goal with
         | |- context [N.eqb ?a ?b] => destruct (N.eqb_spec a b); try lia
         | |- context [N.leb ?a ?b] => destruct (N.leb_spec a b); try lia
         | |- context [N.ltb ?a ?b] => destruct (N.ltb_spec a b); try lia
         end.

Lemma lex_idle_number (c : N) (st : JSON.numstate) :
  num_start c = Some st ->
  JSON.lex_idle c = Some (JSON.LNumber st [c], []).
Proof.
  unfold num_start, JSON.lex_idle, JSON.is_json_space, is_digit.
  destruct (N.eqb_spec c 45) as [->|H45]; [intros H; injection H as <-; reflexivity|].
  destruct (N.eqb_spec c 48) as [->|H48]; [intros H; injection H as <-; reflexivity|].
  destruct ((48 <=? c) && (c <=? 57)) eqn:E; [|discriminate].
  intros H. injection H as <-.
  apply andb_true_iff in E. destruct E as [E1 E2].
  apply N.leb_le in E1. apply N.leb_le in E2.
  decide_units; reflexivity.
Qed.

Lemma lex_number_next (st st' : JSON.numstate) (acc : jstring) (c : N) :
  num_next st c = Some st' ->
  JSON.lex_number st acc c = Some (JSON.LNumber st' (c :: acc), []).
Proof.
  unfold num_next, JSON.lex_number. destruct st;
    repeat match goal with
           | |- context [if ?b then _ else _] =>
               destruct b; try discriminate;
               try (intros H; injection H as <-; reflexivity)
           end.
Qed.

Lemma lex_idle_delimiter (d : N) :
  d = 44 \/ d = 93 \/ d = 125 ->
  exists tok, JSON.lex_idle d = Some (JSON.LIdle, [tok]).
Proof. intros [-> | [-> | ->]]; eexists; reflexivity. Qed.

Lemma lex_number_stop (st : JSON.numstate) (acc : jstring) (d : N) :
  num_complete st = true ->
  d = 44 \/ d = 93 \/ d = 125 ->
  JSON.lex_number st acc d = JSON.lex_number_end acc d.
Proof.
  intros Hst Hd. destruct st; try discriminate;
    destruct Hd as [-> | [-> | ->]]; reflexivity.
Qed.

Lemma lex_number_run (t : jstring) :
  forall st st' acc more,
    num_run st t = Some st' ->
    num_complete st' = true ->
    delimited more ->
    JSON.lex (JSON.LNumber st acc) (t ++ more)
    = match JSON.lex JSON.LIdle more with
      | Some toks => Some (JSON.TNumber (rev acc ++ t) :: toks)
      | None => None
      end.
Proof.
  induction t as [|c t IH]; intros st st' acc more Hrun Hst Hmore.
  - simpl in Hrun. injection Hrun as <-. rewrite List.app_nil_r. cbn [app].
    destruct more as [|d more].
    + cbn. destruct st; try discriminate; reflexivity.
    + simpl in Hmore. rewrite !lex_cons. cbn [JSON.lex_step].
      rewrite lex_number_stop by assumption.
      unfold JSON.lex_number_end.
      destruct (@lex_idle_delimiter d Hmore) as [tok ->].
      destruct (JSON.lex JSON.LIdle more); reflexivity.
  - simpl in Hrun. destruct (num_next st c) as [st1|] eqn:E; [|discriminate].
    cbn [app]. rewrite lex_cons. cbn [JSON.lex_step].
    rewrite (@lex_number_next st st1 acc c E). cbv iota beta.
    rewrite (IH st1 st' (c :: acc) more Hrun Hst Hmore).
    simpl rev. rewrite <- app_assoc.
    destruct (JSON.lex JSON.LIdle more); reflexivity.
Qed.

Lemma lex_number_literal (t more : jstring) :
  number_literal t = true ->
  delimited more ->
  JSON.lex JSON.LIdle (t ++ more)
  = match JSON.lex JSON.LIdle more with
    | Some toks => Some (JSON.TNumber t :: toks)
    | None => None
    end.
Proof.
  unfold number_literal. destruct t as [|c t]; [discriminate|].
  destruct (num_start c) as [st|] eqn:Es; [|discriminate].
  destruct (num_run st t) as [st'|] eqn:Er; [|discriminate].
  intros Hst Hmore. cbn [app]. rewrite lex_cons.
  change (JSON.lex_step JSON.LIdle c) with (JSON.lex_idle c).
  rewrite (@lex_idle_number c st Es). cbv iota beta.
  rewrite (@lex_number_run t st st' [c] more Er Hst Hmore).
  destruct (JSON.lex JSON.LIdle more); reflexivity.
Qed.

Lemma number_literal_finite (t : jstring) :
  number_literal t = true -> JSON.is_finite_text t = true.
Proof.
  intros H. unfold JSON.is_finite_text.
  destruct (jstring_eqb t (js "NaN")) eqn:E1.
  { apply jstring_eqb_eq in E1. subst. discriminate. }
  destruct (jstring_eqb t (js "Infinity")) eqn:E2.
  { apply jstring_eqb_eq in E2. subst. discriminate. }
  destruct (jstring_eqb t (js "-Infinity")) eqn:E3.
  { apply jstring_eqb_eq in E3. subst. discriminate. }
  reflexivity.
Qed.

Local Close Scope N_scope.

(** ** JSON.parse after JSON.stringify *)

Lemma serialize_array (items : list JValue) :
  JSON.serialize (JArr items)
  = Some ([91%N] ++ array_text items true ++ [93%N]).
Proof. reflexivity. Qed.

Lemma serialize_object (props : list (jstring * JValue)) :
  JSON.serialize (JObj props)
  = Some ([123%N] ++ object_text props true ++ [125%N]).
Proof. reflexivity. Qed.

Lemma tokens_of_array (items : list JValue) :
  tokens_of (JArr items)
  = JSON.TLBracket :: array_tokens items true ++ [JSON.TRBracket].
Proof. reflexivity. Qed.

Lemma tokens_of_object (props : list (jstring * JValue)) :
  tokens_of (JObj props)
  = JSON.TLBrace :: object_tokens props true ++ [JSON.TRBrace].
Proof. reflexivity. Qed.

Lemma plain_array (cn : jstring -> jstring) (items : list JValue) :
  plain cn (JArr items) <-> Forall (plain cn) items.
Proof.
  cbn [plain]. induction items as [|x items IH].
  - split; [constructor | exact (fun _ => I)].
  - rewrite IH. split.
    + intros [H1 H2]. constructor; assumption.
    + intros H. inversion H. split; assumption.
Qed.

Lemma plain_object (cn : jstring -> jstring)
    (props : list (jstring * JValue)) :
  plain cn (JObj props)
  <-> NoDup (map fst props)
      /\ Forall (fun kv => utf16 (fst kv) /\ plain cn (snd kv)) props.
Proof.
  cbn [plain].
  match goal with
  | |- _ /\ ?a <-> _ /\ ?b => assert (H : a <-> b)
  end; [|rewrite H; reflexivity].
  induction props as [|[k x] props IH].
  - split; [constructor | exact (fun _ => I)].
  - rewrite IH. split.
    + intros (H1 & H2 & H3). constructor; [split|]; assumption.
    + intros H. inversion H as [|? ? [H1 H2] H3]. repeat split; assumption.
Qed.

Lemma lex_quote (q more : jstring) :
  utf16 q ->
  JSON.lex JSON.LIdle (JSON.quote q ++ more)
  = match JSON.lex JSON.LIdle more with
    | Some toks => Some (JSON.TString q :: toks)
    | None => None
    end.
Proof.
  intros Hq. unfold JSON.quote. rewrite <- !app_assoc. cbn [app].
  rewrite lex_cons.
  change (JSON.lex_step JSON.LIdle 34%N)
    with (Some (JSON.LString [], @nil JSON.token)).
  cbv iota beta. rewrite (@lex_quote_units (List.length q));
    [|lia | exact Hq].
  destruct (JSON.lex JSON.LIdle more); reflexivity.
Qed.

Lemma lex_unit (c : N) (tok : JSON.token) (more : jstring) :
  JSON.lex_idle c = Some (JSON.LIdle, [tok]) ->
  JSON.lex JSON.LIdle (c :: more)
  = match JSON.lex JSON.LIdle more with
    | Some toks => Some (tok :: toks)
    | None => None
    end.
Proof.
  intros H. rewrite lex_cons.
  change (JSON.lex_step JSON.LIdle c) with (JSON.lex_idle c). rewrite H.
  destruct (JSON.lex JSON.LIdle more); reflexivity.
Qed.

Lemma delimited_array_rest (t : list JValue) (m : jstring) :
  delimited (array_text t false ++ 93%N :: m).
Proof. destruct t; simpl; auto. Qed.

Lemma lex_array_text (cn : jstring -> jstring) (items : list JValue)
    (m : jstring) :
  Forall (fun v => plain cn v -> lexes_back v) items ->
  Forall (plain cn) items ->
  forall first,
    JSON.lex JSON.LIdle (array_text items first ++ 93%N :: m)
    = match JSON.lex JSON.LIdle (93%N :: m) with
      | Some toks => Some (array_tokens items first ++ toks)
      | None => None
      end.
Proof.
  intros HL Hp. induction items as [|x t IH]; intros first.
  - cbn [array_text array_tokens app].
    destruct (JSON.lex JSON.LIdle (93%N :: m)); reflexivity.
  - inversion HL as [|? ? Hx HL']; subst.
    inversion Hp as [|? ? Hpx Hp']; subst.
    destruct (Hx Hpx _ (delimited_array_rest t m)) as (sx & Hsx & Hlex).
    cbn [array_text array_tokens]. rewrite Hsx.
    assert (Hbody : JSON.lex JSON.LIdle
                      ((sx ++ array_text t false) ++ 93%N :: m)
                    = match JSON.lex JSON.LIdle (93%N :: m) with
                      | Some toks =>
                          Some ((tokens_of x ++ array_tokens t false) ++ toks)
                      | None => None
                      end).
    { rewrite <- app_assoc, Hlex, (IH HL' Hp' false).
      destruct (JSON.lex JSON.LIdle (93%N :: m)); [|reflexivity].
      rewrite app_assoc. reflexivity. }
    destruct first; cbn [app].
    + exact Hbody.
    + rewrite (@lex_unit 44%N JSON.TComma) by reflexivity.
      rewrite Hbody.
      destruct (JSON.lex JSON.LIdle (93%N :: m)); reflexivity.
Qed.

Lemma delimited_object_rest (cn : jstring -> jstring)
    (t : list (jstring * JValue)) (m : jstring) :
  Forall (fun kv => utf16 (fst kv) /\ plain cn (snd kv)) t ->
  Forall (fun kv => plain cn (snd kv) -> lexes_back (snd kv)) t ->
  delimited (object_text t false ++ 125%N :: m).
Proof.
  intros Hp HL. destruct t as [|[k x] t]; [simpl; auto|].
  inversion Hp as [|? ? [_ Hx] _]; subst.
  inversion HL as [|? ? Hl _]; subst.
  destruct (Hl Hx [] I) as (sx & Hsx & _).
  cbn [object_text]. simpl in Hsx. rewrite Hsx. simpl. auto.
Qed.

Lemma lex_object_text (cn : jstring -> jstring)
    (props : list (jstring * JValue)) (m : jstring) :
  Forall (fun kv => plain cn (snd kv) -> lexes_back (snd kv)) props ->
  Forall (fun kv => utf16 (fst kv) /\ plain cn (snd kv)) props ->
  forall first,
    JSON.lex JSON.LIdle (object_text props first ++ 125%N :: m)
    = match JSON.lex JSON.LIdle (125%N :: m) with
      | Some toks => Some (object_tokens props first ++ toks)
      | None => None
      end.
Proof.
  intros HL Hp. induction props as [|[k x] t IH]; intros first.
  - cbn [object_text object_tokens app].
    destruct (JSON.lex JSON.LIdle (125%N :: m)); reflexivity.
  - inversion HL as [|? ? Hx HL']; subst.
    inversion Hp as [|? ? [Hk Hpx] Hp']; subst.
    simpl in Hx, Hk, Hpx.
    destruct (Hx Hpx _ (@delimited_object_rest cn t m Hp' HL'))
      as (sx & Hsx & Hlex).
    cbn [object_text object_tokens]. rewrite Hsx.
    assert (Hbody : JSON.lex JSON.LIdle
                      ((JSON.quote k ++ [58%N] ++ sx ++ object_text t false)
                       ++ 125%N :: m)
                    = match JSON.lex JSON.LIdle (125%N :: m) with
                      | Some toks =>
                          Some ((JSON.TString k :: JSON.TColon
                                 :: tokens_of x ++ object_tokens t false)
                                ++ toks)
                      | None => None
                      end).
    { rewrite <- !app_assoc. rewrite lex_quote by exact Hk. cbn [app].
      rewrite (@lex_unit 58%N JSON.TColon) by reflexivity.
      rewrite Hlex, (IH HL' Hp' false).
      destruct (JSON.lex JSON.LIdle (125%N :: m)); [|reflexivity].
      cbn [app]. rewrite <- app_assoc. reflexivity. }
    destruct first; cbn [app].
    + exact Hbody.
    + rewrite (@lex_unit 44%N JSON.TComma) by reflexivity.
      cbn [app] in Hbody. rewrite Hbody.
      destruct (JSON.lex JSON.LIdle (125%N :: m)); reflexivity.
Qed.

Lemma plain_lexes_back (cn : jstring -> jstring) (v : JValue) :
  plain cn v -> lexes_back v.
Proof.
  induction v as [| |b|t|s|items IH|props IH] using JValue_nested_ind;
    intros Hp more Hmore.
  - destruct Hp.
  - exists (js "null"). split; [reflexivity|].
    cbn. destruct (JSON.lex JSON.LIdle more); reflexivity.
  - destruct b.
    + exists (js "true"). split; [reflexivity|].
      cbn. destruct (JSON.lex JSON.LIdle more); reflexivity.
    + exists (js "false"). split; [reflexivity|].
      cbn. destruct (JSON.lex JSON.LIdle more); reflexivity.
  - destruct Hp as [Hn _]. exists t. split.
    + cbn [JSON.serialize]. rewrite (@number_literal_finite t Hn). reflexivity.
    + apply lex_number_literal; assumption.
  - exists (JSON.quote s). split; [reflexivity|].
    apply lex_quote. exact Hp.
  - apply plain_array in Hp. eexists. split; [apply serialize_array|].
    rewrite tokens_of_array. rewrite <- !app_assoc. cbn [app].
    rewrite (@lex_unit 91%N JSON.TLBracket) by reflexivity.
    rewrite (@lex_array_text cn items more IH Hp true).
    rewrite (@lex_unit 93%N JSON.TRBracket) by reflexivity.
    destruct (JSON.lex JSON.LIdle more); [|reflexivity].
    rewrite <- app_assoc. reflexivity.
  - apply plain_object in Hp. destruct Hp as [_ Hp].
    eexists. split; [apply serialize_object|].
    rewrite tokens_of_object. rewrite <- !app_assoc. cbn [app].
    rewrite (@lex_unit 123%N JSON.TLBrace) by reflexivity.
    rewrite (@lex_object_text cn props more IH Hp true).
    rewrite (@lex_unit 125%N JSON.TRBrace) by reflexivity.
    destruct (JSON.lex JSON.LIdle more); [|reflexivity].
    rewrite <- app_assoc. reflexivity.
Qed.

Section ParseBack.
Variable cn : jstring -> jstring.

Lemma set_prop_new (k : jstring) (x : JValue)
    (acc : list (jstring * JValue)) :
  ~ In k (map fst acc) -> set_prop k x acc = acc ++ [(k, x)].
Proof.
  induction acc as [|[k' x'] acc IH]; intros H; [reflexivity|].
  cbn [set_prop]. rewrite jstring_eqb_neq.
  - cbn [app]. f_equal. apply IH. intros Hin. apply H. right. exact Hin.
  - intros ->. apply H. left. reflexivity.
Qed.

Lemma parse_array_tokens (items : list JValue)
    (stack : list JSON.frame) (rest : list JSON.token) :
  Forall (fun v => plain cn v -> parses_back cn v) items ->
  Forall (plain cn) items ->
  forall acc (first : bool),
    JSON.parse_tokens cn (JSON.FArray acc :: stack)
      (if first then JSON.EValueOrEnd else JSON.ECommaOrEnd)
      (array_tokens items first ++ JSON.TRBracket :: rest)
    = match JSON.deliver (JArr (rev acc ++ items)) stack with
      | Some (stack', e') => JSON.parse_tokens cn stack' e' rest
      | None => None
      end.
Proof.
  intros HL Hp. induction items as [|x t IH]; intros acc first.
  - rewrite List.app_nil_r. destruct first; reflexivity.
  - inversion HL as [|? ? Hx HL']; subst.
    inversion Hp as [|? ? Hpx Hp']; subst.
    cbn [array_tokens]. destruct first; cbn [app].
    + rewrite <- app_assoc.
      rewrite (Hx Hpx (JSON.FArray acc :: stack) JSON.EValueOrEnd)
        by (right; reflexivity).
      cbn [JSON.deliver]. rewrite (IH HL' Hp' (x :: acc) false).
      simpl rev. rewrite <- app_assoc. reflexivity.
    + cbn [JSON.parse_tokens JSON.parse_step]. rewrite <- app_assoc.
      rewrite (Hx Hpx (JSON.FArray acc :: stack) JSON.EValue)
        by (left; reflexivity).
      cbn [JSON.deliver]. rewrite (IH HL' Hp' (x :: acc) false).
      simpl rev. rewrite <- app_assoc. reflexivity.
Qed.

Lemma parse_object_tokens (props : list (jstring * JValue))
    (stack : list JSON.frame) (rest : list JSON.token) :
  Forall (fun kv => plain cn (snd kv) -> parses_back cn (snd kv)) props ->
  Forall (fun kv => utf16 (fst kv) /\ plain cn (snd kv)) props ->
  forall acc (first : bool),
    NoDup (map fst acc ++ map fst props) ->
    JSON.parse_tokens cn (JSON.FObject acc None :: stack)
      (if first then JSON.EKeyOrEnd else JSON.ECommaOrEnd)
      (object_tokens props first ++ JSON.TRBrace :: rest)
    = match JSON.deliver (JObj (acc ++ props)) stack with
      | Some (stack', e') => JSON.parse_tokens cn stack' e' rest
      | None => None
      end.
Proof.
  intros HL Hp. induction props as [|[k x] t IH]; intros acc first Hnd.
  - rewrite List.app_nil_r. destruct first; reflexivity.
  - inversion HL as [|? ? Hx HL']; subst.
    inversion Hp as [|? ? [_ Hpx] Hp']; subst.
    simpl in Hx, Hpx. cbn [map fst] in Hnd.
    assert (Hk : ~ In k (map fst acc)).
    { apply NoDup_remove_2 in Hnd. intros Hin. apply Hnd.
      apply in_or_app. left. exact Hin. }
    assert (Hnd' : NoDup (map fst (acc ++ [(k, x)]) ++ map fst t)).
    { rewrite map_app. cbn [map fst]. rewrite <- app_assoc. exact Hnd. }
    cbn [object_tokens].
    assert (Hbody :
             JSON.parse_tokens cn (JSON.FObject acc (Some k) :: stack)
               JSON.EColon
               (JSON.TColon
                :: (tokens_of x ++ object_tokens t false)
                   ++ JSON.TRBrace :: rest)
             = match JSON.deliver (JObj (acc ++ (k, x) :: t)) stack with
               | Some (stack', e') => JSON.parse_tokens cn stack' e' rest
               | None => None
               end).
    { cbn [JSON.parse_tokens JSON.parse_step]. rewrite <- app_assoc.
      rewrite (Hx Hpx (JSON.FObject acc (Some k) :: stack) JSON.EValue)
        by (left; reflexivity).
      cbn [JSON.deliver]. rewrite (@set_prop_new k x acc Hk).
      rewrite (IH HL' Hp' (acc ++ [(k, x)]) false Hnd').
      rewrite <- app_assoc. reflexivity. }
    destruct first; cbn [app JSON.parse_tokens JSON.parse_step JSON.parse_key];
      exact Hbody.
Qed.

Lemma plain_parses_back (v : JValue) : plain cn v -> parses_back cn v.
Proof.
  induction v as [| |b|t|s|items IH|props IH] using JValue_nested_ind;
    intros Hp stack e rest He.
  - destruct Hp.
  - destruct He as [-> | ->]; reflexivity.
  - destruct b; destruct He as [-> | ->]; reflexivity.
  - destruct Hp as [_ Hc].
    destruct He as [-> | ->];
      cbn [tokens_of app JSON.parse_tokens JSON.parse_step JSON.parse_value];
      rewrite Hc; reflexivity.
  - destruct He as [-> | ->]; reflexivity.
  - apply plain_array in Hp. rewrite tokens_of_array.
    assert (H : JSON.parse_tokens cn stack e
                  ((JSON.TLBracket :: array_tokens items true
                    ++ [JSON.TRBracket]) ++ rest)
                = JSON.parse_tokens cn (JSON.FArray [] :: stack)
                    JSON.EValueOrEnd
                    (array_tokens items true ++ JSON.TRBracket :: rest)).
    { rewrite <- app_comm_cons, <- app_assoc.
      destruct He as [-> | ->]; reflexivity. }
    rewrite H. apply (@parse_array_tokens items stack rest IH Hp [] true).
  - apply plain_object in Hp. destruct Hp as [Hnd Hp].
    rewrite tokens_of_object.
    assert (H : JSON.parse_tokens cn stack e
                  ((JSON.TLBrace :: object_tokens props true
                    ++ [JSON.TRBrace]) ++ rest)
                = JSON.parse_tokens cn (JSON.FObject [] None :: stack)
                    JSON.EKeyOrEnd
                    (object_tokens props true ++ JSON.TRBrace :: rest)).
    { rewrite <- app_comm_cons, <- app_assoc.
      destruct He as [-> | ->]; reflexivity. }
    rewrite H. apply (@parse_object_tokens props stack rest IH Hp [] true Hnd).
Qed.

(** JSON.parse reads back what JSON.stringify wrote. *)
Lemma parse_stringify (v : JValue) (text : jstring) :
  plain cn v ->
  JSON.stringify v = Some text ->
  JSON.parse cn text = Normal v.
Proof.
  intros Hp Ht.
  destruct (@plain_lexes_back cn v Hp [] I) as (text' & Hs & Hlex).
  unfold JSON.stringify in Ht. rewrite Hs in Ht. injection Ht as <-.
  rewrite List.app_nil_r in Hlex. cbn [JSON.lex JSON.lex_end] in Hlex.
  unfold JSON.parse. rewrite Hlex.
  rewrite (@plain_parses_back v Hp [] JSON.EValue [] (or_introl eq_refl)).
  reflexivity.
Qed.

End ParseBack.

(** ** The third shape of the response *)

Lemma as_json_array (items : list JValue) :
  as_json (JArr items) = JArr (map item_as_json items).
Proof. reflexivity. Qed.

Lemma as_json_object (props : list (jstring * JValue)) :
  as_json (JObj props) = JObj (props_as_json props).
Proof. reflexivity. Qed.

Lemma well_formed_array (cn : jstring -> jstring) (items : list JValue) :
  well_formed cn (JArr items) <-> Forall (well_formed cn) items.
Proof.
  cbn [well_formed]. induction items as [|x items IH].
  - split; [constructor | exact (fun _ => I)].
  - rewrite IH. split.
    + intros [H1 H2]. constructor; assumption.
    + intros H. inversion H. split; assumption.
Qed.

Lemma well_formed_object (cn : jstring -> jstring)
    (props : list (jstring * JValue)) :
  well_formed cn (JObj props)
  <-> NoDup (map fst props)
      /\ Forall (fun kv => utf16 (fst kv) /\ well_formed cn (snd kv)) props.
Proof.
  cbn [well_formed].
  match goal with
  | |- _ /\ ?a <-> _ /\ ?b => assert (H : a <-> b)
  end; [|rewrite H; reflexivity].
  induction props as [|[k x] props IH].
  - split; [constructor | exact (fun _ => I)].
  - rewrite IH. split.
    + intros (H1 & H2 & H3). constructor; [split|]; assumption.
    + intros H. inversion H as [|? ? [H1 H2] H3]. repeat split; assumption.
Qed.

Lemma serialize_undefined (v : JValue) :
  JSON.serialize v = None -> v = JUndefined.
Proof. destruct v as [| |[|]| | | |]; try discriminate. reflexivity. Qed.

(** JSON.stringify writes the same text for a value and for what it keeps
    of it. *)
Lemma serialize_as_json (v : JValue) :
  JSON.serialize (as_json v) = JSON.serialize v.
Proof.
  induction v as [| |b|t|s|items IH|props IH] using JValue_nested_ind;
    try reflexivity.
  - cbn [as_json]. destruct (JSON.is_finite_text t) eqn:E.
    + reflexivity.
    + cbn [JSON.serialize]. rewrite E. reflexivity.
  - rewrite as_json_array, !serialize_array. do 3 f_equal.
    generalize true.
    induction items as [|x items IHl]; intros first; [reflexivity|].
    inversion IH as [|? ? Hx IH']; subst.
    cbn [map array_text]. rewrite (IHl IH'). do 2 f_equal.
    destruct x; try reflexivity; cbn [item_as_json]; rewrite Hx; reflexivity.
  - rewrite as_json_object, !serialize_object. do 3 f_equal.
    generalize true.
    induction props as [|[k x] props IHl]; intros first; [reflexivity|].
    inversion IH as [|? ? Hx IH']; subst. simpl in Hx.
    cbn [props_as_json object_text].
    destruct x; try (cbn [JSON.serialize]; apply (IHl IH'));
      cbn [object_text]; rewrite Hx, !(IHl IH'); reflexivity.
Qed.

Lemma props_as_json_keys (props : list (jstring * JValue)) (k : jstring) :
  In k (map fst (props_as_json props)) -> In k (map fst props).
Proof.
  induction props as [|[k' x] props IH]; [tauto|].
  cbn [props_as_json map fst].
  destruct x; cbn [map fst In]; intros H; try tauto;
    destruct H as [H|H]; auto.
Qed.

Lemma props_as_json_NoDup (props : list (jstring * JValue)) :
  NoDup (map fst props) -> NoDup (map fst (props_as_json props)).
Proof.
  induction props as [|[k x] props IH]; intros H; [constructor|].
  cbn [map fst] in H. inversion H as [|? ? Hk Hnd]; subst.
  cbn [props_as_json].
  destruct x; try (apply IH; exact Hnd);
    cbn [map fst]; constructor; try (apply IH; exact Hnd);
    intros Hin; apply Hk; apply props_as_json_keys; exact Hin.
Qed.

(** What is kept of a well-formed value is a value JSON can carry. *)
Lemma plain_as_json (cn : jstring -> jstring) (v : JValue) :
  well_formed cn v -> v <> JUndefined -> plain cn (as_json v).
Proof.
  induction v as [| |b|t|s|items IH|props IH] using JValue_nested_ind;
    intros Hw Hv.
  - contradiction.
  - exact I.
  - exact I.
  - cbn [as_json]. destruct (JSON.is_finite_text t) eqn:E; [|exact I].
    apply Hw. exact E.
  - exact Hw.
  - rewrite as_json_array. apply plain_array.
    apply well_formed_array in Hw. clear Hv.
    induction items as [|x items IHl]; [constructor|].
    inversion IH as [|? ? Hx IH']; subst.
    inversion Hw as [|? ? Hwx Hw']; subst.
    cbn [map]. constructor; [|apply IHl; assumption].
    destruct x; try exact I; apply Hx; try exact Hwx; discriminate.
  - rewrite as_json_object. apply plain_object.
    apply well_formed_object in Hw. destruct Hw as [Hnd Hw].
    split; [apply props_as_json_NoDup; exact Hnd|]. clear Hv Hnd.
    induction props as [|[k x] props IHl]; [constructor|].
    inversion IH as [|? ? Hx IH']; subst.
    inversion Hw as [|? ? [Hk Hwx] Hw']; subst. simpl in Hx, Hk, Hwx.
    cbn [props_as_json].
    destruct x; try (apply IHl; assumption);
      (constructor; [split; [exact Hk|] | apply IHl; assumption]);
      cbn [snd]; apply Hx; try exact Hwx; discriminate.
Qed.

(** JSON.parse of what JSON.stringify wrote gives what stringify kept. *)
Lemma parse_stringify_as_json (cn : jstring -> jstring) (v : JValue)
    (text : jstring) :
  well_formed cn v ->
  JSON.stringify v = Some text ->
  JSON.parse cn text = Normal (as_json v).
Proof.
  intros Hw Ht. apply parse_stringify.
  - apply plain_as_json; [exact Hw|].
    intros ->. discriminate.
  - unfold JSON.stringify in *. rewrite serialize_as_json. exact Ht.
Qed.

Lemma as_json_strings (qs : list jstring) :
  as_json (JArr (map JStr qs)) = JArr (map JStr qs).
Proof.
  rewrite as_json_array. f_equal. rewrite map_map. reflexivity.
Qed.

Lemma lookup_props_as_json (k : jstring) (props : list (jstring * JValue))
    (x : JValue) :
  lookup k props = Some x -> x <> JUndefined ->
  lookup k (props_as_json props) = Some (as_json x).
Proof.
  intros H Hx. induction props as [|[k' y] props IH]; [discriminate|].
  cbn [lookup] in H. cbn [props_as_json].
  destruct (jstring_eqb k k') eqn:E.
  - injection H as ->. destruct x; try contradiction;
      cbn [lookup]; rewrite E; reflexivity.
  - destruct y; try (apply IH; exact H);
      cbn [lookup]; rewrite E; apply IH; exact H.
Qed.

Lemma text_of_unrecognized (props : list (jstring * JValue)) :
  unrecognized (JObj props) = true ->
  extract_text (JObj props)
  = match JSON.stringify (JObj props) with
    | Some s => JStr s
    | None => JUndefined
    end.
Proof.
  unfold unrecognized. intros H. apply andb_true_iff in H.
  destruct H as [H1 H2]. apply negb_true_iff in H1, H2.
  unfold extract_text. rewrite H1, H2. reflexivity.
Qed.

(** X18. A response object that is of neither known shape (no text that
    is a string, and no output array whose first item has a content) and
    has a questions array of strings is serialized and parsed back by the
    handler, and its questions come out: the strings of the array trimmed,
    in order, without the blank ones. This holds for every well-formed
    object, whatever else it holds: a property that is undefined, an
    undefined item of an array or a number that is not finite is dropped
    or written null on the way and does not disturb the questions. *)
Theorem unrecognized_response_questions (cn : jstring -> jstring)
    (props : list (jstring * JValue)) (qs : list jstring) :
  well_formed cn (JObj props) ->
  unrecognized (JObj props) = true ->
  get (JObj props) (js "questions") = JArr (map JStr qs) ->
  parse_questions cn (extract_text (JObj props))
  = Normal (map trim (filter (fun q => negb (blank q)) qs)).
Proof.
  intros Hw Hu Hq. rewrite (text_of_unrecognized props Hu).
  destruct (JSON.stringify (JObj props)) as [text|] eqn:Es;
    [|discriminate].
  assert (Hne : truthy (JStr text) = true).
  { unfold JSON.stringify in Es. rewrite serialize_object in Es.
    injection Es as <-. reflexivity. }
  unfold parse_questions. rewrite Hne.
  unfold strict_parse. cbn [ToString bind].
  rewrite (@parse_stringify_as_json cn (JObj props) text Hw Es).
  rewrite as_json_object.
  assert (Hq' : get (JObj (props_as_json props)) (js "questions")
                = JArr (map JStr qs)).
  { cbn [get] in Hq |- *.
    destruct (lookup (js "questions") props) as [x|] eqn:El;
      [|destruct qs; discriminate].
    subst x. rewrite (lookup_props_as_json _ _ El) by discriminate.
    apply as_json_strings. }
  cbn [bind is_array truthy andb]. rewrite Hq'.
  cbn [truthy is_array andb items_of].
  rewrite map_string_trim_strings. cbn [bind try_catch].
  rewrite filter_nonempty_trim. reflexivity.
Qed.

Lemma unrecognized_response_questions_witness :
  ~ plain (fun l => l) loose_response
  /\ parse_questions (fun l => l) (extract_text loose_response)
     = Normal [js "Why Go?"; js "Why Rust?"].
Proof.
  split; [cbn; tauto|].
  apply (@unrecognized_response_questions (fun l => l)
           [(js "usage", JUndefined);
            (js "questions",
             JArr [JStr (js " Why Go? "); JStr (js "Why Rust?")]);
            (js "score", JNum (js "NaN"));
            (js "output", JStr (js "none"));
            (js "steps", JArr [JUndefined; JBool true])]
           [js " Why Go? "; js "Why Rust?"]).
  - cbn. repeat split; repeat constructor;
      cbv; intuition discriminate.
  - reflexivity.
  - reflexivity.
Defined.

(** X16. JSON.parse reads back what JSON.stringify writes: for every
    value JSON can carry (no undefined in it, numbers that are literals the
    conversion leaves as they are, strings of UTF-16 code units, objects
    with distinct keys) stringify yields a text, and parse of that text
    yields the value again. *)
Theorem JSON_parse_stringify (cn : jstring -> jstring) (v : JValue) :
  plain cn v ->
  exists text,
    JSON.stringify v = Some text /\ JSON.parse cn text = Normal v.
Proof.
  intros Hp.
  destruct (@plain_lexes_back cn v Hp [] I) as (text & Hs & _).
  exists text. split; [exact Hs|].
  apply parse_stringify; assumption.
Qed.

Lemma JSON_parse_stringify_witness :
  exists text,
    JSON.stringify sample_value = Some text
    /\ JSON.parse (fun l => l) text = Normal sample_value.
Proof.
  apply JSON_parse_stringify.
  cbn. repeat split; repeat constructor;
    cbv; intuition discriminate.
Defined.

(** ** The steps before the model call *)

Lemma ToString_array (items : list JValue) :
  ToString (JArr items) = join_items items true.
Proof. reflexivity. Qed.

Lemma convertible_array (items : list JValue) :
  convertible (JArr items) = forallb convertible items.
Proof. reflexivity. Qed.

Lemma ToString_convertible (v : JValue) :
  convertible v = true -> exists s, ToString v = Normal s.
Proof.
  induction v as [| |b|t|s|items IH|props IH] using JValue_nested_ind;
    intros Hc; try (eexists; reflexivity).
  - destruct b; eexists; reflexivity.
  - rewrite convertible_array in Hc. rewrite ToString_array.
    generalize true.
    induction items as [|x items IHl]; intros first;
      [eexists; reflexivity|].
    inversion IH as [|? ? Hx IH']; subst.
    simpl in Hc. apply andb_true_iff in Hc. destruct Hc as [Hcx Hc].
    destruct (IHl IH' Hc false) as [st Hst].
    destruct (Hx Hcx) as [sx Hsx].
    cbn [join_items]. rewrite Hst.
    destruct x; try rewrite Hsx; eexists; reflexivity.
  - cbn [convertible] in Hc. cbn [ToString].
    destruct (lookup (js "toString") props); [discriminate|].
    eexists. reflexivity.
Qed.

(** X23. Nothing throws before the model call when the five fields of the
    body that the prompt interpolates are convertible to text (no object
    with a toString property of its own in them): the steps end with the
    401 answer when the secret is refused, and otherwise with a prompt
    and the user the request resolves to. *)
Theorem before_model_convertible (env : Env) (req : Request) (b : Body.t) :
  convertible (Body.role b) = true ->
  convertible (Body.level b) = true ->
  convertible (Body.techstack b) = true ->
  convertible (Body.type b) = true ->
  convertible (Body.amount b) = true ->
  exists prompt,
    build_prompt b = Normal prompt
    /\ before_model env req b
       = if secret_refused env req then Normal (inl unauthorized)
         else Normal (inr (prompt, resolve_user env req (Body.userid b))).
Proof.
  intros H1 H2 H3 H4 H5. unfold before_model, build_prompt.
  destruct (ToString_convertible _ H1) as [s1 ->].
  destruct (ToString_convertible _ H2) as [s2 ->].
  destruct (ToString_convertible _ H3) as [s3 ->].
  destruct (ToString_convertible _ H4) as [s4 ->].
  destruct (ToString_convertible _ H5) as [s5 ->].
  eexists. split; [reflexivity|].
  destruct (secret_refused env req); reflexivity.
Qed.

(** X24. A body whose role is an object with a toString property of its
    own stops the handler at the prompt: the interpolation throws, so the
    answer is 500 and nothing is stored, whatever the model and the store
    would have done. *)
Theorem POST_shadowed_toString_500 (env : Env) (req : Request) (db : Store)
    (b : Body.t) (props : list (jstring * JValue)) (x : JValue) :
  destructure (body_of env req) = Normal b ->
  secret_refused env req = false ->
  Body.role b = JObj props ->
  lookup (js "toString") props = Some x ->
  exists e,
    before_model env req b = Throw e
    /\ POST env req db = (Responded (server_error e), db).
Proof.
  intros Hb Hs Hr Hl. eexists.
  assert (H : before_model env req b
              = Throw (TypeError
                         (js "Cannot convert object to primitive value"))).
  { unfold before_model, build_prompt. rewrite Hs, Hr.
    cbn [ToString]. rewrite Hl. reflexivity. }
  split; [exact H|].
  unfold POST. rewrite request_body_normal, Hb.
  unfold POST_try. rewrite H. reflexivity.
Qed.

(** X25. A text found in the model's response that is not a string (the
    second shape takes whatever truthy value sits under text) and that the
    strict parse refuses makes the fallback throw, since such a value has
    no replace method: the answer is 500, not 502, and nothing is
    stored. *)
Theorem POST_nested_text_not_string_500 (env : Env) (req : Request)
    (db : Store) (b : Body.t) (prompt : jstring) (llm : JValue)
    (e : JError) :
  destructure (body_of env req) = Normal b ->
  secret_refused env req = false ->
  build_prompt b = Normal prompt ->
  generateText env prompt = Normal llm ->
  is_string (extract_text llm) = false ->
  truthy (extract_text llm) = true ->
  strict_parse (canonical_number env) (extract_text llm) = Throw e ->
  POST env req db
  = (Responded
       (server_error
          (TypeError (js "questionsText.replace is not a function"))),
     db).
Proof.
  intros Hb Hs Hp Hg Hn Ht He. unfold POST.
  rewrite request_body_normal, Hb.
  unfold POST_try, before_model. rewrite Hs, Hp. simpl.
  unfold ask_model. rewrite Hg. simpl.
  unfold parse_questions. rewrite Ht, He. simpl.
  destruct (extract_text llm); try discriminate; reflexivity.
Qed.

Lemma before_model_convertible_witness :
  destructure (body_of (sample_env None sample_answer)
                 (sample_request sample_body None None))
  = Normal sample_fields
  /\ exists prompt,
       build_prompt sample_fields = Normal prompt
       /\ before_model (sample_env None sample_answer)
            (sample_request sample_body None None) sample_fields
          = Normal (inr (prompt, JStr (js "uid-from-body"))).
Proof.
  split; [reflexivity|].
  exact (@before_model_convertible (sample_env None sample_answer)
           (sample_request sample_body None None) sample_fields
           eq_refl eq_refl eq_refl eq_refl eq_refl).
Defined.

Lemma POST_shadowed_toString_500_witness :
  exists r,
    POST (sample_env None sample_answer)
      (sample_request shadowing_body None None) []
    = (Responded r, [])
    /\ status r = 500.
Proof.
  destruct (@POST_shadowed_toString_500 (sample_env None sample_answer)
              (sample_request shadowing_body None None) []
              _ [(js "toString", JNum (js "1"))] (JNum (js "1"))
              eq_refl eq_refl eq_refl eq_refl) as (e & _ & H).
  exists (server_error e). split; [exact H | reflexivity].
Defined.

Lemma POST_nested_text_not_string_500_witness :
  extract_text nested_number_response = JNum (js "5")
  /\ POST (model_env nested_number_response)
       (sample_request sample_body None None) []
     = (Responded
          (server_error
             (TypeError (js "questionsText.replace is not a function"))),
        []).
Proof.
  split; [reflexivity|].
  eapply (@POST_nested_text_not_string_500 (model_env nested_number_response)
            (sample_request sample_body None None) []); reflexivity.
Defined.

(** ** firebase/admin.ts *)

Import Admin.

Lemma escaped_newline_match (p : nat) (t : jstring) :
  match_at escaped_newline_re p t
  = match t with
    | c :: d :: t' =>
        if N.eqb c 92 && N.eqb d 110 then Some (MState (S (S p)) t' [])
        else None
    | _ => None
    end.
Proof.
  unfold match_at, escaped_newline_re. cbn [m lit rest pos caps].
  destruct t as [|c [|d t']]; try reflexivity.
  - destruct (N.eqb_spec 92 c) as [<-|]; reflexivity.
  - rewrite (N.eqb_sym c 92), (N.eqb_sym d 110).
    destruct (92 =? c)%N; [|reflexivity].
    destruct (110 =? d)%N; reflexivity.
Qed.

Lemma replace_loop_cons (r : re) (by_ : jstring) (p : nat) (c : N)
    (t : jstring) :
  replace_loop r by_ p 0 (c :: t)
  = match match_at r p (c :: t) with
    | Some e =>
        match pos e - p with
        | S len => by_ ++ replace_loop r by_ (S p) len t
        | O => by_ ++ c :: replace_loop r by_ (S p) 0 t
        end
    | None => c :: replace_loop r by_ (S p) 0 t
    end.
Proof. reflexivity. Qed.

Lemma unescape_cons (c d : N) (t : jstring) :
  unescape (c :: d :: t)
  = if N.eqb c 92 && N.eqb d 110 then LF :: unescape t
    else c :: unescape (d :: t).
Proof. reflexivity. Qed.

Lemma unescape_loop (n : nat) :
  forall t p,
    List.length t <= n ->
    replace_loop escaped_newline_re [LF] p 0 t = unescape t.
Proof.
  induction n as [|n IH]; intros t p Hn.
  - destruct t; [|simpl in Hn; lia]. reflexivity.
  - destruct t as [|c [|d t']].
    + reflexivity.
    + cbn [replace_loop]. rewrite !escaped_newline_match. reflexivity.
    + rewrite replace_loop_cons, unescape_cons, escaped_newline_match.
      destruct (N.eqb c 92 && N.eqb d 110).
      * cbn [pos]. assert (E2 : S (S p) - p = 2%nat) by lia. rewrite E2.
        change (replace_loop escaped_newline_re [LF] (S p) 1 (d :: t'))
          with (replace_loop escaped_newline_re [LF] (S (S p)) 0 t').
        cbn [app]. f_equal. apply IH. simpl in Hn. lia.
      * f_equal. apply IH. simpl in *. lia.
Qed.

Lemma normalize_unescape (raw : option jstring) :
  normalize_private_key raw
  = unescape (match raw with Some k => k | None => [] end).
Proof.
  unfold normalize_private_key, replace_all.
  eapply unescape_loop. apply Nat.le_refl.
Qed.

Lemma unescape_head (n : nat) :
  forall s, List.length s <= n ->
    match unescape s with
    | [] => s = []
    | x :: _ => x = LF \/ exists t, s = x :: t
    end.
Proof.
  induction n as [|n IH]; intros s Hn.
  - destruct s; [reflexivity | simpl in Hn; lia].
  - destruct s as [|c [|d t']]; try reflexivity.
    + right. eexists. reflexivity.
    + rewrite unescape_cons. destruct (N.eqb c 92 && N.eqb d 110).
      * left. reflexivity.
      * right. eexists. reflexivity.
Qed.

Lemma unescape_clean (n : nat) :
  forall s, List.length s <= n -> has_escaped_newline (unescape s) = false.
Proof.
  induction n as [|n IH]; intros s Hn.
  - destruct s; [reflexivity | simpl in Hn; lia].
  - destruct s as [|c [|d t']]; try reflexivity.
    rewrite unescape_cons. destruct (N.eqb c 92 && N.eqb d 110) eqn:E.
    + assert (H : has_escaped_newline (unescape t') = false)
        by (apply IH; simpl in *; lia).
      cbn [has_escaped_newline]. destruct (unescape t'); [reflexivity|].
      exact H.
    + assert (H : has_escaped_newline (unescape (d :: t')) = false)
        by (apply IH; simpl in *; lia).
      pose proof (@unescape_head (List.length (d :: t')) (d :: t')
                    (Nat.le_refl _)) as Hh.
      cbn [has_escaped_newline].
      destruct (unescape (d :: t')) as [|x u] eqn:Eu; [reflexivity|].
      rewrite H, orb_false_r.
      destruct Hh as [->|[t Ht]].
      * rewrite andb_false_r. reflexivity.
      * injection Ht as -> _. exact E.
Qed.

Lemma unescape_no_backslash (s : jstring) :
  ~ In 92%N s -> unescape s = s.
Proof.
  induction s as [|c t IH]; intros H; [reflexivity|].
  destruct t as [|d t']; [reflexivity|]. rewrite unescape_cons.
  destruct (N.eqb_spec c 92) as [->|Hc].
  - exfalso. apply H. left. reflexivity.
  - cbn [andb]. f_equal. apply IH. intros Hin. apply H. right. exact Hin.
Qed.

(** X20. The service account carries the same private key under both of
    its names: the value of FIREBASE_PRIVATE_KEY (the empty string when the
    variable is not set) with every backslash-n pair turned into a line
    feed, left to right; no such pair is left in it. *)
Theorem private_key_normalized (env : ProcessEnv) :
  let key := privateKey (service_account env) in
  private_key (service_account env) = key
  /\ key = unescape (match FIREBASE_PRIVATE_KEY env with
                     | Some k => k
                     | None => []
                     end)
  /\ has_escaped_newline key = false.
Proof.
  simpl. rewrite normalize_unescape. repeat split.
  eapply unescape_clean. apply Nat.le_refl.
Qed.

(** X21. A private key that contains no backslash is passed on as it
    is. *)
Theorem private_key_unchanged (env : ProcessEnv) (k : jstring) :
  FIREBASE_PRIVATE_KEY env = Some k ->
  ~ In 92%N k ->
  privateKey (service_account env) = k.
Proof.
  intros Hk Hb. simpl. rewrite normalize_unescape, Hk.
  apply unescape_no_backslash. exact Hb.
Qed.

(** X22. initFirebaseAdmin initializes at most once: with an app already
    registered the block under the guard is skipped, whatever the
    environment: cert is not called and the registry stays as it is; after
    a call whose block did not throw the registry is not empty, so any
    further call skips the block. A throw of cert is met only on an empty
    registry, which it leaves empty. *)
Theorem initFirebaseAdmin_once (Credential : Type)
    (cert : ServiceAccount -> Completion Credential)
    (env env' : ProcessEnv) (apps : list Credential) :
  match initFirebaseAdmin cert env apps with
  | (Normal _, apps') =>
      apps' <> []
      /\ (apps <> [] -> apps' = apps)
      /\ initFirebaseAdmin cert env' apps' = (Normal tt, apps')
  | (Throw _, apps') => apps = [] /\ apps' = []
  end.
Proof.
  unfold initFirebaseAdmin. destruct apps as [|a apps].
  - destruct (cert (service_account env)); repeat split; try discriminate.
    intros H. contradiction.
  - repeat split; discriminate.
Qed.

Lemma private_key_unchanged_witness :
  privateKey (service_account
                {| FIREBASE_PRIVATE_KEY := Some (js "-----BEGIN KEY-----");
                   FIREBASE_PROJECT_ID := Some (js "demo");
                   FIREBASE_CLIENT_EMAIL := None |})
  = js "-----BEGIN KEY-----".
Proof.
  apply (@private_key_unchanged
           {| FIREBASE_PRIVATE_KEY := Some (js "-----BEGIN KEY-----");
              FIREBASE_PROJECT_ID := Some (js "demo");
              FIREBASE_CLIENT_EMAIL := None |}
           (js "-----BEGIN KEY-----") eq_refl).
  cbv. intuition discriminate.
Defined.

Lemma initFirebaseAdmin_once_witness :
  initFirebaseAdmin (fun account => Normal account)
    {| FIREBASE_PRIVATE_KEY := None;
       FIREBASE_PROJECT_ID := Some (js "other");
       FIREBASE_CLIENT_EMAIL := None |}
    (snd (initFirebaseAdmin (fun account => Normal account)
            {| FIREBASE_PRIVATE_KEY := Some (js "k");
               FIREBASE_PROJECT_ID := Some (js "demo");
               FIREBASE_CLIENT_EMAIL := None |} []))
  = (Normal tt,
     snd (initFirebaseAdmin (fun account => Normal account)
            {| FIREBASE_PRIVATE_KEY := Some (js "k");
               FIREBASE_PROJECT_ID := Some (js "demo");
               FIREBASE_CLIENT_EMAIL := None |} [])).
Proof.
  pose proof (@initFirebaseAdmin_once ServiceAccount
                (fun account => Normal account)
                {| FIREBASE_PRIVATE_KEY := Some (js "k");
                   FIREBASE_PROJECT_ID := Some (js "demo");
                   FIREBASE_CLIENT_EMAIL := None |}
                {| FIREBASE_PRIVATE_KEY := None;
                   FIREBASE_PROJECT_ID := Some (js "other");
                   FIREBASE_CLIENT_EMAIL := None |} []) as H.
  simpl in H. destruct H as (_ & _ & H). exact H.
Defined.
